(** * LuminaFlow marketing site: the interaction layer of [script.js]

    A shallow embedding of the event handlers of [script.js] and the
    properties the specification states about them.

    Modelling conventions.
    - A DOM node is a reference ([node], a natural number); the document is
      a store [elements : node -> Element] inside [State].  Handlers are
      state transformers; two references may denote the same node, as in
      JavaScript.
    - Values the script obtains once at load time from the markup
      ([document.querySelector...] results bound to [const]s) and what the
      browser computes from the tree (descendant queries, [closest],
      [getElementById], the locale) are gathered in [Page].  The script
      never restructures the tree it queries, so they are constant.
    - [textContent] is the text of an element that holds text only.
    - A string is the UTF-8 encoding of the JavaScript string.
    - The numbers of the counter animation are IEEE 754 doubles: Rocq's
      primitive floats ([float]), with round-to-nearest-even, signed
      zeros, infinities and NaN, as the script computes them.  Positions
      on the page and the random draw are exact rationals ([Q]); the
      script adds and compares them only.
    - [undefined] and [null] results are [None]. *)

From Stdlib Require Import ZArith QArith Lia Lqa Floats.
From stdpp Require Import base option list strings pretty gmap.

Local Open Scope string_scope.

(** ** JavaScript primitives used by the script *)

Module JS.

(** [String(b)] for a boolean [b]. *)
Definition String_of_bool (b : bool) : string :=
  if b then "true" else "false".

(** Truthiness of a string: every string but the empty one. *)
Definition nonEmpty (s : string) : bool := negb (String.eqb s "").

(** Truthiness of a value that is a string, [undefined] or [null]. *)
Definition truthy (v : option string) : bool :=
  match v with
  | Some s => nonEmpty s
  | None => false
  end.

(** [a === b] on values that are strings, [undefined] or [null] (the two
    absent values never meet each other in the script). *)
Definition strictEq (a b : option string) : bool :=
  match a, b with
  | Some x, Some y => String.eqb x y
  | None, None => true
  | _, _ => false
  end.

(** Conversion of a value to a string, as for a property key, a piece of
    a template literal or a string attribute: [undefined] becomes the
    string ["undefined"]. *)
Definition toPropertyKey (v : option string) : string :=
  match v with
  | Some s => s
  | None => "undefined"
  end.

(** The string-keyed properties every object inherits from
    [Object.prototype] (ECMAScript, sections 20.1.3 and B.2.2).  The
    prototype of [el.dataset] adds no other string-keyed name than
    [constructor]. *)
Definition objectPrototypeKeys : list string :=
  ["constructor"; "hasOwnProperty"; "isPrototypeOf"; "propertyIsEnumerable";
   "toLocaleString"; "toString"; "valueOf"; "__proto__";
   "__defineGetter__"; "__defineSetter__"; "__lookupGetter__"; "__lookupSetter__"].

Definition inherited (key : string) : bool :=
  bool_decide (key ∈ objectPrototypeKeys).

(** A value read from [el.dataset]: the string of a data attribute, a
    built-in function or object found on the prototype chain (given by the
    text it converts to), or [undefined]. *)
Inductive Value : Type :=
| VString (s : string)
| VBuiltin (text : string)
| VUndefined.

(** Truthiness: a string that is not empty, and every function or object. *)
Definition truthyValue (v : Value) : bool :=
  match v with
  | VString s => nonEmpty s
  | VBuiltin _ => true
  | VUndefined => false
  end.

(** [String(v)] *)
Definition toString (v : Value) : string :=
  match v with
  | VString s => s
  | VBuiltin text => text
  | VUndefined => "undefined"
  end.

(** [array.forEach(f)] with the state threaded through the callbacks. *)
Fixpoint forEach {A S : Type} (f : A -> S -> S) (l : list A) (s : S) : S :=
  match l with
  | [] => s
  | x :: l' => forEach f l' (f x s)
  end.

(** The result of a call that may raise an exception. *)
Inductive Completion (A : Type) : Type :=
| Normal (a : A)
| Throw.
Arguments Normal {A} a.
Arguments Throw {A}.

End JS.

(** ** Doubles

    [Math.min] and [Math.floor] on primitive floats; the arithmetic and the
    comparisons of the script are the primitive operations themselves. *)

Module Double.

(** [Math.min(a, b)]: NaN if either is NaN; of two zeros the negative one. *)
Definition min (a b : float) : float :=
  if PrimFloat.is_nan a || PrimFloat.is_nan b then PrimFloat.nan
  else if PrimFloat.ltb a b then a
  else if PrimFloat.ltb b a then b
  else if PrimFloat.get_sign a then a else b.

(** The double of an integer below 2^53 in magnitude, which is exact. *)
Definition ofZ (n : Z) : float :=
  if (n <? 0)%Z then PrimFloat.opp (PrimFloat.of_uint63 (Uint63.of_Z (- n)))
  else PrimFloat.of_uint63 (Uint63.of_Z n).

(** [Math.floor(x)].  A finite double that is not zero is
    [(-1)^s * m * 2^e] with a mantissa [m] below 2^53: with [e >= 0] it is
    an integer already, otherwise [Z.shiftr] divides the signed mantissa
    by [2^(-e)] and rounds down.  Zeros, infinities and NaN are returned
    as they are. *)
Definition floor (x : float) : float :=
  match FloatOps.Prim2SF x with
  | SpecFloat.S754_finite s m e =>
      if (0 <=? e)%Z then x
      else ofZ (Z.shiftr (if s then Z.neg m else Z.pos m) (- e))
  | _ => x
  end.

(** The integer part of a finite double, rounded down. *)
Definition toZ (x : float) : option Z :=
  match FloatOps.Prim2SF x with
  | SpecFloat.S754_zero _ => Some 0%Z
  | SpecFloat.S754_finite s m e => Some (Z.shiftl (if s then Z.neg m else Z.pos m) e)
  | _ => None
  end.

End Double.

(** ** The document *)

Definition node : Type := nat.

(** The part of [field.validity] the script reads.  [otherViolation] stands
    for every flag the script does not name (pattern, length, range,
    custom ...). *)
Record ValidityState : Type := mkValidity {
  valueMissing : bool;
  typeMismatch : bool;
  otherViolation : bool;
}.

(** [validity.valid]: no flag is set. *)
Definition valid (v : ValidityState) : bool :=
  negb (valueMissing v || typeMismatch v || otherViolation v).

#[projections(primitive)]
Record Element : Type := mkElement {
  (** [el instanceof HTMLElement] *)
  isHTMLElement : bool;
  (** whether [el.focus()] can give the element the focus *)
  focusable : bool;
  classList : gset string;
  attributes : gmap string string;
  (** [el.dataset], keyed by the camel-case property name *)
  dataset : gmap string string;
  (** inline style, keyed by the camel-case property name *)
  style : gmap string string;
  textContent : string;
  (** form controls: current value, value restored by [form.reset()], and
      the constraints the browser evaluates on the current value *)
  value : string;
  defaultValue : string;
  required : bool;
  typeMismatches : string -> bool;
  violatesOther : string -> bool;
  (** layout measures *)
  scrollHeight : Z;
  offsetHeight : Z;
  boundingClientTop : Q;
}.

Definition with_classList (c : gset string) (e : Element) : Element :=
  let 'mkElement h f _ a d s t v dv r tm vo sh oh bt := e in
  mkElement h f c a d s t v dv r tm vo sh oh bt.

Definition with_attributes (a : gmap string string) (e : Element) : Element :=
  let 'mkElement h f c _ d s t v dv r tm vo sh oh bt := e in
  mkElement h f c a d s t v dv r tm vo sh oh bt.

Definition with_style (s : gmap string string) (e : Element) : Element :=
  let 'mkElement h f c a d _ t v dv r tm vo sh oh bt := e in
  mkElement h f c a d s t v dv r tm vo sh oh bt.

Definition with_textContent (t : string) (e : Element) : Element :=
  let 'mkElement h f c a d s _ v dv r tm vo sh oh bt := e in
  mkElement h f c a d s t v dv r tm vo sh oh bt.

Definition with_value (v : string) (e : Element) : Element :=
  let 'mkElement h f c a d s t _ dv r tm vo sh oh bt := e in
  mkElement h f c a d s t v dv r tm vo sh oh bt.

(** [el.getAttribute(name)] *)
Definition getAttribute (name : string) (e : Element) : option string :=
  attributes e !! name.

(** [el.id]: the [id] attribute, or the empty string. *)
Definition id_of (e : Element) : string :=
  default "" (getAttribute "id" e).

(** [el.classList.contains(c)] *)
Definition contains (c : string) (e : Element) : bool :=
  bool_decide (c ∈ classList e).

(** [field.validity] of a text control: the value is missing when the
    control is required and its value is empty; the other flags are the
    browser's verdict on the current value. *)
Definition validity (e : Element) : ValidityState :=
  {| valueMissing := required e && String.eqb (value e) "";
     typeMismatch := typeMismatches e (value e);
     otherViolation := violatesOther e (value e) |}.

Inductive ScrollBehavior : Type := auto_ | smooth.

(** A request body of the contact form. *)
Record FormData : Type := mkFormData {
  fd_name : string;
  fd_email : string;
  fd_message : string;
}.

(** A [fetch] call: the URL and the JSON body it posts. *)
Record Request : Type := mkRequest {
  req_url : string;
  req_body : FormData;
}.

#[projections(primitive)]
Record State : Type := mkState {
  elements : node -> Element;
  (** [document.activeElement] *)
  activeElement : option node;
  localStorage : gmap string string;
  (** the script's [let] variables *)
  openAccordionId : option string;
  lastFocusedElement : option node;
  (** [window.scrollY] and the [window.scrollTo] calls made so far *)
  scrollY : Q;
  scrollCalls : list (Q * ScrollBehavior);
  (** the [fetch] calls made so far, and the time in milliseconds *)
  fetchCalls : list Request;
  clock : N;
}.

Definition with_elements (d : node -> Element) (st : State) : State :=
  let 'mkState _ a l o f y sc fc c := st in mkState d a l o f y sc fc c.

Definition with_activeElement (a : option node) (st : State) : State :=
  let 'mkState d _ l o f y sc fc c := st in mkState d a l o f y sc fc c.

Definition with_localStorage (l : gmap string string) (st : State) : State :=
  let 'mkState d a _ o f y sc fc c := st in mkState d a l o f y sc fc c.

Definition with_openAccordionId (o : option string) (st : State) : State :=
  let 'mkState d a l _ f y sc fc c := st in mkState d a l o f y sc fc c.

Definition with_lastFocusedElement (f : option node) (st : State) : State :=
  let 'mkState d a l o _ y sc fc c := st in mkState d a l o f y sc fc c.

Definition with_scrollCalls (sc : list (Q * ScrollBehavior)) (st : State) : State :=
  let 'mkState d a l o f y _ fc c := st in mkState d a l o f y sc fc c.

Definition with_fetchCalls (fc : list Request) (st : State) : State :=
  let 'mkState d a l o f y sc _ c := st in mkState d a l o f y sc fc c.

Definition with_clock (c : N) (st : State) : State :=
  let 'mkState d a l o f y sc fc _ := st in mkState d a l o f y sc fc c.

(** Replace the element a reference denotes. *)
Definition update (n : node) (f : Element -> Element) (st : State) : State :=
  with_elements
    (fun k => if Nat.eqb k n then f (elements st k) else elements st k) st.

(** [el.setAttribute(name, v)] *)
Definition setAttribute (n : node) (name v : string) : State -> State :=
  update n (fun e => with_attributes (<[name := v]> (attributes e)) e).

(** [el.textContent = t] *)
Definition setTextContent (n : node) (t : string) : State -> State :=
  update n (with_textContent t).

(** [el.style[prop] = v] *)
Definition setStyle (n : node) (prop v : string) : State -> State :=
  update n (fun e => with_style (<[prop := v]> (style e)) e).

(** [el.classList.toggle(c, force)] *)
Definition classList_toggle (n : node) (c : string) (force : bool) : State -> State :=
  update n (fun e =>
    with_classList (if force then {[c]} ∪ classList e else classList e ∖ {[c]}) e).

(** [el.focus()] *)
Definition focus (n : node) (st : State) : State :=
  if focusable (elements st n) then with_activeElement (Some n) st else st.

(** What the script binds at load time and what the browser answers from
    the unchanging structure of the page. *)
Record Page : Type := mkPage {
  prefersReducedMotion : bool;
  header : option node;
  themeToggle : option node;
  themeIcon : option node;
  documentElement : node;
  body : node;
  billingButtons : list node;
  pricingCards : list node;
  cycleSuffix : list node;
  accordionTriggers : list node;
  lightbox : option node;
  lightboxImage : option node;
  lightboxCaption : option node;
  lightboxClose : option node;
  statusEl : option node;
  fields : list node;
  (** [contactForm.name], [contactForm.email], [contactForm.message] *)
  nameControl : node;
  emailControl : node;
  messageControl : node;
  (** [el.querySelector(selector)] and [el.closest(selector)] *)
  querySelector : node -> string -> option node;
  closest : node -> string -> option node;
  (** [el.closest] for the selector of links whose [href] starts with [#] *)
  closestHashLink : node -> option node;
  (** [document.querySelector(selector)]; raises on a malformed selector *)
  documentQuerySelector : string -> JS.Completion (option node);
  getElementById : string -> option node;
  (** [Number(s)] on a string and [x.toLocaleString()] in the user's locale *)
  Number_of_string : string -> float;
  toLocaleString : float -> string;
  (** [String(v)] for the built-in [v] that objects inherit under a name of
      [Object.prototype]; the text is the implementation's *)
  builtinText : string -> string;
  (** whether the element has the [src] and the [alt] property of images
      (an [img], an [input] ...), and the URL a [src] attribute resolves to
      against the base URL of the document *)
  reflectsSrc : node -> bool;
  reflectsAlt : node -> bool;
  resolveURL : string -> string;
  (** the text of [`${x}`] for the double [x] that [parseInt] returns for
      the digits of an integer beyond 2^53 in magnitude: the integer is
      rounded, and the text is in exponent notation from 10^21 on;
      [None] when [x] is infinite *)
  integerText : Z -> option string;
}.

(** [el.dataset[key]]: the data attribute of that name when there is one
    (the named properties of a [DOMStringMap] come before the properties of
    its prototypes), else what the object inherits under that name. *)
Definition datasetGet (pg : Page) (e : Element) (key : string) : JS.Value :=
  match dataset e !! key with
  | Some s => JS.VString s
  | None =>
      if JS.inherited key then JS.VBuiltin (builtinText pg key) else JS.VUndefined
  end.

(** ** Pricing toggle *)

Definition cycleLabel (billing : option string) : string :=
  if JS.strictEq billing (Some "yearly") then "/mo billed yearly" else "/mo".

(** The template literal [`${billing}Link`]. *)
Definition linkAttr (billing : option string) : string :=
  JS.toPropertyKey billing +:+ "Link".

(** The callbacks of the three loops of [updatePricing]. *)
Definition pricingButton (billing : option string) (btn : node) (st : State) : State :=
  let isActive := JS.strictEq (dataset (elements st btn) !! "billing") billing in
  let st := classList_toggle btn "is-active" isActive st in
  setAttribute btn "aria-pressed" (JS.String_of_bool isActive) st.

Definition pricingCard (pg : Page) (billing : option string) (card : node)
    (st : State) : State :=
  match querySelector pg card ".amount", querySelector pg card ".plan-cta" with
  | Some amountEl, Some cta =>
      let price := datasetGet pg (elements st amountEl) (JS.toPropertyKey billing) in
      let st :=
        if JS.truthyValue price
        then setTextContent amountEl (JS.toString price) st else st in
      let href := datasetGet pg (elements st cta) (linkAttr billing) in
      if JS.truthyValue href then setAttribute cta "href" (JS.toString href) st else st
  | _, _ => st
  end.

Definition pricingSuffix (billing : option string) (suffix : node) (st : State)
    : State :=
  setTextContent suffix (cycleLabel billing) st.

Definition updatePricing (pg : Page) (billing : option string) (st : State) : State :=
  let st := JS.forEach (pricingButton billing) (billingButtons pg) st in
  let st := JS.forEach (pricingCard pg billing) (pricingCards pg) st in
  JS.forEach (pricingSuffix billing) (cycleSuffix pg) st.

(** The click listener of a billing button. *)
Definition onBillingClick (pg : Page) (btn : node) (st : State) : State :=
  if contains "is-active" (elements st btn) then st
  else updatePricing pg (dataset (elements st btn) !! "billing") st.

(** ** FAQ accordion *)

(** The template literal [`${n}px`]. *)
Definition px (n : Z) : string := pretty n +:+ "px".

(** The panel of a trigger: the element whose id the [aria-controls]
    attribute names (the first two lines of [setAccordionState]). *)
Definition panelOf (pg : Page) (st : State) (trigger : node) : option node :=
  match getAttribute "aria-controls" (elements st trigger) with
  | Some panelId => if JS.nonEmpty panelId then getElementById pg panelId else None
  | None => None
  end.

Definition setAccordionState (pg : Page) (trigger : node) (expanded : bool)
    (st : State) : State :=
  let panel := panelOf pg st trigger in
  let st := setAttribute trigger "aria-expanded" (JS.String_of_bool expanded) st in
  match panel with
  | None => st
  | Some panel =>
      let st := setAttribute panel "aria-hidden" (JS.String_of_bool (negb expanded)) st in
      if expanded then
        let st := setStyle panel "maxHeight" (px (scrollHeight (elements st panel))) st in
        with_openAccordionId (Some (id_of (elements st trigger))) st
      else
        let st := setStyle panel "maxHeight" "0px" st in
        if JS.strictEq (openAccordionId st) (Some (id_of (elements st trigger)))
        then with_openAccordionId None st
        else st
  end.

(** The load-time loop over the triggers: every trigger is collapsed. *)
Definition initAccordion (pg : Page) (st : State) : State :=
  JS.forEach (fun trigger st => setAccordionState pg trigger false st)
    (accordionTriggers pg) st.

(** The callback of the inner [forEach] of the click listener. *)
Definition collapseOther (pg : Page) (trigger other : node) (st : State) : State :=
  if Nat.eqb other trigger then st else setAccordionState pg other false st.

(** [trigger.getAttribute('aria-expanded') === 'true'] *)
Definition isExpanded (st : State) (trigger : node) : bool :=
  JS.strictEq (getAttribute "aria-expanded" (elements st trigger)) (Some "true").

(** The click listener of a trigger. *)
Definition onAccordionClick (pg : Page) (trigger : node) (st : State) : State :=
  let wasExpanded := isExpanded st trigger in
  let st := JS.forEach (collapseOther pg trigger) (accordionTriggers pg) st in
  setAccordionState pg trigger (negb wasExpanded) st.

(** The states a [forEach] passes through, one after each callback. *)
Fixpoint forEachStates {A S : Type} (f : A -> S -> S) (l : list A) (s : S) : list S :=
  match l with
  | [] => []
  | x :: l' => f x s :: forEachStates f l' (f x s)
  end.

(** A session: the triggers clicked, in order. *)
Definition runAccordion (pg : Page) (clicks : list node) (st : State) : State :=
  JS.forEach (onAccordionClick pg) clicks st.

(** Every state a session passes through, starting with the given one. *)
Fixpoint runAccordionStates (pg : Page) (clicks : list node) (st : State)
    : list State :=
  match clicks with
  | [] => [st]
  | t :: rest =>
      st :: forEachStates (collapseOther pg t) (accordionTriggers pg) st
         ++ runAccordionStates pg rest (onAccordionClick pg t st)
  end.

(** ** Lightbox *)

(** [img.src]: on an element that has the property, the URL its [src]
    attribute resolves to, the empty string when the attribute is absent;
    [undefined] on any other element. *)
Definition src_of (pg : Page) (st : State) (img : node) : option string :=
  if reflectsSrc pg img then
    Some (match getAttribute "src" (elements st img) with
          | Some v => resolveURL pg v
          | None => ""
          end)
  else None.

(** [img.alt]: the [alt] attribute, the empty string when it is absent;
    [undefined] on an element without the property. *)
Definition alt_of (pg : Page) (st : State) (img : node) : option string :=
  if reflectsAlt pg img then Some (default "" (getAttribute "alt" (elements st img)))
  else None.

Definition openLightbox (pg : Page) (img : node) (st : State) : State :=
  match lightbox pg, lightboxImage pg, lightboxCaption pg with
  | Some lb, Some image, Some caption =>
      let st := with_lastFocusedElement (activeElement st) st in
      let st := setAttribute image "src" (JS.toPropertyKey (src_of pg st img)) st in
      let st := setAttribute image "alt" (JS.toPropertyKey (alt_of pg st img)) st in
      let st :=
        setTextContent caption
          (match dataset (elements st img) !! "lightbox" with
           | Some c => if JS.nonEmpty c then c else ""
           | None => ""
           end) st in
      let st := setAttribute lb "aria-hidden" "false" st in
      let st :=
        match lightboxClose pg with
        | Some close => focus close st
        | None => st
        end in
      setStyle (body pg) "overflow" "hidden" st
  | _, _, _ => st
  end.

Definition hideLightbox (pg : Page) (st : State) : State :=
  match lightbox pg with
  | None => st
  | Some lb =>
      let st := setAttribute lb "aria-hidden" "true" st in
      let st := setStyle (body pg) "overflow" "" st in
      let st :=
        match lightboxImage pg with
        | Some image => setAttribute image "alt" "" (setAttribute image "src" "" st)
        | None => st
        end in
      match lastFocusedElement st with
      | Some el => if isHTMLElement (elements st el) then focus el st else st
      | None => st
      end
  end.

(** ** Theme toggle *)

Definition applyTheme (pg : Page) (theme : string) (st : State) : State :=
  let st := setAttribute (documentElement pg) "data-theme" theme st in
  let st := with_localStorage (<["luminaflow-theme" := theme]> (localStorage st)) st in
  match themeIcon pg with
  | Some icon =>
      setTextContent icon (if String.eqb theme "dark" then "🌙" else "☀️") st
  | None => st
  end.

(** The click listener of the theme toggle. *)
Definition onThemeToggleClick (pg : Page) (st : State) : State :=
  let currentTheme :=
    if JS.strictEq (getAttribute "data-theme" (elements st (documentElement pg)))
         (Some "dark")
    then "dark" else "light" in
  let nextTheme := if String.eqb currentTheme "dark" then "light" else "dark" in
  applyTheme pg nextTheme st.

(** The load-time block guarded by [if (themeToggle)]. *)
Definition initTheme (pg : Page) (st : State) : State :=
  match themeToggle pg with
  | Some _ =>
      match getAttribute "data-theme" (elements st (documentElement pg)) with
      | Some initialTheme =>
          applyTheme pg (if JS.nonEmpty initialTheme then initialTheme else "light") st
      | None => applyTheme pg "light" st
      end
  | None => st
  end.

(** ** Smooth scrolling with offset *)

(** [header ? header.offsetHeight : 0] *)
Definition headerHeight (pg : Page) (st : State) : Q :=
  match header pg with
  | Some h => inject_Z (offsetHeight (elements st h))
  | None => 0%Q
  end.

Definition scrollToHash (pg : Page) (hash : string) (st : State)
    : JS.Completion State :=
  match documentQuerySelector pg hash with
  | JS.Throw => JS.Throw
  | JS.Normal None => JS.Normal st
  | JS.Normal (Some target) =>
      let top :=
        (boundingClientTop (elements st target) + scrollY st
         - headerHeight pg st + 1)%Q in
      JS.Normal
        (with_scrollCalls
           (scrollCalls st ++ [(top, if prefersReducedMotion pg then auto_ else smooth)])
           st)
  end.

(** The document's click listener.  [eventTarget] is [event.target] when it
    is an [Element]; the boolean of the result tells whether
    [event.preventDefault()] was called.  [hash.length > 1] is decided on
    the bytes of the string: the selector guarantees that it starts with
    the one-byte character [#]. *)
Definition onDocumentClick (pg : Page) (eventTarget : option node) (st : State)
    : JS.Completion (bool * State) :=
  match eventTarget ≫= closestHashLink pg with
  | Some target =>
      match getAttribute "href" (elements st target) with
      | Some hash =>
          if JS.nonEmpty hash && Nat.ltb 1 (String.length hash) then
            match scrollToHash pg hash st with
            | JS.Normal st' => JS.Normal (true, st')
            | JS.Throw => JS.Throw
            end
          else JS.Normal (false, st)
      | None => JS.Normal (false, st)
      end
  | None => JS.Normal (false, st)
  end.

(** ** Counter animation *)

Definition easing (progress : float) : float :=
  if PrimFloat.ltb progress 0.5 then (2 * progress * progress)%float
  else (-1 + (4 - 2 * progress) * progress)%float.

(** [progress] of a frame. *)
Definition progressAt (startTime currentTime : float) : float :=
  Double.min ((currentTime - startTime) / 1600)%float 1%float.

(** The frame callback [step]; the boolean tells whether it asked for
    another frame. *)
Definition counterStep (pg : Page) (el : node) (target start startTime : float)
    (currentTime : float) (st : State) : State * bool :=
  let progress := progressAt startTime currentTime in
  let eased := easing progress in
  let value := Double.floor (start + (target - start) * eased)%float in
  let st := setTextContent el (toLocaleString pg value) st in
  if PrimFloat.ltb progress 1 && negb (prefersReducedMotion pg) then (st, true)
  else (setTextContent el (toLocaleString pg target) st, false).

(** The browser delivers the frames, each with its time stamp, as long as
    the callback asks for another one. *)
Fixpoint runFrames (step : float -> State -> State * bool) (frames : list float)
    (st : State) : State :=
  match frames with
  | [] => st
  | currentTime :: rest =>
      let '(st', again) := step currentTime st in
      if again then runFrames step rest st' else st'
  end.

(** [Number(el.dataset.target || 0)] *)
Definition counterTarget (pg : Page) (e : Element) : float :=
  match dataset e !! "target" with
  | Some s => if JS.nonEmpty s then Number_of_string pg s else 0%float
  | None => 0%float
  end.

(** [animateCounter(el)], with [startTime] the value of [performance.now()]
    and [frames] the time stamps of the animation frames that follow. *)
Definition animateCounter (pg : Page) (el : node) (startTime : float)
    (frames : list float) (st : State) : State :=
  let target := counterTarget pg (elements st el) in
  let start := if prefersReducedMotion pg then target else 0%float in
  if prefersReducedMotion pg then
    setTextContent el (toLocaleString pg target) st
  else runFrames (counterStep pg el target start startTime) frames st.

(** ** Contact form *)

Definition setFieldError (pg : Page) (field : node) (message : string)
    (st : State) : State :=
  match closest pg field ".form-field" with
  | None => st
  | Some container =>
      match querySelector pg container ".field-error" with
      | Some errorEl => setTextContent errorEl message st
      | None => st
      end
  end.

Definition validateField (pg : Page) (field : node) (st : State) : State * bool :=
  let v := validity (elements st field) in
  if valid v then (setFieldError pg field "" st, true)
  else if valueMissing v then
    (setFieldError pg field "This field is required." st, false)
  else if typeMismatch v then
    (setFieldError pg field "Please enter a valid value." st, false)
  else (setFieldError pg field "Please correct this field." st, false).

(** White space.  The characters that [trim] and [parseInt] skip are the
    white space and the line terminators of ECMAScript: U+0009 to U+000D,
    U+0020, U+00A0, U+1680, U+2000 to U+200A, U+2028, U+2029, U+202F,
    U+205F, U+3000 and U+FEFF.  In UTF-8 they take one, two or three
    bytes. *)
Definition isSpace1 (a : Ascii.ascii) : bool :=
  let x := Ascii.N_of_ascii a in
  ((9 <=? x) && (x <=? 13) || (x =? 32))%N.

Definition isSpace2 (a b : Ascii.ascii) : bool :=
  ((Ascii.N_of_ascii a =? 0xC2) && (Ascii.N_of_ascii b =? 0xA0))%N.

Definition isSpace3 (a b c : Ascii.ascii) : bool :=
  let x := Ascii.N_of_ascii a in
  let y := Ascii.N_of_ascii b in
  let z := Ascii.N_of_ascii c in
  ((x =? 0xE1) && (y =? 0x9A) && (z =? 0x80)
   || (x =? 0xE2) && (y =? 0x80)
      && ((0x80 <=? z) && (z <=? 0x8A) || (z =? 0xA8) || (z =? 0xA9) || (z =? 0xAF))
   || (x =? 0xE2) && (y =? 0x81) && (z =? 0x9F)
   || (x =? 0xE3) && (y =? 0x80) && (z =? 0x80)
   || (x =? 0xEF) && (y =? 0xBB) && (z =? 0xBF))%N.

(** [s.trimStart()] *)
Fixpoint trimStart (s : string) : string :=
  match s with
  | String a s1 =>
      if isSpace1 a then trimStart s1
      else
        match s1 with
        | String b s2 =>
            if isSpace2 a b then trimStart s2
            else
              match s2 with
              | String c s3 => if isSpace3 a b c then trimStart s3 else s
              | EmptyString => s
              end
        | EmptyString => s
        end
  | EmptyString => s
  end.

(** [trimEnd] on the reversed bytes: the last byte comes first. *)
Fixpoint trimStartRev (s : string) : string :=
  match s with
  | String c s1 =>
      if isSpace1 c then trimStartRev s1
      else
        match s1 with
        | String b s2 =>
            if isSpace2 b c then trimStartRev s2
            else
              match s2 with
              | String a s3 => if isSpace3 a b c then trimStartRev s3 else s
              | EmptyString => s
              end
        | EmptyString => s
        end
  | EmptyString => s
  end.

(** [s.trimEnd()] and [s.trim()] *)
Definition trimEnd (s : string) : string :=
  String.rev (trimStartRev (String.rev s)).

Definition trim (s : string) : string := trimEnd (trimStart s).

(** [a < b] on the rationals. *)
Definition Qltb (a b : Q) : bool := negb (Qle_bool b a).

(** What the network does with the request: it answers after some
    milliseconds with a status that is 2xx or not, it fails after some
    milliseconds, or it never settles. *)
Inductive FetchBehaviour : Type :=
| Responds (after : N) (ok : bool)
| Fails (after : N)
| Hangs.

(** How [await fetch(...)] ends: with a response, or with an exception. *)
Inductive Settlement : Type :=
| Fulfilled (ok : bool)
| Rejected.

(** The request races against the timer that aborts it after 1500 ms.  The
    result is the time the [await] took and how it ended. *)
Definition awaitFetch (net : FetchBehaviour) : N * Settlement :=
  match net with
  | Responds after ok =>
      if (after <? 1500)%N then (after, Fulfilled ok) else (1500%N, Rejected)
  | Fails after =>
      if (after <? 1500)%N then (after, Rejected) else (1500%N, Rejected)
  | Hangs => (1500%N, Rejected)
  end.

(** [contactForm.reset()]: every control takes its default value again. *)
Definition resetForm (pg : Page) (st : State) : State :=
  JS.forEach (fun field st =>
    update field (fun e => with_value (defaultValue e) e) st) (fields pg) st.

(** The callback of the first loop of the submit listener, with the state
    and [isValid] threaded through. *)
Definition validateStep (pg : Page) (field : node) (acc : State * bool)
    : State * bool :=
  let '(st, isValid) := acc in
  let '(st, ok) := validateField pg field st in
  (st, if ok then isValid else false).

(** The first loop of the submit listener. *)
Definition validateAll (pg : Page) (st : State) : State * bool :=
  JS.forEach (validateStep pg) (fields pg) (st, true).

(** The last loop of the submit listener. *)
Definition clearFieldErrors (pg : Page) (st : State) : State :=
  JS.forEach (fun field st => setFieldError pg field "" st) (fields pg) st.

Definition sleep (ms : N) (st : State) : State :=
  with_clock (clock st + ms)%N st.

(** The [try]/[catch] block of the submit listener: the request is awaited;
    if the [await] raises, the listener waits 600 ms and draws the result.
    [random] is the value [Math.random()] returns if it is called.  The
    result is the state when the block is left and the value of [success]. *)
Definition tryFetch (net : FetchBehaviour) (random : Q) (st : State) : State * bool :=
  let '(took, settled) := awaitFetch net in
  let st := sleep took st in
  match settled with
  | Fulfilled ok => (st, ok)
  | Rejected => (sleep 600 st, Qltb 0.3 random)
  end.

(** The submit listener. *)
Definition onSubmit (pg : Page) (net : FetchBehaviour) (random : Q)
    (st : State) : State :=
  let '(st, isValid) := validateAll pg st in
  if negb isValid then st
  else
    let formData :=
      {| fd_name := trim (value (elements st (nameControl pg)));
         fd_email := trim (value (elements st (emailControl pg)));
         fd_message := trim (value (elements st (messageControl pg))) |} in
    let st :=
      match statusEl pg with
      | Some status => setTextContent status "Sending…" st
      | None => st
      end in
    let st := with_fetchCalls (fetchCalls st ++ [mkRequest "/api/contact" formData]) st in
    let '(st, success) := tryFetch net random st in
    match statusEl pg with
    | Some status =>
        if success then
          let st :=
            setTextContent status
              "Message sent! We will reach out shortly. (Demo response)" st in
          let st := resetForm pg st in
          clearFieldErrors pg st
        else
          setTextContent status
            "Something went wrong. Please try again later. (Demo response)" st
    | None => st
    end.

(** ** A sample page

    A page with every widget of the script, for evaluating the handlers.
    Node numbers: 0 the root element, 1 the body, 2 the header, 3 and 4 the
    theme toggle and its icon; 10 and 11 the billing buttons; 20, 30, 40 the
    pricing cards (30 has no call to action, the amount and link of 40 have
    monthly data only); 50, 52, 54 the accordion triggers with panels 51,
    53, 55; 60 to 63 the lightbox, 64 a gallery image, 65 an SVG element;
    70 to 72 the form fields, 79 the status region; 80 a counter; 90 a link
    to the section 91. *)

Module Sample.

Definition blank : Element :=
  {| isHTMLElement := true; focusable := false; classList := ∅;
     attributes := ∅; dataset := ∅; style := ∅; textContent := "";
     value := ""; defaultValue := ""; required := false;
     typeMismatches := fun _ => false; violatesOther := fun _ => false;
     scrollHeight := 0; offsetHeight := 0; boundingClientTop := 0 |}.

(** An element with data attributes and a text. *)
Definition dataEl (d : gmap string string) (t : string) : Element :=
  {| isHTMLElement := true; focusable := false; classList := ∅;
     attributes := ∅; dataset := d; style := ∅; textContent := t;
     value := ""; defaultValue := ""; required := false;
     typeMismatches := fun _ => false; violatesOther := fun _ => false;
     scrollHeight := 0; offsetHeight := 0; boundingClientTop := 0 |}.

(** A focusable element with attributes, measures and data. *)
Definition widget (html : bool) (a d : gmap string string) (h : Z) (top : Q)
    : Element :=
  {| isHTMLElement := html; focusable := true; classList := ∅;
     attributes := a; dataset := d; style := ∅; textContent := "";
     value := ""; defaultValue := ""; required := false;
     typeMismatches := fun _ => false; violatesOther := fun _ => false;
     scrollHeight := h; offsetHeight := h; boundingClientTop := top |}.

(** A form control. *)
Definition control (v : string) (req : bool) (tm : string -> bool) : Element :=
  {| isHTMLElement := true; focusable := true; classList := ∅;
     attributes := ∅; dataset := ∅; style := ∅; textContent := "";
     value := v; defaultValue := ""; required := req;
     typeMismatches := tm; violatesOther := fun _ => false;
     scrollHeight := 0; offsetHeight := 0; boundingClientTop := 0 |}.

Definition nodes (name email : string) (k : node) : Element :=
  match k with
  | 2 => widget true ∅ ∅ 72 0
  | 3 => widget true ∅ ∅ 0 0
  | 10 => widget true ∅ {["billing" := "monthly"]} 0 0
  | 11 => widget true ∅ {["billing" := "yearly"]} 0 0
  | 21 => dataEl {["monthly" := "29"; "yearly" := "24"]} "29"
  | 22 => widget true {["href" := "/signup?plan=pro"]}
            {["monthlyLink" := "/signup?plan=pro&cycle=m";
              "yearlyLink" := "/signup?plan=pro&cycle=y"]} 0 0
  | 31 => dataEl {["monthly" := "59"; "yearly" := "49"]} "59"
  | 41 => dataEl {["monthly" := "9"]} "9"
  | 42 => widget true {["href" := "/signup?plan=lite"]}
            {["monthlyLink" := "/signup?plan=lite"]} 0 0
  | 23 | 43 => dataEl ∅ "/mo"
  | 50 => widget true {["id" := "faq-1"; "aria-controls" := "panel-1";
                        "aria-expanded" := "true"]} ∅ 0 0
  | 52 => widget true {["id" := "faq-2"; "aria-controls" := "panel-2";
                        "aria-expanded" := "true"]} ∅ 0 0
  | 54 => widget true {["id" := "faq-3"; "aria-controls" := "panel-3"]} ∅ 0 0
  | 51 => widget true {["id" := "panel-1"]} ∅ 120 0
  | 53 => widget true {["id" := "panel-2"]} ∅ 96 0
  | 55 => widget true {["id" := "panel-3"]} ∅ 240 0
  | 60 => widget true {["aria-hidden" := "true"]} ∅ 0 0
  | 63 => widget true ∅ ∅ 0 0
  | 64 => widget true {["src" := "assets/flow.svg"; "alt" := "Flow editor"]}
            {["lightbox" := "The flow editor"]} 0 0
  | 65 => widget false ∅ ∅ 0 0
  | 70 => control name true (fun _ => false)
  | 71 => control email true (fun v => String.eqb v "nobody")
  | 72 => control "Hello" false (fun _ => false)
  | 80 => dataEl {["target" := "1200"]} "0"
  | 90 => widget true {["href" := "#pricing"]} ∅ 0 0
  | 91 => widget true {["id" := "pricing"]} ∅ 0 640
  | _ => blank
  end.

(** The state at load time; [name] and [email] are what the visitor typed
    into the first two form fields, [theme] the theme attribute of the
    markup, [focused] the element that has the focus. *)
Definition state (name email : string) (theme : option string)
    (focused : option node) : State :=
  {| elements := fun k =>
       match k, theme with
       | 0, Some t => widget true {["data-theme" := t]} ∅ 0 0
       | _, _ => nodes name email k
       end;
     activeElement := focused; localStorage := ∅;
     openAccordionId := None; lastFocusedElement := None;
     scrollY := 300; scrollCalls := []; fetchCalls := []; clock := 0 |}.

Definition page (status : option node) : Page :=
  {| prefersReducedMotion := false;
     header := Some 2; themeToggle := Some 3; themeIcon := Some 4;
     documentElement := 0; body := 1;
     billingButtons := [10; 11];
     pricingCards := [20; 30; 40];
     cycleSuffix := [23; 43];
     accordionTriggers := [50; 52; 54];
     lightbox := Some 60; lightboxImage := Some 61;
     lightboxCaption := Some 62; lightboxClose := Some 63;
     statusEl := status; fields := [70; 71; 72];
     nameControl := 70; emailControl := 71; messageControl := 72;
     querySelector := fun n sel =>
       match n, sel with
       | 20, ".amount" => Some 21 | 20, ".plan-cta" => Some 22
       | 30, ".amount" => Some 31
       | 40, ".amount" => Some 41 | 40, ".plan-cta" => Some 42
       | 73, ".field-error" => Some 76
       | 74, ".field-error" => Some 77
       | 75, ".field-error" => Some 78
       | _, _ => None
       end;
     closest := fun n sel =>
       match n, sel with
       | 70, ".form-field" => Some 73
       | 71, ".form-field" => Some 74
       | 72, ".form-field" => Some 75
       | _, _ => None
       end;
     closestHashLink := fun n => match n with 90 => Some 90 | _ => None end;
     documentQuerySelector := fun sel =>
       match sel with
       | "#pricing" => JS.Normal (Some 91)
       | "#2024" => JS.Throw
       | _ => JS.Normal None
       end;
     getElementById := fun i =>
       match i with
       | "panel-1" => Some 51 | "panel-2" => Some 53 | "panel-3" => Some 55
       | "pricing" => Some 91
       | _ => None
       end;
     Number_of_string := fun s =>
       match s with "1200" => 1200%float | _ => PrimFloat.nan end;
     toLocaleString := fun x =>
       match Double.toZ x with Some n => pretty n | None => "NaN" end;
     builtinText := fun key =>
       match key with
       | "constructor" => "function DOMStringMap() { [native code] }"
       | "__proto__" => "[object DOMStringMap]"
       | _ => "function " +:+ key +:+ "() { [native code] }"
       end;
     reflectsSrc := fun n => match n with 61 | 64 => true | _ => false end;
     reflectsAlt := fun n => match n with 61 | 64 => true | _ => false end;
     resolveURL := fun v => "https://luminaflow.example/" +:+ v;
     integerText := fun n => Some (pretty n) |}.

End Sample.

(** ** Notions of the specification *)

(** The position of the top of an element in the document: its position in
    the viewport plus the distance the window is scrolled. *)
Definition documentTop (st : State) (el : node) : Q :=
  (boundingClientTop (elements st el) + scrollY st)%Q.

(** The behaviour every [scrollTo] of the script asks for. *)
Definition scrollBehavior (pg : Page) : ScrollBehavior :=
  if prefersReducedMotion pg then auto_ else smooth.

(** The error slot of a field: the element [setFieldError] writes to. *)
Definition errorSlot (pg : Page) (field : node) : option node :=
  match closest pg field ".form-field" with
  | Some container => querySelector pg container ".field-error"
  | None => None
  end.

(** What a form control holds and what the browser validates it against. *)
Definition controlOf (e : Element)
    : string * string * bool * (string -> bool) * (string -> bool) :=
  (value e, defaultValue e, required e, typeMismatches e, violatesOther e).

(** The form controls of two states agree. *)
Definition sameControls (s st : State) : Prop :=
  forall k, controlOf (elements s k) = controlOf (elements st k).

(** The request fails, or the timer aborts it after 1500 ms. *)
Definition failsOrTimesOut (net : FetchBehaviour) : Prop :=
  match net with
  | Responds after _ => (1500 <= after)%N
  | Fails _ => True
  | Hangs => True
  end.

(** ** Accordion invariants *)

(** A panel has a non-zero max-height. *)
Definition panelOpen (st : State) (panel : node) : bool :=
  match style (elements st panel) !! "maxHeight" with
  | Some h => negb (String.eqb h "0px")
  | None => false
  end.

Definition atMostOneExpanded (pg : Page) (st : State) : Prop :=
  forall t1 t2,
    t1 ∈ accordionTriggers pg -> t2 ∈ accordionTriggers pg ->
    isExpanded st t1 = true -> isExpanded st t2 = true -> t1 = t2.

Definition atMostOneOpenPanel (pg : Page) (st : State) : Prop :=
  forall t1 t2 p1 p2,
    t1 ∈ accordionTriggers pg -> t2 ∈ accordionTriggers pg ->
    panelOf pg st t1 = Some p1 -> panelOf pg st t2 = Some p2 ->
    panelOpen st p1 = true -> panelOpen st p2 = true -> p1 = p2.

(** ** Statements of the specification that the script does not satisfy
    in general *)

(** "After [updatePricing('yearly')] every card's displayed amount equals
    that card's yearly-price attribute." *)
Definition shows_yearly_price (pg : Page) (st : State) : Prop :=
  forall card amountEl price,
    card ∈ pricingCards pg ->
    querySelector pg card ".amount" = Some amountEl ->
    dataset (elements st amountEl) !! "yearly" = Some price ->
    textContent (elements (updatePricing pg (Some "yearly") st) amountEl) = price.

(** "Opening then closing the lightbox restores focus to the exact element
    focused immediately before opening." *)
Definition restores_focus (pg : Page) (img : node) (st : State) : Prop :=
  forall el,
    activeElement st = Some el ->
    activeElement (hideLightbox pg (openLightbox pg img st)) = Some el.

(** "Initial state resolved from any pre-existing theme attribute,
    defaulting to light": the theme applied at load is the attribute when
    there is one, "light" otherwise. *)
Definition initial_theme_is_attribute (pg : Page) (st : State) : Prop :=
  getAttribute "data-theme" (elements (initTheme pg st) (documentElement pg))
  = Some (default "light"
            (getAttribute "data-theme" (elements st (documentElement pg)))).

(** "On success: resets form fields", for the simulated success after a
    failed request. *)
Definition success_resets_fields (pg : Page) (net : FetchBehaviour) (random : Q)
    (st : State) : Prop :=
  failsOrTimesOut net -> (3 # 10 < random)%Q ->
  forall field,
    field ∈ fields pg ->
    value (elements (onSubmit pg net random st) field)
    = defaultValue (elements st field).

(** ** Navigation, keyboard and observer handlers

    The handlers of [script.js] that the sections above leave out.  What
    they need from the page beyond [Page] is gathered in [Chrome]. *)

Record Chrome : Type := mkChrome {
  navToggle : option node;
  mobileMenu : option node;
  (** [mobileMenu.querySelectorAll(focusableSelectors)], in document order *)
  menuFocusable : list node;
  animatedElements : list node;
}.

(** [el.classList.add(c)], [el.classList.remove(c)], [el.classList.toggle(c)] *)
Definition classList_add (n : node) (c : string) : State -> State :=
  update n (fun e => with_classList ({[c]} ∪ classList e) e).

Definition classList_remove (n : node) (c : string) : State -> State :=
  update n (fun e => with_classList (classList e ∖ {[c]}) e).

Definition classList_flip (n : node) (c : string) (st : State) : State :=
  classList_toggle n c (negb (contains c (elements st n))) st.

(** *** Mobile menu *)

Definition closeMobileMenu (nav : Chrome) (st : State) : State :=
  match mobileMenu nav with
  | None => st
  | Some menu =>
      let st := classList_remove menu "is-open" st in
      match navToggle nav with
      | Some toggle =>
          let st := setAttribute toggle "aria-expanded" "false" st in
          classList_remove toggle "is-active" st
      | None => st
      end
  end.

(** The click listener of the navigation toggle; it is attached only when
    the toggle and the menu both exist. *)
Definition onNavToggleClick (nav : Chrome) (st : State) : State :=
  match navToggle nav, mobileMenu nav with
  | Some toggle, Some menu =>
      let isOpen :=
        JS.strictEq (getAttribute "aria-expanded" (elements st toggle)) (Some "true") in
      let st := setAttribute toggle "aria-expanded" (JS.String_of_bool (negb isOpen)) st in
      let st := classList_flip toggle "is-active" st in
      classList_flip menu "is-open" st
  | _, _ => st
  end.

(** The click listener of the menu; [onAnchor] tells whether [event.target]
    is an [HTMLAnchorElement]. *)
Definition onMobileMenuClick (nav : Chrome) (onAnchor : bool) (st : State) : State :=
  match navToggle nav, mobileMenu nav with
  | Some _, Some _ => if onAnchor then closeMobileMenu nav st else st
  | _, _ => st
  end.

(** [document.activeElement === el] *)
Definition activeIs (st : State) (el : node) : bool :=
  match activeElement st with
  | Some a => Nat.eqb a el
  | None => false
  end.

(** The focus trap: the [keydown] listener of the document that is attached
    when the menu and the toggle exist.  The boolean of the result tells
    whether [event.preventDefault()] was called. *)
Definition onTrapKeydown (nav : Chrome) (key : string) (shiftKey : bool)
    (st : State) : bool * State :=
  match mobileMenu nav, navToggle nav with
  | Some menu, Some _ =>
      if negb (String.eqb key "Tab") then (false, st)
      else if negb (contains "is-open" (elements st menu)) then (false, st)
      else
        match menuFocusable nav with
        | [] => (false, st)
        | first :: rest =>
            let last := List.last rest first in
            if shiftKey && activeIs st first then (true, focus last st)
            else if negb shiftKey && activeIs st last then (true, focus first st)
            else (false, st)
        end
  | _, _ => (false, st)
  end.

(** *** Scroll-triggered reveal *)

(** [parseInt(s, 10)]: leading white space, an optional sign, then the
    longest run of decimal digits.  The result is the integer the digits
    stand for, before it is rounded to a double; [None] is [NaN]. *)
Definition digitValue (c : Ascii.ascii) : option Z :=
  let n := Z.of_nat (Ascii.nat_of_ascii c) in
  if (48 <=? n)%Z && (n <=? 57)%Z then Some (n - 48)%Z else None.

Fixpoint parseDigits (acc : option Z) (s : string) : option Z :=
  match s with
  | String c s' =>
      match digitValue c with
      | Some d => parseDigits (Some (10 * default 0%Z acc + d)%Z) s'
      | None => acc
      end
  | EmptyString => acc
  end.

Definition parseInt10 (s : string) : option Z :=
  match trimStart s with
  | String c s' =>
      if String.eqb (String c "") "-" then Z.opp <$> parseDigits None s'
      else if String.eqb (String c "") "+" then parseDigits None s'
      else parseDigits None (String c s')
  | EmptyString => None
  end.

(** The text of [`${parseInt(delay, 10)}`] when the result is finite: an
    integer up to 2^53 in magnitude is a double and is written with all
    its digits; beyond, the text is that of the rounded double. *)
Definition parsedIntText (pg : Page) (delay : string) : option string :=
  match parseInt10 delay with
  | Some ms =>
      if (Z.abs ms <=? 2 ^ 53)%Z then Some (pretty ms) else integerText pg ms
  | None => None
  end.

(** [el.style.transitionDelay = `${parseInt(delay, 10)}ms`]: the style
    takes a time; ["NaNms"] and ["Infinityms"] are not times and the
    browser drops the assignment. *)
Definition setTransitionDelay (pg : Page) (el : node) (delay : string)
    (st : State) : State :=
  match parsedIntText pg delay with
  | Some text => setStyle el "transitionDelay" (text +:+ "ms") st
  | None => st
  end.

(** The callback of the reveal observer on one entry: the target and
    [entry.isIntersecting].  The state carries the set of elements the
    observer still observes. *)
Definition revealEntry (pg : Page) (entry : node * bool) (acc : State * gset node)
    : State * gset node :=
  let '(el, isIntersecting) := entry in
  let '(st, observed) := acc in
  if isIntersecting then
    let st :=
      match getAttribute "data-animate-delay" (elements st el) with
      | Some delay => if JS.nonEmpty delay then setTransitionDelay pg el delay st else st
      | None => st
      end in
    let st := classList_add el "is-visible" st in
    (st, observed ∖ {[el]})
  else (st, observed).

Definition revealCallback (pg : Page) (entries : list (node * bool))
    (acc : State * gset node) : State * gset node :=
  JS.forEach (revealEntry pg) entries acc.

(** The load-time block: under reduced motion every animated element is
    shown at once and nothing is observed, otherwise every one of them is
    observed. *)
Definition initReveal (pg : Page) (nav : Chrome) (st : State) : State * gset node :=
  match animatedElements nav with
  | [] => (st, ∅)
  | _ =>
      if prefersReducedMotion pg then
        (JS.forEach (fun el st => classList_add el "is-visible" st)
           (animatedElements nav) st, ∅)
      else (st, list_to_set (animatedElements nav))
  end.

(** *** Keyboard navigation of the accordion *)

(** [array.indexOf(x)]: the first position of [x], or -1. *)
Fixpoint indexOf (x : node) (l : list node) : Z :=
  match l with
  | [] => (-1)%Z
  | y :: l' =>
      if Nat.eqb y x then 0%Z
      else let i := indexOf x l' in if (i <? 0)%Z then (-1)%Z else (i + 1)%Z
  end.

(** [array[i].focus()]: raises when there is no element at index [i]. *)
Definition focusAt (l : list node) (i : Z) (st : State) : JS.Completion State :=
  match (if (i <? 0)%Z then None else l !! Z.to_nat i) with
  | Some el => JS.Normal (focus el st)
  | None => JS.Throw
  end.

(** The [keydown] listener of a trigger; [%] is the remainder of the
    division that truncates. *)
Definition onAccordionKeydown (pg : Page) (trigger : node) (key : string)
    (st : State) : JS.Completion (bool * State) :=
  let triggers := accordionTriggers pg in
  let index := indexOf trigger triggers in
  let length := Z.of_nat (List.length triggers) in
  let focused (i : Z) :=
    match focusAt triggers i st with
    | JS.Normal st' => JS.Normal (true, st')
    | JS.Throw => JS.Throw
    end in
  if String.eqb key "ArrowDown" then focused (Z.rem (index + 1) length)
  else if String.eqb key "ArrowUp" then focused (Z.rem (index - 1 + length) length)
  else if String.eqb key "Home" then focused 0%Z
  else if String.eqb key "End" then focused (length - 1)%Z
  else JS.Normal (false, st).

(** *** Closing the lightbox *)

(** The click listener of the overlay. *)
Definition onLightboxClick (pg : Page) (eventTarget : node) (st : State) : State :=
  match lightbox pg with
  | Some lb => if Nat.eqb eventTarget lb then hideLightbox pg st else st
  | None => st
  end.

(** [lightbox?.getAttribute('aria-hidden') === 'false'] *)
Definition lightboxIsOpen (pg : Page) (st : State) : bool :=
  match lightbox pg with
  | Some lb => JS.strictEq (getAttribute "aria-hidden" (elements st lb)) (Some "false")
  | None => false
  end.

(** The [keydown] listener of the document for the lightbox. *)
Definition onDocumentKeydown (pg : Page) (key : string) (st : State) : State :=
  if String.eqb key "Escape" && lightboxIsOpen pg st then hideLightbox pg st else st.

(** The [keydown] listener of a gallery image. *)
Definition onGalleryKeydown (pg : Page) (img : node) (key : string) (st : State)
    : bool * State :=
  if String.eqb key "Enter" || String.eqb key " " then (true, openLightbox pg img st)
  else (false, st).

(** *** Sessions of the theme toggle and of the mobile menu *)

(** [n] clicks on the theme toggle. *)
Fixpoint clickThemeToggle (pg : Page) (n : nat) (st : State) : State :=
  match n with
  | O => st
  | S n' => clickThemeToggle pg n' (onThemeToggleClick pg st)
  end.

(** What a visitor does with the mobile menu. *)
Inductive MenuEvent : Type :=
| ToggleClick
| MenuClick (onAnchor : bool).

Definition menuStep (nav : Chrome) (ev : MenuEvent) (st : State) : State :=
  match ev with
  | ToggleClick => onNavToggleClick nav st
  | MenuClick onAnchor => onMobileMenuClick nav onAnchor st
  end.

(** The three marks of an open menu agree on [open]. *)
Definition menuMarks (nav : Chrome) (st : State) (open : bool) : Prop :=
  forall toggle menu,
    navToggle nav = Some toggle -> mobileMenu nav = Some menu ->
    JS.strictEq (getAttribute "aria-expanded" (elements st toggle)) (Some "true") = open
    /\ contains "is-active" (elements st toggle) = open
    /\ contains "is-open" (elements st menu) = open.

(** The number of toggle clicks in a session since the last click on a
    link of the menu. *)
Fixpoint togglesSinceClose (evs : list MenuEvent) : nat :=
  match evs with
  | [] => 0
  | ToggleClick :: rest => S (togglesSinceClose rest)
  | MenuClick true :: _ => 0
  | MenuClick false :: rest => togglesSinceClose rest
  end.

(** *** More sample data *)

Module Demo.

Definition nav : Chrome :=
  {| navToggle := Some 5; mobileMenu := Some 6;
     menuFocusable := [100; 101; 102];
     animatedElements := [110; 111; 112] |}.

(** The sample state with a menu of three links, the first animated
    element delayed by 150 ms and the second by a word. *)
Definition state (focused : option node) : State :=
  with_elements
    (fun k =>
       match k with
       | 100 | 101 | 102 => Sample.widget true {["href" := "#features"]} ∅ 0 0
       | 110 => Sample.widget true {["data-animate-delay" := "150"]} ∅ 0 0
       | 111 => Sample.widget true {["data-animate-delay" := "soon"]} ∅ 0 0
       | _ => elements (Sample.state "Ada" "ada@example.org" (Some "dark") focused) k
       end)
    (Sample.state "Ada" "ada@example.org" (Some "dark") focused).

End Demo.

(** *** The frames of the counter *)

(** The test of the frame callback on the elapsed share of the duration:
    the animation goes on while [(currentTime - startTime) / 1600] is below
    1, and ends on any other value, NaN included. *)
Definition inFlight (startTime currentTime : float) : bool :=
  PrimFloat.ltb ((currentTime - startTime) / 1600)%float 1%float.

(** *** The request of a submission *)

(** The body the submit listener posts: the trimmed values of the three
    named controls. *)
Definition formDataOf (pg : Page) (st : State) : FormData :=
  {| fd_name := trim (value (elements st (nameControl pg)));
     fd_email := trim (value (elements st (emailControl pg)));
     fd_message := trim (value (elements st (messageControl pg))) |}.

(** The message [validateField] reports for a validity state. *)
Definition validationMessage (v : ValidityState) : string :=
  if valid v then ""
  else if valueMissing v then "This field is required."
  else if typeMismatch v then "Please enter a valid value."
  else "Please correct this field.".

(** *** The theme after some clicks, and the open accordion item *)

(** Whether the theme is dark after [n] clicks on the toggle, when [dark]
    tells whether the attribute was "dark" before. *)
Definition darkAfter (dark : bool) (n : nat) : bool := xorb dark (Nat.odd n).

Definition themeName (dark : bool) : string := if dark then "dark" else "light".

(** [openAccordionId] names the expanded trigger, and is [null] when no
    trigger is expanded. *)
Definition tracksOpenItem (pg : Page) (st : State) : Prop :=
  (forall t, t ∈ accordionTriggers pg -> isExpanded st t = true ->
     openAccordionId st = Some (id_of (elements st t)))
  /\ ((forall t, t ∈ accordionTriggers pg -> isExpanded st t = false) ->
      openAccordionId st = None).

(** *** The link of a cycle *)

(** Whether a string ends with "Link", as the name [`${billing}Link`] under
    which the link of a cycle is read does. *)
Fixpoint endsWithLink (s : string) : bool :=
  match s with
  | EmptyString => false
  | String _ s' => String.eqb s "Link" || endsWithLink s'
  end.
(** * Properties *)

(** ** Loops *)

Section ForEach.
Context {A S : Type} (f : A -> S -> S).

(** A property every callback keeps holds after the loop. *)
Lemma forEach_preserves (I : S -> Prop) (l : list A) (s : S) :
  I s -> (forall x s, x ∈ l -> I s -> I (f x s)) -> I (JS.forEach f l s).
Proof.
  revert s. induction l as [|x l IH]; intros s Hs Hf; simpl; [exact Hs|].
  apply IH.
  - apply Hf; [left | exact Hs].
  - intros y s' Hy. apply Hf. now right.
Qed.

(** A property the callback of one member establishes and every callback
    of a member keeps holds after the loop; [I] is what the callbacks may
    rely on. *)
Lemma forEach_establishes_in (I P : S -> Prop) (x : A) (l : list A) (s : S) :
  x ∈ l -> I s ->
  (forall y s, y ∈ l -> I s -> I (f y s)) ->
  (forall s, I s -> P (f x s)) ->
  (forall y s, y ∈ l -> I s -> P s -> P (f y s)) ->
  P (JS.forEach f l s).
Proof.
  intros Hx Hs HI Hest Hkeep. revert s Hs.
  induction l as [|y l IH]; intros s Hs; [inversion Hx|].
  simpl. apply elem_of_cons in Hx as [->|Hx].
  - apply (forEach_preserves (fun s => I s /\ P s)); [auto using list_elem_of_here|].
    intros z s' Hz [HIs HPs]. auto using list_elem_of_further.
  - apply IH; auto using list_elem_of_here, list_elem_of_further.
Qed.

(** The same, for callbacks that behave so on every argument. *)
Lemma forEach_establishes (I P : S -> Prop) (x : A) (l : list A) (s : S) :
  x ∈ l -> I s ->
  (forall y s, I s -> I (f y s)) ->
  (forall s, I s -> P (f x s)) ->
  (forall y s, I s -> P s -> P (f y s)) ->
  P (JS.forEach f l s).
Proof.
  intros Hx Hs HI Hest Hkeep.
  apply (forEach_establishes_in I P x l s Hx Hs).
  - intros y s' _. apply HI.
  - exact Hest.
  - intros y s' _. apply Hkeep.
Qed.

Lemma forEachStates_preserves (I : S -> Prop) (l : list A) (s : S) :
  I s -> (forall x s, I s -> I (f x s)) -> Forall I (forEachStates f l s).
Proof.
  revert s. induction l as [|x l IH]; intros s Hs Hf; simpl; constructor; auto.
Qed.
End ForEach.

(** ** The store *)

Ltac eqb_cases :=
  repeat match goal with
    | |- context [Nat.eqb ?a ?b] => destruct (Nat.eqb_spec a b); subst
    | H : context [Nat.eqb ?a ?b] |- _ => destruct (Nat.eqb_spec a b); subst
    end.

Lemma textContent_setTextContent n t st k :
  textContent (elements (setTextContent n t st) k)
  = if Nat.eqb k n then t else textContent (elements st k).
Proof. cbn. now destruct (Nat.eqb k n). Qed.

Lemma getAttribute_setAttribute n name v st k a :
  getAttribute a (elements (setAttribute n name v st) k)
  = if Nat.eqb k n && String.eqb a name then Some v
    else getAttribute a (elements st k).
Proof.
  unfold getAttribute. cbn. destruct (Nat.eqb k n); cbn; [|reflexivity].
  destruct (String.eqb_spec a name) as [->|Hne].
  - apply lookup_insert_eq.
  - now apply lookup_insert_ne.
Qed.

Lemma style_setStyle n prop v st k p :
  style (elements (setStyle n prop v st) k) !! p
  = if Nat.eqb k n && String.eqb p prop then Some v
    else style (elements st k) !! p.
Proof.
  cbn. destruct (Nat.eqb k n); cbn; [|reflexivity].
  destruct (String.eqb_spec p prop) as [->|Hne].
  - apply lookup_insert_eq.
  - now apply lookup_insert_ne.
Qed.

Lemma getAttribute_setTextContent n t st k a :
  getAttribute a (elements (setTextContent n t st) k) = getAttribute a (elements st k).
Proof. unfold getAttribute. cbn. now destruct (Nat.eqb k n). Qed.

Lemma textContent_setAttribute n name v st k :
  textContent (elements (setAttribute n name v st) k) = textContent (elements st k).
Proof. cbn. now destruct (Nat.eqb k n). Qed.

Lemma textContent_setStyle n prop v st k :
  textContent (elements (setStyle n prop v st) k) = textContent (elements st k).
Proof. cbn. now destruct (Nat.eqb k n). Qed.

Lemma nonEmpty_true s : JS.nonEmpty s = true <-> s <> "".
Proof.
  unfold JS.nonEmpty. destruct (String.eqb_spec s ""); simpl; split; intros; congruence.
Qed.

Lemma strictEq_true a b : JS.strictEq a b = true <-> a = b.
Proof.
  destruct a as [x|], b as [y|]; simpl; try (split; congruence).
  rewrite String.eqb_eq. split; congruence.
Qed.

(** ** Values read from [el.dataset] *)

Lemma datasetGet_own pg e key s :
  dataset e !! key = Some s -> datasetGet pg e key = JS.VString s.
Proof. unfold datasetGet. now intros ->. Qed.

Lemma datasetGet_ext pg e e' key :
  dataset e = dataset e' -> datasetGet pg e key = datasetGet pg e' key.
Proof. unfold datasetGet. now intros ->. Qed.

(** Under a name that objects do not inherit, the value is truthy exactly
    when there is a data attribute of that name that is not empty. *)
Lemma truthy_datasetGet pg e key :
  JS.inherited key = false ->
  JS.truthyValue (datasetGet pg e key) = JS.truthy (dataset e !! key).
Proof.
  intros Hk. unfold datasetGet. destruct (dataset e !! key); [reflexivity|].
  now rewrite Hk.
Qed.

(** Under an inherited name an element without the data attribute yields
    the built-in, which is truthy. *)
Lemma datasetGet_inherited pg e key :
  JS.inherited key = true -> dataset e !! key = None ->
  datasetGet pg e key = JS.VBuiltin (builtinText pg key).
Proof. unfold datasetGet. now intros -> ->. Qed.

Lemma endsWithLink_app key : endsWithLink (key +:+ "Link") = true.
Proof.
  induction key as [|c key IH]; [reflexivity|].
  change (String c key +:+ "Link") with (String c (key +:+ "Link")).
  cbn [endsWithLink]. rewrite IH. apply orb_true_r.
Qed.

(** No inherited name ends with "Link": the link of a cycle is always read
    from the data attributes. *)
Lemma inherited_link key : JS.inherited (key +:+ "Link") = false.
Proof.
  unfold JS.inherited. apply bool_decide_eq_false. intros Hin.
  pose proof (endsWithLink_app key) as Hend.
  unfold JS.objectPrototypeKeys in Hin.
  repeat (apply elem_of_cons in Hin as [Hin|Hin];
          [rewrite Hin in Hend; vm_compute in Hend; discriminate Hend|]).
  inversion Hin.
Qed.

(** ** Pricing toggle *)

Section Pricing.
Context (pg : Page) (billing : option string).

Local Abbreviation priceKey := (JS.toPropertyKey billing).
Local Abbreviation linkKey := (linkAttr billing).

(** No loop of [updatePricing] writes a data attribute. *)
Lemma pricingButton_dataset btn st k :
  dataset (elements (pricingButton billing btn st) k) = dataset (elements st k).
Proof. cbn. now destruct (Nat.eqb k btn). Qed.

Lemma pricingCard_dataset card st k :
  dataset (elements (pricingCard pg billing card st) k) = dataset (elements st k).
Proof.
  unfold pricingCard.
  destruct (querySelector pg card ".amount") as [a|]; [|reflexivity].
  destruct (querySelector pg card ".plan-cta") as [c|]; [|reflexivity].
  repeat match goal with
    | |- context [if JS.truthyValue ?v then _ else _] => destruct (JS.truthyValue v)
    end; cbn; eqb_cases; reflexivity.
Qed.

Lemma pricingSuffix_dataset suffix st k :
  dataset (elements (pricingSuffix billing suffix st) k) = dataset (elements st k).
Proof. cbn. now destruct (Nat.eqb k suffix). Qed.

(** The button loop writes classes and [aria-pressed] only. *)
Lemma pricingButton_textContent btn st k :
  textContent (elements (pricingButton billing btn st) k) = textContent (elements st k).
Proof. cbn. now destruct (Nat.eqb k btn). Qed.

Lemma pricingButton_href btn st k :
  getAttribute "href" (elements (pricingButton billing btn st) k)
  = getAttribute "href" (elements st k).
Proof.
  unfold pricingButton. rewrite getAttribute_setAttribute.
  rewrite andb_false_r. cbn. now destruct (Nat.eqb k btn).
Qed.

(** The suffix loop writes text only, on the suffix elements only. *)
Lemma pricingSuffix_attributes suffix st k :
  attributes (elements (pricingSuffix billing suffix st) k) = attributes (elements st k).
Proof. cbn. now destruct (Nat.eqb k suffix). Qed.

Lemma pricingSuffix_classList suffix st k :
  classList (elements (pricingSuffix billing suffix st) k) = classList (elements st k).
Proof. cbn. now destruct (Nat.eqb k suffix). Qed.

Lemma pricingCard_classList card st k :
  classList (elements (pricingCard pg billing card st) k) = classList (elements st k).
Proof.
  unfold pricingCard.
  destruct (querySelector pg card ".amount") as [a|]; [|reflexivity].
  destruct (querySelector pg card ".plan-cta") as [c|]; [|reflexivity].
  repeat match goal with
    | |- context [if JS.truthyValue ?v then _ else _] => destruct (JS.truthyValue v)
    end; cbn; eqb_cases; reflexivity.
Qed.

Lemma suffixLoop_other l st k :
  k ∉ l ->
  textContent (elements (JS.forEach (pricingSuffix billing) l st) k)
  = textContent (elements st k).
Proof.
  revert st. induction l as [|s l IH]; intros st Hk; [reflexivity|].
  simpl. rewrite IH by set_solver.
  unfold pricingSuffix. rewrite textContent_setTextContent.
  destruct (Nat.eqb_spec k s); [set_solver | reflexivity].
Qed.

Lemma suffixLoop_member l st k :
  k ∈ l ->
  textContent (elements (JS.forEach (pricingSuffix billing) l st) k)
  = cycleLabel billing.
Proof.
  intros Hk.
  apply (forEach_establishes (pricingSuffix billing) (fun _ => True)
           (fun s => textContent (elements s k) = cycleLabel billing) k); auto.
  - intros s _. unfold pricingSuffix. rewrite textContent_setTextContent.
    now rewrite Nat.eqb_refl.
  - intros y s _ Hs. unfold pricingSuffix. rewrite textContent_setTextContent.
    now destruct (Nat.eqb k y).
Qed.

(** The call to action of a card is read after the amount is written: the
    write changes no data attribute. *)
Lemma pricingCard_unfold card st :
  pricingCard pg billing card st
  = match querySelector pg card ".amount", querySelector pg card ".plan-cta" with
    | Some amountEl, Some cta =>
        let price := datasetGet pg (elements st amountEl) priceKey in
        let href := datasetGet pg (elements st cta) linkKey in
        let st1 :=
          if JS.truthyValue price
          then setTextContent amountEl (JS.toString price) st else st in
        if JS.truthyValue href then setAttribute cta "href" (JS.toString href) st1
        else st1
    | _, _ => st
    end.
Proof.
  unfold pricingCard.
  destruct (querySelector pg card ".amount") as [a|]; [|reflexivity].
  destruct (querySelector pg card ".plan-cta") as [c|]; [|reflexivity].
  cbv zeta.
  assert (Hd : datasetGet pg
                 (elements
                    (if JS.truthyValue (datasetGet pg (elements st a) priceKey)
                     then setTextContent a
                            (JS.toString (datasetGet pg (elements st a) priceKey)) st
                     else st) c) linkKey
               = datasetGet pg (elements st c) linkKey).
  { apply datasetGet_ext.
    destruct (JS.truthyValue _); [|reflexivity]. cbn. now destruct (Nat.eqb c a). }
  now rewrite Hd.
Qed.

(** What the callback of one card does to the text of an element. *)
Lemma pricingCard_textContent card st k :
  textContent (elements (pricingCard pg billing card st) k)
  = match querySelector pg card ".amount", querySelector pg card ".plan-cta" with
    | Some amountEl, Some _ =>
        let price := datasetGet pg (elements st amountEl) priceKey in
        if JS.truthyValue price && Nat.eqb k amountEl then JS.toString price
        else textContent (elements st k)
    | _, _ => textContent (elements st k)
    end.
Proof.
  rewrite pricingCard_unfold.
  destruct (querySelector pg card ".amount") as [a|]; [|reflexivity].
  destruct (querySelector pg card ".plan-cta") as [c|]; [|reflexivity].
  cbv zeta.
  destruct (JS.truthyValue (datasetGet pg (elements st c) linkKey));
    destruct (JS.truthyValue (datasetGet pg (elements st a) priceKey));
    rewrite ?textContent_setAttribute, ?textContent_setTextContent;
    cbn [andb]; reflexivity.
Qed.

(** What the callback of one card does to the [href] of an element. *)
Lemma pricingCard_href card st k :
  getAttribute "href" (elements (pricingCard pg billing card st) k)
  = match querySelector pg card ".amount", querySelector pg card ".plan-cta" with
    | Some _, Some cta =>
        let href := datasetGet pg (elements st cta) linkKey in
        if JS.truthyValue href && Nat.eqb k cta then Some (JS.toString href)
        else getAttribute "href" (elements st k)
    | _, _ => getAttribute "href" (elements st k)
    end.
Proof.
  rewrite pricingCard_unfold.
  destruct (querySelector pg card ".amount") as [a|]; [|reflexivity].
  destruct (querySelector pg card ".plan-cta") as [c|]; [|reflexivity].
  cbv zeta.
  destruct (JS.truthyValue (datasetGet pg (elements st c) linkKey));
    destruct (JS.truthyValue (datasetGet pg (elements st a) priceKey));
    rewrite ?getAttribute_setAttribute, ?getAttribute_setTextContent;
    cbn [andb]; rewrite ?andb_true_r; reflexivity.
Qed.
End Pricing.

Section PricingLoops.
Context (pg : Page) (billing : option string).

Local Abbreviation priceKey := (JS.toPropertyKey billing).
Local Abbreviation linkKey := (linkAttr billing).

Lemma updatePricing_dataset st k :
  dataset (elements (updatePricing pg billing st) k) = dataset (elements st k).
Proof.
  unfold updatePricing.
  apply (forEach_preserves _
           (fun s => dataset (elements s k) = dataset (elements st k))).
  - apply (forEach_preserves _
             (fun s => dataset (elements s k) = dataset (elements st k))).
    + apply (forEach_preserves _
               (fun s => dataset (elements s k) = dataset (elements st k))); [reflexivity|].
      intros x s _ Hs. now rewrite pricingButton_dataset.
    + intros x s _ Hs. now rewrite pricingCard_dataset.
  - intros x s _ Hs. now rewrite pricingSuffix_dataset.
Qed.

Lemma buttonLoop_frame l st :
  let st' := JS.forEach (pricingButton billing) l st in
  forall k,
    dataset (elements st' k) = dataset (elements st k)
    /\ textContent (elements st' k) = textContent (elements st k)
    /\ getAttribute "href" (elements st' k) = getAttribute "href" (elements st k).
Proof.
  intros st' k. unfold st'.
  apply (forEach_preserves _
           (fun s => dataset (elements s k) = dataset (elements st k)
                     /\ textContent (elements s k) = textContent (elements st k)
                     /\ getAttribute "href" (elements s k)
                        = getAttribute "href" (elements st k))); [auto|].
  intros x s _ (H1 & H2 & H3).
  now rewrite pricingButton_dataset, pricingButton_textContent, pricingButton_href.
Qed.

Lemma cardLoop_dataset l st k :
  dataset (elements (JS.forEach (pricingCard pg billing) l st) k)
  = dataset (elements st k).
Proof.
  apply (forEach_preserves _
           (fun s => dataset (elements s k) = dataset (elements st k))); [reflexivity|].
  intros x s _ Hs. now rewrite pricingCard_dataset.
Qed.

(** The card loop shows, in the amount of every complete card, the value
    read under the cycle when that value is truthy. *)
Lemma cardLoop_amount l st card amountEl cta :
  card ∈ l ->
  querySelector pg card ".amount" = Some amountEl ->
  querySelector pg card ".plan-cta" = Some cta ->
  JS.truthyValue (datasetGet pg (elements st amountEl) priceKey) = true ->
  textContent (elements (JS.forEach (pricingCard pg billing) l st) amountEl)
  = JS.toString (datasetGet pg (elements st amountEl) priceKey).
Proof.
  intros Hin Ha Hc Hp.
  apply (forEach_establishes (pricingCard pg billing)
           (fun s => forall n, dataset (elements s n) = dataset (elements st n))
           (fun s => textContent (elements s amountEl)
                     = JS.toString (datasetGet pg (elements st amountEl) priceKey))
           card); auto.
  - intros y s Hs n. now rewrite pricingCard_dataset.
  - intros s Hs. rewrite pricingCard_textContent, Ha, Hc. cbv zeta.
    rewrite (datasetGet_ext pg _ (elements st amountEl)) by apply Hs.
    now rewrite Hp, Nat.eqb_refl.
  - intros y s Hs Ht. rewrite pricingCard_textContent.
    destruct (querySelector pg y ".amount") as [a'|]; [|exact Ht].
    destruct (querySelector pg y ".plan-cta") as [c'|]; [|exact Ht].
    cbv zeta.
    destruct (JS.truthyValue (datasetGet pg (elements s a') priceKey)); [|exact Ht].
    cbn [andb]. destruct (Nat.eqb_spec amountEl a') as [<-|]; [|exact Ht].
    f_equal. apply datasetGet_ext, Hs.
Qed.

(** The card loop points the link of every complete card to the value read
    under the link of the cycle when that value is truthy. *)
Lemma cardLoop_href l st card amountEl cta :
  card ∈ l ->
  querySelector pg card ".amount" = Some amountEl ->
  querySelector pg card ".plan-cta" = Some cta ->
  JS.truthyValue (datasetGet pg (elements st cta) linkKey) = true ->
  getAttribute "href" (elements (JS.forEach (pricingCard pg billing) l st) cta)
  = Some (JS.toString (datasetGet pg (elements st cta) linkKey)).
Proof.
  intros Hin Ha Hc Hp.
  apply (forEach_establishes (pricingCard pg billing)
           (fun s => forall n, dataset (elements s n) = dataset (elements st n))
           (fun s => getAttribute "href" (elements s cta)
                     = Some (JS.toString (datasetGet pg (elements st cta) linkKey)))
           card); auto.
  - intros y s Hs n. now rewrite pricingCard_dataset.
  - intros s Hs. rewrite pricingCard_href, Ha, Hc. cbv zeta.
    rewrite (datasetGet_ext pg _ (elements st cta)) by apply Hs.
    now rewrite Hp, Nat.eqb_refl.
  - intros y s Hs Ht. rewrite pricingCard_href.
    destruct (querySelector pg y ".amount") as [a'|]; [|exact Ht].
    destruct (querySelector pg y ".plan-cta") as [c'|]; [|exact Ht].
    cbv zeta.
    destruct (JS.truthyValue (datasetGet pg (elements s c') linkKey)); [|exact Ht].
    cbn [andb]. destruct (Nat.eqb_spec cta c') as [<-|]; [|exact Ht].
    do 2 f_equal. apply datasetGet_ext, Hs.
Qed.

(** The card loop leaves the text of an element alone unless a complete
    card shows a price in it. *)
Lemma cardLoop_text_unchanged l st k :
  (forall card, card ∈ l ->
     querySelector pg card ".amount" = Some k ->
     is_Some (querySelector pg card ".plan-cta") ->
     JS.truthyValue (datasetGet pg (elements st k) priceKey) = false) ->
  textContent (elements (JS.forEach (pricingCard pg billing) l st) k)
  = textContent (elements st k).
Proof.
  intros Hk.
  apply (forEach_preserves _
           (fun s => (forall n, dataset (elements s n) = dataset (elements st n))
                     /\ textContent (elements s k) = textContent (elements st k)));
    [auto|].
  intros y s Hy [Hd Ht]. split; [intros n; now rewrite pricingCard_dataset|].
  rewrite pricingCard_textContent.
  destruct (querySelector pg y ".amount") as [a'|] eqn:Ha; [|exact Ht].
  destruct (querySelector pg y ".plan-cta") as [c'|] eqn:Hc; [|exact Ht].
  cbv zeta.
  destruct (JS.truthyValue (datasetGet pg (elements s a') priceKey)) eqn:Hp';
    [|exact Ht].
  cbn [andb]. destruct (Nat.eqb_spec k a') as [<-|]; [|exact Ht].
  specialize (Hk y Hy Ha (ltac:(eauto))).
  rewrite (datasetGet_ext pg _ (elements st k)) in Hp' by apply Hd. congruence.
Qed.

(** The card loop leaves the [href] of an element alone unless a complete
    card has a link target for it. *)
Lemma cardLoop_href_unchanged l st k :
  (forall card, card ∈ l ->
     querySelector pg card ".plan-cta" = Some k ->
     is_Some (querySelector pg card ".amount") ->
     JS.truthyValue (datasetGet pg (elements st k) linkKey) = false) ->
  getAttribute "href" (elements (JS.forEach (pricingCard pg billing) l st) k)
  = getAttribute "href" (elements st k).
Proof.
  intros Hk.
  apply (forEach_preserves _
           (fun s => (forall n, dataset (elements s n) = dataset (elements st n))
                     /\ getAttribute "href" (elements s k)
                        = getAttribute "href" (elements st k)));
    [auto|].
  intros y s Hy [Hd Ht]. split; [intros n; now rewrite pricingCard_dataset|].
  rewrite pricingCard_href.
  destruct (querySelector pg y ".amount") as [a'|] eqn:Ha; [|exact Ht].
  destruct (querySelector pg y ".plan-cta") as [c'|] eqn:Hc; [|exact Ht].
  cbv zeta.
  destruct (JS.truthyValue (datasetGet pg (elements s c') linkKey)) eqn:Hp';
    [|exact Ht].
  cbn [andb]. destruct (Nat.eqb_spec k c') as [<-|]; [|exact Ht].
  specialize (Hk y Hy Hc (ltac:(eauto))).
  rewrite (datasetGet_ext pg _ (elements st k)) in Hp' by apply Hd. congruence.
Qed.

Lemma suffixLoop_href l st k :
  getAttribute "href" (elements (JS.forEach (pricingSuffix billing) l st) k)
  = getAttribute "href" (elements st k).
Proof.
  apply (forEach_preserves _
           (fun s => getAttribute "href" (elements s k)
                     = getAttribute "href" (elements st k))); [reflexivity|].
  intros x s _ Hs. unfold getAttribute in *. now rewrite pricingSuffix_attributes.
Qed.

(** [updatePricing] on the displayed amount, the link and the suffix. *)
Lemma updatePricing_shown st card amountEl cta :
  card ∈ pricingCards pg ->
  querySelector pg card ".amount" = Some amountEl ->
  querySelector pg card ".plan-cta" = Some cta ->
  JS.truthyValue (datasetGet pg (elements st amountEl) priceKey) = true ->
  amountEl ∉ cycleSuffix pg ->
  textContent (elements (updatePricing pg billing st) amountEl)
  = JS.toString (datasetGet pg (elements st amountEl) priceKey).
Proof.
  intros Hin Ha Hc Hp Hsuf. unfold updatePricing.
  rewrite suffixLoop_other by exact Hsuf.
  assert (Hd : dataset (elements (JS.forEach (pricingButton billing)
                                    (billingButtons pg) st) amountEl)
               = dataset (elements st amountEl))
    by apply (buttonLoop_frame _ st amountEl).
  rewrite (cardLoop_amount _ _ card amountEl cta); auto.
  - f_equal. now apply datasetGet_ext.
  - now rewrite (datasetGet_ext pg _ (elements st amountEl)).
Qed.

Lemma updatePricing_amount st card amountEl cta price :
  card ∈ pricingCards pg ->
  querySelector pg card ".amount" = Some amountEl ->
  querySelector pg card ".plan-cta" = Some cta ->
  dataset (elements st amountEl) !! priceKey = Some price ->
  JS.nonEmpty price = true ->
  amountEl ∉ cycleSuffix pg ->
  textContent (elements (updatePricing pg billing st) amountEl) = price.
Proof.
  intros Hin Ha Hc Hp Hne Hsuf.
  rewrite (updatePricing_shown st card amountEl cta); auto;
    now rewrite (datasetGet_own pg _ _ price Hp).
Qed.

Lemma updatePricing_href st card amountEl cta href :
  card ∈ pricingCards pg ->
  querySelector pg card ".amount" = Some amountEl ->
  querySelector pg card ".plan-cta" = Some cta ->
  dataset (elements st cta) !! linkKey = Some href ->
  JS.nonEmpty href = true ->
  getAttribute "href" (elements (updatePricing pg billing st) cta) = Some href.
Proof.
  intros Hin Ha Hc Hp Hne. unfold updatePricing.
  rewrite suffixLoop_href.
  assert (Hd : dataset (elements (JS.forEach (pricingButton billing)
                                    (billingButtons pg) st) cta)
               = dataset (elements st cta))
    by apply (buttonLoop_frame _ st cta).
  rewrite (cardLoop_href _ _ card amountEl cta); auto;
    rewrite (datasetGet_ext pg _ (elements st cta)) by exact Hd;
    now rewrite (datasetGet_own pg _ _ href Hp).
Qed.

Lemma updatePricing_suffix st suffix :
  suffix ∈ cycleSuffix pg ->
  textContent (elements (updatePricing pg billing st) suffix) = cycleLabel billing.
Proof. intros Hin. unfold updatePricing. now apply suffixLoop_member. Qed.

Lemma updatePricing_text_unchanged st k :
  k ∉ cycleSuffix pg ->
  (forall card, card ∈ pricingCards pg ->
     querySelector pg card ".amount" = Some k ->
     is_Some (querySelector pg card ".plan-cta") ->
     JS.truthyValue (datasetGet pg (elements st k) priceKey) = false) ->
  textContent (elements (updatePricing pg billing st) k) = textContent (elements st k).
Proof.
  intros Hsuf Hk. unfold updatePricing.
  rewrite suffixLoop_other by exact Hsuf.
  rewrite cardLoop_text_unchanged.
  - apply (buttonLoop_frame _ st k).
  - intros card Hin Ha Hc.
    rewrite (datasetGet_ext pg _ (elements st k))
      by apply (buttonLoop_frame _ st k).
    eauto.
Qed.

Lemma updatePricing_href_unchanged st k :
  (forall card, card ∈ pricingCards pg ->
     querySelector pg card ".plan-cta" = Some k ->
     is_Some (querySelector pg card ".amount") ->
     JS.truthy (dataset (elements st k) !! linkKey) = false) ->
  getAttribute "href" (elements (updatePricing pg billing st) k)
  = getAttribute "href" (elements st k).
Proof.
  intros Hk. unfold updatePricing.
  rewrite suffixLoop_href, cardLoop_href_unchanged.
  - apply (buttonLoop_frame _ st k).
  - intros card Hin Ha Hc.
    rewrite (datasetGet_ext pg _ (elements st k))
      by apply (buttonLoop_frame _ st k).
    unfold linkAttr. rewrite truthy_datasetGet by apply inherited_link. eauto.
Qed.
End PricingLoops.

Section PricingClaims.
Context (pg : Page).

Lemma updatePricing_active billing st btn :
  btn ∈ billingButtons pg ->
  JS.strictEq (dataset (elements st btn) !! "billing") billing = true ->
  contains "is-active" (elements (updatePricing pg billing st) btn) = true.
Proof.
  intros Hin Hact. unfold updatePricing.
  apply (forEach_preserves _
           (fun s => contains "is-active" (elements s btn) = true)).
  - apply (forEach_preserves _
             (fun s => contains "is-active" (elements s btn) = true)).
    + apply (forEach_establishes (pricingButton billing)
               (fun s => forall n, dataset (elements s n) = dataset (elements st n))
               (fun s => contains "is-active" (elements s btn) = true)
               btn); auto.
      * intros y s Hs n. now rewrite pricingButton_dataset.
      * intros s Hs. unfold contains. cbn. rewrite Nat.eqb_refl, Hs, Hact.
        apply bool_decide_eq_true. set_solver.
      * intros y s Hs Hc. unfold contains in *. cbn.
        destruct (Nat.eqb_spec btn y) as [<-|]; [|exact Hc].
        rewrite Hs, Hact. apply bool_decide_eq_true. set_solver.
    + intros x s _ Hs. unfold contains in *. now rewrite pricingCard_classList.
  - intros x s _ Hs. unfold contains in *. now rewrite pricingSuffix_classList.
Qed.

(** C1 (amended).  After [updatePricing('yearly')], every pricing card
    that has both an amount element and a call-to-action element, whose
    amount element carries a non-empty yearly price and is not itself a
    cycle suffix element, displays that yearly price; every cycle suffix
    element reads "/mo billed yearly"; and a click on a billing button
    that is already active (it has the class [is-active], as the button
    of the cycle just applied has) leaves the whole state unchanged. *)
Theorem updatePricing_yearly (st : State) :
  let st' := updatePricing pg (Some "yearly") st in
  (forall card amountEl cta price,
      card ∈ pricingCards pg ->
      querySelector pg card ".amount" = Some amountEl ->
      querySelector pg card ".plan-cta" = Some cta ->
      dataset (elements st amountEl) !! "yearly" = Some price ->
      price <> "" ->
      amountEl ∉ cycleSuffix pg ->
      textContent (elements st' amountEl) = price)
  /\ (forall suffix,
        suffix ∈ cycleSuffix pg ->
        textContent (elements st' suffix) = "/mo billed yearly")
  /\ (forall btn s,
        contains "is-active" (elements s btn) = true ->
        onBillingClick pg btn s = s)
  /\ (forall btn,
        btn ∈ billingButtons pg ->
        dataset (elements st btn) !! "billing" = Some "yearly" ->
        onBillingClick pg btn st' = st').
Proof.
  intros st'. subst st'. repeat split.
  - intros card amountEl cta price Hin Ha Hc Hp Hne Hsuf.
    eapply (updatePricing_amount pg (Some "yearly")); eauto.
    now apply nonEmpty_true.
  - intros suffix Hin.
    now rewrite (updatePricing_suffix pg (Some "yearly")).
  - intros btn s Hact. unfold onBillingClick. now rewrite Hact.
  - intros btn Hin Hb. unfold onBillingClick.
    rewrite updatePricing_active; [reflexivity | exact Hin |].
    now rewrite Hb.
Qed.

(** C10.  For a billing cycle whose name is not one of the property
    names that every object inherits (the cycles of the site, monthly and
    yearly, are not), a card whose amount element lacks a (non-empty)
    price for the cycle keeps its displayed amount.  For every billing
    cycle, a card whose call to action lacks a (non-empty) link for the
    cycle keeps its [href], a card without call to action keeps its
    amount and a card without amount element keeps its [href]; the
    complete cards are still updated and so is every suffix label.  An
    element keeps its text only if it is not a suffix element as well,
    and the element of an incomplete card only if no complete card shows
    it too. *)
Theorem updatePricing_incomplete_cards (billing : option string) (st : State) :
  let st' := updatePricing pg billing st in
  let price n := dataset (elements st n) !! JS.toPropertyKey billing in
  let link n := dataset (elements st n) !! (JS.toPropertyKey billing +:+ "Link") in
  (forall card amountEl,
      JS.inherited (JS.toPropertyKey billing) = false ->
      card ∈ pricingCards pg ->
      querySelector pg card ".amount" = Some amountEl ->
      JS.truthy (price amountEl) = false ->
      amountEl ∉ cycleSuffix pg ->
      textContent (elements st' amountEl) = textContent (elements st amountEl))
  /\ (billing = Some "monthly" \/ billing = Some "yearly" ->
      JS.inherited (JS.toPropertyKey billing) = false)
  /\ (forall card cta,
        card ∈ pricingCards pg ->
        querySelector pg card ".plan-cta" = Some cta ->
        JS.truthy (link cta) = false ->
        getAttribute "href" (elements st' cta) = getAttribute "href" (elements st cta))
  /\ (forall card amountEl,
        card ∈ pricingCards pg ->
        querySelector pg card ".amount" = Some amountEl ->
        querySelector pg card ".plan-cta" = None ->
        (forall other, other ∈ pricingCards pg ->
           querySelector pg other ".amount" = Some amountEl ->
           querySelector pg other ".plan-cta" = None) ->
        amountEl ∉ cycleSuffix pg ->
        textContent (elements st' amountEl) = textContent (elements st amountEl))
  /\ (forall card cta,
        card ∈ pricingCards pg ->
        querySelector pg card ".amount" = None ->
        querySelector pg card ".plan-cta" = Some cta ->
        (forall other, other ∈ pricingCards pg ->
           querySelector pg other ".plan-cta" = Some cta ->
           querySelector pg other ".amount" = None) ->
        getAttribute "href" (elements st' cta) = getAttribute "href" (elements st cta))
  /\ (forall card amountEl cta p,
        card ∈ pricingCards pg ->
        querySelector pg card ".amount" = Some amountEl ->
        querySelector pg card ".plan-cta" = Some cta ->
        price amountEl = Some p -> p <> "" ->
        amountEl ∉ cycleSuffix pg ->
        textContent (elements st' amountEl) = p)
  /\ (forall card amountEl cta h,
        card ∈ pricingCards pg ->
        querySelector pg card ".amount" = Some amountEl ->
        querySelector pg card ".plan-cta" = Some cta ->
        link cta = Some h -> h <> "" ->
        getAttribute "href" (elements st' cta) = Some h)
  /\ (forall suffix,
        suffix ∈ cycleSuffix pg ->
        textContent (elements st' suffix) = cycleLabel billing).
Proof.
  intros st' price link. subst st' price link.
  refine (conj _ (conj _ (conj _ (conj _ (conj _ (conj _ (conj _ _))))))).
  - intros card amountEl Hkey Hin Ha Hp Hsuf.
    apply updatePricing_text_unchanged; [exact Hsuf|].
    intros. now rewrite truthy_datasetGet.
  - intros [->| ->]; reflexivity.
  - intros card cta Hin Hc Hl.
    apply updatePricing_href_unchanged; auto.
  - intros card amountEl Hin Ha Hc Hown Hsuf.
    apply updatePricing_text_unchanged; [exact Hsuf|].
    intros other Ho Hoa [c Hoc]. rewrite (Hown other Ho Hoa) in Hoc. discriminate.
  - intros card cta Hin Ha Hc Hown.
    apply updatePricing_href_unchanged.
    intros other Ho Hoc [a Hoa]. rewrite (Hown other Ho Hoc) in Hoa. discriminate.
  - intros card amountEl cta p Hin Ha Hc Hp Hne Hsuf.
    eapply updatePricing_amount; eauto. now apply nonEmpty_true.
  - intros card amountEl cta h Hin Ha Hc Hl Hne.
    eapply updatePricing_href; eauto. now apply nonEmpty_true.
  - intros suffix Hin. now apply updatePricing_suffix.
Qed.
End PricingClaims.

Ltac in_list := apply list_elem_of_In; simpl; tauto.
Ltac not_in_list :=
  let H := fresh in intros H; apply list_elem_of_In in H; simpl in H;
  repeat destruct H as [H|H]; solve [discriminate H | destruct H].

(** On the sample page the second card has a yearly price of 49 and no call
    to action: it still shows 59 after [updatePricing('yearly')]. *)
Lemma updatePricing_yearly_counterexample :
  ~ shows_yearly_price (Sample.page (Some 79)) (Sample.state "Ada" "ada@example.org" None None).
Proof.
  intros H.
  specialize (H 30 31 "49" ltac:(in_list) eq_refl eq_refl).
  vm_compute in H. discriminate H.
Qed.

Lemma updatePricing_yearly_witness :
  let pg := Sample.page (Some 79) in
  let st := Sample.state "Ada" "ada@example.org" None None in
  let st' := updatePricing pg (Some "yearly") st in
  textContent (elements st' 21) = "24"
  /\ textContent (elements st' 23) = "/mo billed yearly"
  /\ onBillingClick pg 11 st' = st'.
Proof.
  intros pg st st'.
  destruct (updatePricing_yearly pg st) as (Hamount & Hsuffix & _ & Hclick).
  split; [|split].
  - apply (Hamount 20 21 22 "24"); try reflexivity; try discriminate.
    + in_list.
    + not_in_list.
  - apply (Hsuffix 23). in_list.
  - apply (Hclick 11); [in_list | reflexivity].
Defined.

Lemma updatePricing_incomplete_cards_witness :
  let pg := Sample.page (Some 79) in
  let st := Sample.state "Ada" "ada@example.org" None None in
  let st' := updatePricing pg (Some "yearly") st in
  textContent (elements st' 41) = "9"
  /\ getAttribute "href" (elements st' 42) = Some "/signup?plan=lite"
  /\ textContent (elements st' 31) = "59"
  /\ textContent (elements st' 21) = "24"
  /\ getAttribute "href" (elements st' 22) = Some "/signup?plan=pro&cycle=y"
  /\ textContent (elements st' 43) = "/mo billed yearly".
Proof.
  intros pg st st'.
  destruct (updatePricing_incomplete_cards pg (Some "yearly") st)
    as (Hprice & Hcycle & Hlink & Hnocta & _ & Hamount & Hhref & Hsuffix).
  refine (conj _ (conj _ (conj _ (conj _ (conj _ _))))).
  - apply (Hprice 40 41);
      [apply Hcycle; now right | in_list | reflexivity | reflexivity | not_in_list].
  - apply (Hlink 40 42); [in_list | reflexivity | reflexivity].
  - apply (Hnocta 30 31); [in_list | reflexivity | reflexivity | | not_in_list].
    intros other Ho Ha. apply list_elem_of_In in Ho. simpl in Ho.
    destruct Ho as [<-|[<-|[<-|[]]]]; [discriminate Ha | reflexivity | discriminate Ha].
  - apply (Hamount 20 21 22 "24"); try reflexivity; try discriminate;
      [in_list | not_in_list].
  - apply (Hhref 20 21 22); try reflexivity; try discriminate. in_list.
  - apply (Hsuffix 43). in_list.
Defined.

(** ** FAQ accordion *)

Lemma getAttribute_setStyle n prop v st k a :
  getAttribute a (elements (setStyle n prop v st) k) = getAttribute a (elements st k).
Proof. unfold getAttribute. cbn. now destruct (Nat.eqb k n). Qed.

Lemma style_setAttribute n name v st k :
  style (elements (setAttribute n name v st) k) = style (elements st k).
Proof. cbn. now destruct (Nat.eqb k n). Qed.

Lemma scrollHeight_setAttribute n name v st k :
  scrollHeight (elements (setAttribute n name v st) k) = scrollHeight (elements st k).
Proof. cbn. now destruct (Nat.eqb k n). Qed.

Section Accordion.
Context (pg : Page).

(** [setAccordionState] writes [aria-expanded] on the trigger only. *)
Lemma setAccordionState_expanded x b st k :
  getAttribute "aria-expanded" (elements (setAccordionState pg x b st) k)
  = if Nat.eqb k x then Some (JS.String_of_bool b)
    else getAttribute "aria-expanded" (elements st k).
Proof.
  unfold setAccordionState.
  destruct (panelOf pg st x) as [p|].
  - assert (H : forall s,
               getAttribute "aria-expanded"
                 (elements (setAttribute p "aria-hidden" s
                    (setAttribute x "aria-expanded" (JS.String_of_bool b) st)) k)
               = if Nat.eqb k x then Some (JS.String_of_bool b)
                 else getAttribute "aria-expanded" (elements st k)).
    { intros s. rewrite !getAttribute_setAttribute. cbn.
      rewrite andb_false_r, andb_true_r. reflexivity. }
    destruct b.
    + change (elements (with_openAccordionId ?o ?s)) with (elements s).
      rewrite getAttribute_setStyle. apply H.
    + match goal with |- context [if ?c then _ else _] => destruct c end;
        change (elements (with_openAccordionId ?o ?s)) with (elements s);
        rewrite getAttribute_setStyle; apply H.
  - rewrite getAttribute_setAttribute. cbn. now rewrite andb_true_r.
Qed.

(** It never writes [aria-controls], so the panel of a trigger is fixed. *)
Lemma setAccordionState_controls x b st k :
  getAttribute "aria-controls" (elements (setAccordionState pg x b st) k)
  = getAttribute "aria-controls" (elements st k).
Proof.
  unfold setAccordionState.
  destruct (panelOf pg st x) as [p|].
  - assert (H : forall s,
               getAttribute "aria-controls"
                 (elements (setAttribute p "aria-hidden" s
                    (setAttribute x "aria-expanded" (JS.String_of_bool b) st)) k)
               = getAttribute "aria-controls" (elements st k)).
    { intros s. rewrite !getAttribute_setAttribute. cbn.
      now rewrite !andb_false_r. }
    destruct b.
    + change (elements (with_openAccordionId ?o ?s)) with (elements s).
      rewrite getAttribute_setStyle. apply H.
    + match goal with |- context [if ?c then _ else _] => destruct c end;
        change (elements (with_openAccordionId ?o ?s)) with (elements s);
        rewrite getAttribute_setStyle; apply H.
  - rewrite getAttribute_setAttribute. cbn. now rewrite andb_false_r.
Qed.

Lemma setAccordionState_panelOf x b st k :
  panelOf pg (setAccordionState pg x b st) k = panelOf pg st k.
Proof. unfold panelOf. now rewrite setAccordionState_controls. Qed.

(** It writes the max-height of the trigger's panel only. *)
Lemma setAccordionState_maxHeight x b st k :
  style (elements (setAccordionState pg x b st) k) !! "maxHeight"
  = match panelOf pg st x with
    | Some p =>
        if Nat.eqb k p
        then Some (if b then px (scrollHeight (elements st p)) else "0px")
        else style (elements st k) !! "maxHeight"
    | None => style (elements st k) !! "maxHeight"
    end.
Proof.
  unfold setAccordionState.
  destruct (panelOf pg st x) as [p|].
  - destruct b.
    + change (elements (with_openAccordionId ?o ?s)) with (elements s).
      rewrite style_setStyle, !style_setAttribute, !scrollHeight_setAttribute.
      cbn. now rewrite andb_true_r.
    + match goal with |- context [if ?c then _ else _] => destruct c end;
        change (elements (with_openAccordionId ?o ?s)) with (elements s);
        rewrite style_setStyle, !style_setAttribute; cbn;
        now rewrite andb_true_r.
  - now rewrite style_setAttribute.
Qed.

Lemma collapseOther_panelOf t x st k :
  panelOf pg (collapseOther pg t x st) k = panelOf pg st k.
Proof.
  unfold collapseOther. destruct (Nat.eqb x t); [reflexivity|].
  apply setAccordionState_panelOf.
Qed.

(** Collapsing a trigger expands nothing and opens no panel. *)
Lemma collapse_isExpanded x st k :
  isExpanded (setAccordionState pg x false st) k = true -> isExpanded st k = true.
Proof.
  unfold isExpanded. rewrite setAccordionState_expanded.
  destruct (Nat.eqb k x); [discriminate | trivial].
Qed.

Lemma collapse_panelOpen x st p :
  panelOpen (setAccordionState pg x false st) p = true -> panelOpen st p = true.
Proof.
  unfold panelOpen. rewrite setAccordionState_maxHeight.
  destruct (panelOf pg st x) as [q|]; [|trivial].
  destruct (Nat.eqb p q); [discriminate | trivial].
Qed.

Lemma collapse_atMostOneExpanded x st :
  atMostOneExpanded pg st -> atMostOneExpanded pg (setAccordionState pg x false st).
Proof.
  intros H t1 t2 H1 H2 E1 E2. eauto using collapse_isExpanded.
Qed.

Lemma collapse_atMostOneOpenPanel x st :
  atMostOneOpenPanel pg st -> atMostOneOpenPanel pg (setAccordionState pg x false st).
Proof.
  intros H t1 t2 p1 p2 H1 H2 P1 P2 O1 O2.
  rewrite setAccordionState_panelOf in P1, P2.
  eauto using collapse_panelOpen.
Qed.

(** A trigger that was collapsed stays collapsed, and a panel that was
    closed stays closed, while other triggers are collapsed. *)
Lemma collapsed_after_loop (skip : node -> bool) l st o :
  o ∈ l -> skip o = false ->
  let st' :=
    JS.forEach (fun x s => if skip x then s else setAccordionState pg x false s) l st in
  getAttribute "aria-expanded" (elements st' o) = Some "false"
  /\ forall p, panelOf pg st o = Some p ->
       style (elements st' p) !! "maxHeight" = Some "0px".
Proof.
  intros Hin Hskip st'. unfold st'.
  apply (forEach_establishes
           (fun x s => if skip x then s else setAccordionState pg x false s)
           (fun s => forall k, panelOf pg s k = panelOf pg st k)
           (fun s => getAttribute "aria-expanded" (elements s o) = Some "false"
                     /\ forall p, panelOf pg st o = Some p ->
                          style (elements s p) !! "maxHeight" = Some "0px") o);
    auto.
  - intros y s Hs k. destruct (skip y); [apply Hs|].
    now rewrite setAccordionState_panelOf.
  - intros s Hs. rewrite Hskip. split.
    + rewrite setAccordionState_expanded. now rewrite Nat.eqb_refl.
    + intros p Hp. rewrite setAccordionState_maxHeight, Hs, Hp.
      now rewrite Nat.eqb_refl.
  - intros y s Hs [He Hp]. destruct (skip y); [auto|]. split.
    + rewrite setAccordionState_expanded. now destruct (Nat.eqb o y).
    + intros p Hpo. rewrite setAccordionState_maxHeight.
      destruct (panelOf pg s y) as [q|]; [|auto].
      destruct (Nat.eqb p q); auto.
Qed.
End Accordion.

Section AccordionClaims.
Context (pg : Page).

Lemma collapseLoop_panelOf t l st k :
  panelOf pg (JS.forEach (collapseOther pg t) l st) k = panelOf pg st k.
Proof.
  apply (forEach_preserves _ (fun s => panelOf pg s k = panelOf pg st k));
    [reflexivity|].
  intros x s _ Hs. now rewrite collapseOther_panelOf.
Qed.

Lemma onAccordionClick_panelOf t st k :
  panelOf pg (onAccordionClick pg t st) k = panelOf pg st k.
Proof.
  unfold onAccordionClick.
  now rewrite setAccordionState_panelOf, collapseLoop_panelOf.
Qed.

(** What a click leaves behind, whatever the state it starts from. *)
Lemma onAccordionClick_post t st :
  let st' := onAccordionClick pg t st in
  (forall o, o ∈ accordionTriggers pg -> o <> t ->
     getAttribute "aria-expanded" (elements st' o) = Some "false"
     /\ forall p, panelOf pg st o = Some p -> panelOf pg st t <> Some p ->
          style (elements st' p) !! "maxHeight" = Some "0px")
  /\ getAttribute "aria-expanded" (elements st' t)
     = Some (JS.String_of_bool (negb (isExpanded st t)))
  /\ forall p, panelOf pg st t = Some p ->
       style (elements st' p) !! "maxHeight"
       = Some (if isExpanded st t then "0px" else px (scrollHeight (elements st p))).
Proof.
  intros st'. subst st'. unfold onAccordionClick.
  set (s1 := JS.forEach (collapseOther pg t) (accordionTriggers pg) st).
  assert (Hpan : forall k, panelOf pg s1 k = panelOf pg st k)
    by (intros k; apply collapseLoop_panelOf).
  assert (Hsh : forall k, scrollHeight (elements s1 k) = scrollHeight (elements st k)).
  { intros k. unfold s1.
    apply (forEach_preserves _
             (fun s => scrollHeight (elements s k) = scrollHeight (elements st k)));
      [reflexivity|].
    intros x s _ Hs. unfold collapseOther. destruct (Nat.eqb x t); [exact Hs|].
    rewrite <- Hs. unfold setAccordionState.
    destruct (panelOf pg s x) as [q|]; [|cbn; now destruct (Nat.eqb k x)].
    match goal with |- context [if ?c then _ else _] => destruct c end;
      cbn; eqb_cases; reflexivity. }
  split; [|split].
  - intros o Hin Hne.
    destruct (collapsed_after_loop pg (fun x => Nat.eqb x t)
                (accordionTriggers pg) st o Hin) as [He Hp].
    { now apply Nat.eqb_neq. }
    split.
    + rewrite setAccordionState_expanded.
      destruct (Nat.eqb_spec o t); [contradiction | exact He].
    + intros p Hpo Hpt. rewrite setAccordionState_maxHeight, Hpan.
      destruct (panelOf pg st t) as [q|]; [|now apply Hp].
      destruct (Nat.eqb_spec p q) as [->|]; [congruence | now apply Hp].
  - rewrite setAccordionState_expanded. now rewrite Nat.eqb_refl.
  - intros p Hp. rewrite setAccordionState_maxHeight, Hpan, Hp, Nat.eqb_refl, Hsh.
    now destruct (isExpanded st t).
Qed.

Lemma isExpanded_of_attribute st k b :
  getAttribute "aria-expanded" (elements st k) = Some (JS.String_of_bool b) ->
  isExpanded st k = b.
Proof. unfold isExpanded. intros ->. now destruct b. Qed.

Lemma panelOpen_closed st p :
  style (elements st p) !! "maxHeight" = Some "0px" -> panelOpen st p = false.
Proof. unfold panelOpen. now intros ->. Qed.

Lemma onAccordionClick_invariant t st :
  atMostOneExpanded pg (onAccordionClick pg t st)
  /\ atMostOneOpenPanel pg (onAccordionClick pg t st).
Proof.
  destruct (onAccordionClick_post t st) as (Hothers & _ & _).
  split.
  - assert (H : forall o, o ∈ accordionTriggers pg ->
                  isExpanded (onAccordionClick pg t st) o = true -> o = t).
    { intros o Hin He. destruct (Nat.eq_dec o t) as [|Hne]; [assumption|].
      destruct (Hothers o Hin Hne) as [Hf _].
      apply (isExpanded_of_attribute _ _ false) in Hf. congruence. }
    intros t1 t2 H1 H2 E1 E2. rewrite (H t1 H1 E1), (H t2 H2 E2). reflexivity.
  - assert (H : forall o p, o ∈ accordionTriggers pg ->
                  panelOf pg st o = Some p ->
                  panelOpen (onAccordionClick pg t st) p = true ->
                  panelOf pg st t = Some p).
    { intros o p Hin Hp Ho.
      destruct (decide (panelOf pg st t = Some p)) as [|Hne]; [assumption|].
      destruct (Nat.eq_dec o t) as [->|Hot]; [congruence|].
      destruct (Hothers o Hin Hot) as [_ Hz].
      rewrite (panelOpen_closed _ _ (Hz p Hp Hne)) in Ho. discriminate. }
    intros t1 t2 p1 p2 H1 H2 P1 P2 O1 O2.
    rewrite onAccordionClick_panelOf in P1, P2.
    pose proof (H t1 p1 H1 P1 O1) as E1. pose proof (H t2 p2 H2 P2 O2) as E2.
    congruence.
Qed.

(** After the load-time loop every trigger is collapsed and every panel
    of a trigger is closed. *)
Lemma initAccordion_collapsed st o :
  o ∈ accordionTriggers pg ->
  isExpanded (initAccordion pg st) o = false
  /\ forall p, panelOf pg st o = Some p -> panelOpen (initAccordion pg st) p = false.
Proof.
  intros Hin.
  destruct (collapsed_after_loop pg (fun _ => false) (accordionTriggers pg) st o Hin
              eq_refl) as [He Hp].
  split.
  - now apply (isExpanded_of_attribute _ _ false).
  - intros p Hpo. apply panelOpen_closed. now apply Hp.
Qed.

Lemma initAccordion_panelOf st k :
  panelOf pg (initAccordion pg st) k = panelOf pg st k.
Proof.
  unfold initAccordion.
  apply (forEach_preserves _ (fun s => panelOf pg s k = panelOf pg st k));
    [reflexivity|].
  intros x s _ Hs. now rewrite setAccordionState_panelOf.
Qed.

Lemma initAccordion_invariant st :
  atMostOneExpanded pg (initAccordion pg st)
  /\ atMostOneOpenPanel pg (initAccordion pg st).
Proof.
  split.
  - intros t1 t2 H1 _ E1 _.
    rewrite (proj1 (initAccordion_collapsed st t1 H1)) in E1. discriminate.
  - intros t1 t2 p1 p2 H1 _ P1 _ O1 _. rewrite initAccordion_panelOf in P1.
    rewrite (proj2 (initAccordion_collapsed st t1 H1) p1 P1) in O1. discriminate.
Qed.

Lemma runAccordionStates_invariant clicks st :
  atMostOneExpanded pg st /\ atMostOneOpenPanel pg st ->
  Forall (fun s => atMostOneExpanded pg s /\ atMostOneOpenPanel pg s)
    (runAccordionStates pg clicks st).
Proof.
  revert st. induction clicks as [|t rest IH]; intros st Hst; simpl.
  - now constructor.
  - constructor; [exact Hst|]. apply Forall_app. split.
    + apply forEachStates_preserves; [exact Hst|].
      intros x s [H1 H2]. unfold collapseOther. destruct (Nat.eqb x t); [auto|].
      split; [now apply collapse_atMostOneExpanded
             | now apply collapse_atMostOneOpenPanel].
    + apply IH, onAccordionClick_invariant.
Qed.

Lemma runAccordionStates_last clicks st :
  last (runAccordionStates pg clicks st) = Some (runAccordion pg clicks st).
Proof.
  revert st. induction clicks as [|t rest IH]; intros st; [reflexivity|].
  cbn [runAccordionStates]. rewrite app_comm_cons, last_app.
  unfold runAccordion in *. simpl. now rewrite IH.
Qed.

(** C2.  Starting from the all-collapsed state the load-time loop
    produces, in every state a sequence of clicks passes through (the
    states between the steps of a click listener included) at most one
    trigger has [aria-expanded="true"] and at most one panel has a
    non-zero max-height; the last of these states is the result of the
    session.  A click collapses every other trigger, closing its panel
    (max-height 0px), and toggles the one clicked, whose panel gets the
    max-height 0px or its scroll height. *)
Theorem accordion_mutual_exclusion (st0 : State) (clicks : list node) :
  let states := runAccordionStates pg clicks (initAccordion pg st0) in
  (forall o, o ∈ accordionTriggers pg -> isExpanded (initAccordion pg st0) o = false)
  /\ Forall (fun s => atMostOneExpanded pg s /\ atMostOneOpenPanel pg s) states
  /\ last states = Some (runAccordion pg clicks (initAccordion pg st0))
  /\ forall t st,
       let st' := onAccordionClick pg t st in
       (forall o, o ∈ accordionTriggers pg -> o <> t ->
          isExpanded st' o = false
          /\ forall p, panelOf pg st o = Some p -> panelOf pg st t <> Some p ->
               style (elements st' p) !! "maxHeight" = Some "0px")
       /\ isExpanded st' t = negb (isExpanded st t)
       /\ forall p, panelOf pg st t = Some p ->
            style (elements st' p) !! "maxHeight"
            = Some (if isExpanded st t then "0px"
                    else px (scrollHeight (elements st p))).
Proof.
  intros states. subst states. split; [|split; [|split]].
  - intros o Hin. apply (initAccordion_collapsed st0 o Hin).
  - apply runAccordionStates_invariant, initAccordion_invariant.
  - apply runAccordionStates_last.
  - intros t st st'. subst st'.
    destruct (onAccordionClick_post t st) as (Hothers & Ht & Hp).
    split; [|split].
    + intros o Hin Hne. destruct (Hothers o Hin Hne) as [He Hz]. split.
      * now apply (isExpanded_of_attribute _ _ false).
      * exact Hz.
    + now apply isExpanded_of_attribute.
    + exact Hp.
Qed.
End AccordionClaims.

(** On the sample page: the first question is opened, then the second. *)
Lemma accordion_mutual_exclusion_witness :
  let pg := Sample.page (Some 79) in
  let opened := onAccordionClick pg 50 (initAccordion pg (Sample.state "" "" None None)) in
  let st := onAccordionClick pg 52 opened in
  isExpanded st 50 = false
  /\ style (elements st 51) !! "maxHeight" = Some "0px"
  /\ isExpanded st 52 = true
  /\ style (elements st 53) !! "maxHeight" = Some "96px".
Proof.
  intros pg opened st.
  destruct (accordion_mutual_exclusion pg (Sample.state "" "" None None) [50; 52])
    as (_ & _ & _ & Hclick).
  destruct (Hclick 52 opened) as (Hothers & Htoggled & Hpanel).
  destruct (Hothers 50 ltac:(in_list) ltac:(discriminate)) as [Hcollapsed Hclosed].
  split; [exact Hcollapsed|].
  split; [apply (Hclosed 51); [vm_compute; reflexivity | vm_compute; discriminate]|].
  split; [refine (eq_trans Htoggled _); vm_compute; reflexivity|].
  refine (eq_trans (Hpanel 53 _) _); vm_compute; reflexivity.
Defined.

(** ** Lightbox *)

Section Lightbox.
Context (pg : Page).

(** The browser's facts about an element that no handler changes. *)
Lemma openLightbox_kind img st k :
  isHTMLElement (elements (openLightbox pg img st) k) = isHTMLElement (elements st k)
  /\ focusable (elements (openLightbox pg img st) k) = focusable (elements st k).
Proof.
  unfold openLightbox.
  destruct (lightbox pg) as [lb|]; [|auto].
  destruct (lightboxImage pg) as [image|]; [|auto].
  destruct (lightboxCaption pg) as [caption|]; [|auto].
  destruct (lightboxClose pg) as [close|]; unfold focus;
    repeat match goal with
      | |- context [if focusable ?e then _ else _] => destruct (focusable e)
      end; cbn; eqb_cases; auto.
Qed.

Lemma openLightbox_focus img st lb image caption :
  lightbox pg = Some lb -> lightboxImage pg = Some image ->
  lightboxCaption pg = Some caption ->
  let st' := openLightbox pg img st in
  lastFocusedElement st' = activeElement st
  /\ activeElement st'
     = match lightboxClose pg with
       | Some close =>
           if focusable (elements st close) then Some close else activeElement st
       | None => activeElement st
       end.
Proof.
  intros Hlb Him Hcap st'. subst st'. unfold openLightbox.
  rewrite Hlb, Him, Hcap.
  destruct (lightboxClose pg) as [close|]; [|auto].
  unfold focus.
  match goal with
  | |- context [if focusable ?e then _ else _] =>
      replace (focusable e) with (focusable (elements st close))
        by (cbn; eqb_cases; reflexivity)
  end.
  destruct (focusable (elements st close)); auto.
Qed.

Lemma hideLightbox_post st lb :
  lightbox pg = Some lb ->
  let st' := hideLightbox pg st in
  activeElement st'
  = match lastFocusedElement st with
    | Some el =>
        if isHTMLElement (elements st el) && focusable (elements st el)
        then Some el else activeElement st
    | None => activeElement st
    end
  /\ getAttribute "aria-hidden" (elements st' lb) = Some "true"
  /\ (forall image, lightboxImage pg = Some image ->
        getAttribute "src" (elements st' image) = Some ""
        /\ getAttribute "alt" (elements st' image) = Some "")
  /\ style (elements st' (body pg)) !! "overflow" = Some "".
Proof.
  intros Hlb st'. subst st'. unfold hideLightbox. rewrite Hlb.
  set (s1 := setStyle (body pg) "overflow" "" (setAttribute lb "aria-hidden" "true" st)).
  set (s2 := match lightboxImage pg with
             | Some image => setAttribute image "alt" "" (setAttribute image "src" "" s1)
             | None => s1
             end).
  assert (Hlast : lastFocusedElement s2 = lastFocusedElement st)
    by (unfold s2; destruct (lightboxImage pg); reflexivity).
  assert (Hact : activeElement s2 = activeElement st)
    by (unfold s2; destruct (lightboxImage pg); reflexivity).
  assert (Hkind : forall k, isHTMLElement (elements s2 k) = isHTMLElement (elements st k)
                            /\ focusable (elements s2 k) = focusable (elements st k)).
  { intros k. unfold s2, s1. destruct (lightboxImage pg); cbn; eqb_cases; auto. }
  assert (Hhidden : getAttribute "aria-hidden" (elements s2 lb) = Some "true").
  { unfold s2, s1. destruct (lightboxImage pg) as [image|];
      repeat (rewrite getAttribute_setAttribute || rewrite getAttribute_setStyle);
      rewrite Nat.eqb_refl; [destruct (Nat.eqb lb image)|]; reflexivity. }
  assert (Himage : forall image, lightboxImage pg = Some image ->
                     getAttribute "src" (elements s2 image) = Some ""
                     /\ getAttribute "alt" (elements s2 image) = Some "").
  { intros image Him. unfold s2. rewrite Him.
    rewrite !getAttribute_setAttribute, Nat.eqb_refl. cbn. auto. }
  assert (Hover : style (elements s2 (body pg)) !! "overflow" = Some "").
  { unfold s2, s1. destruct (lightboxImage pg);
      rewrite ?style_setAttribute; rewrite style_setStyle, Nat.eqb_refl;
      reflexivity. }
  rewrite Hlast.
  destruct (lastFocusedElement st) as [el|]; [|now rewrite Hact].
  destruct (Hkind el) as [-> Hf].
  destruct (isHTMLElement (elements st el)); [|now rewrite Hact].
  unfold focus. rewrite Hf.
  destruct (focusable (elements st el)); cbn; [|now rewrite Hact]. auto.
Qed.

(** C6 (amended).  When the lightbox, its image and its caption exist:
    for every HTML element [el] that has the focus before the lightbox is
    opened, opening the lightbox moves the focus to the close control (if
    there is a focusable one) and closing it gives the focus back to
    [el], sets [aria-hidden] back to "true", clears the [src] and [alt]
    of the lightbox image and removes the overflow lock of the body. *)
Theorem lightbox_round_trip (img : node) (st : State) (lb image caption el : node) :
  lightbox pg = Some lb ->
  lightboxImage pg = Some image ->
  lightboxCaption pg = Some caption ->
  activeElement st = Some el ->
  isHTMLElement (elements st el) = true ->
  focusable (elements st el) = true ->
  let opened := openLightbox pg img st in
  let closed := hideLightbox pg opened in
  (forall close, lightboxClose pg = Some close ->
     focusable (elements st close) = true -> activeElement opened = Some close)
  /\ getAttribute "aria-hidden" (elements opened lb) = Some "false"
  /\ style (elements opened (body pg)) !! "overflow" = Some "hidden"
  /\ activeElement closed = Some el
  /\ getAttribute "aria-hidden" (elements closed lb) = Some "true"
  /\ getAttribute "src" (elements closed image) = Some ""
  /\ getAttribute "alt" (elements closed image) = Some ""
  /\ style (elements closed (body pg)) !! "overflow" = Some "".
Proof.
  intros Hlb Him Hcap Hact Hhtml Hfoc opened closed. subst opened closed.
  destruct (openLightbox_focus img st lb image caption Hlb Him Hcap) as [Hlast Hopen].
  destruct (hideLightbox_post (openLightbox pg img st) lb Hlb)
    as (Hclosed & Hhidden & Himage & Hover).
  destruct (Himage image Him) as [Hsrc Halt].
  refine (conj _ (conj _ (conj _ (conj _ (conj Hhidden (conj Hsrc (conj Halt Hover))))))).
  - intros close Hc Hf. rewrite Hopen, Hc, Hf. reflexivity.
  - unfold openLightbox. rewrite Hlb, Him, Hcap.
    rewrite getAttribute_setStyle.
    assert (H : forall s, getAttribute "aria-hidden"
                            (elements (setAttribute lb "aria-hidden" "false" s) lb)
                          = Some "false")
      by (intros s; now rewrite getAttribute_setAttribute, Nat.eqb_refl).
    destruct (lightboxClose pg) as [close|]; [|apply H].
    unfold focus.
    match goal with
    | |- context [if ?c then _ else _] => destruct c
    end; apply H.
  - unfold openLightbox. rewrite Hlb, Him, Hcap.
    now rewrite style_setStyle, Nat.eqb_refl.
  - rewrite Hclosed, Hlast, Hact.
    destruct (openLightbox_kind img st el) as [-> ->].
    now rewrite Hhtml, Hfoc.
Qed.
End Lightbox.

(** An SVG element has the focus when the lightbox is opened: closing the
    lightbox leaves the focus on the close control. *)
Lemma lightbox_round_trip_counterexample :
  ~ restores_focus (Sample.page (Some 79)) 64
      (Sample.state "Ada" "ada@example.org" None (Some 65)).
Proof.
  intros H. specialize (H 65 eq_refl). vm_compute in H. discriminate H.
Qed.

Lemma lightbox_round_trip_witness :
  let pg := Sample.page (Some 79) in
  let st := Sample.state "Ada" "ada@example.org" None (Some 64) in
  activeElement (openLightbox pg 64 st) = Some 63
  /\ activeElement (hideLightbox pg (openLightbox pg 64 st)) = Some 64.
Proof.
  intros pg st.
  destruct (lightbox_round_trip pg 64 st 60 61 62 64
              eq_refl eq_refl eq_refl eq_refl eq_refl eq_refl)
    as (Hopen & _ & _ & Hclosed & _).
  split; [apply (Hopen 63); reflexivity | exact Hclosed].
Defined.

(** ** Theme toggle *)

Section Theme.
Context (pg : Page).

Local Abbreviation root := (documentElement pg).

Lemma applyTheme_post theme st :
  let st' := applyTheme pg theme st in
  getAttribute "data-theme" (elements st' root) = Some theme
  /\ localStorage st' !! "luminaflow-theme" = Some theme
  /\ forall icon, themeIcon pg = Some icon ->
       textContent (elements st' icon)
       = if String.eqb theme "dark" then "🌙" else "☀️".
Proof.
  intros st'. subst st'. unfold applyTheme.
  destruct (themeIcon pg) as [icon|].
  - split; [|split].
    + unfold getAttribute. cbn. rewrite Nat.eqb_refl.
      destruct (Nat.eqb (documentElement pg) icon); cbn; apply lookup_insert_eq.
    + cbn. apply lookup_insert_eq.
    + intros i [= <-]. rewrite textContent_setTextContent.
      now rewrite Nat.eqb_refl.
  - split; [|split].
    + unfold getAttribute. cbn. rewrite Nat.eqb_refl. apply lookup_insert_eq.
    + cbn. apply lookup_insert_eq.
    + intros i [=].
Qed.

(** C7 (amended).  For every theme value [theme] (in particular "light"
    and "dark"), [applyTheme] sets the [data-theme] attribute of the root
    element to [theme], stores [theme] under the key "luminaflow-theme"
    and sets the icon glyph to the moon when [theme] is "dark" and to the
    sun otherwise.  At load, provided the page has a theme toggle, the
    theme applied is the [data-theme] attribute of the markup if it is
    present and not empty, and "light" otherwise. *)
Theorem applyTheme_and_initial_theme (theme : string) (st : State) :
  let st' := applyTheme pg theme st in
  let initial := getAttribute "data-theme" (elements st root) in
  getAttribute "data-theme" (elements st' root) = Some theme
  /\ localStorage st' !! "luminaflow-theme" = Some theme
  /\ (forall icon, themeIcon pg = Some icon ->
        textContent (elements st' icon)
        = if String.eqb theme "dark" then "🌙" else "☀️")
  /\ (forall toggle t, themeToggle pg = Some toggle ->
        initial = Some t -> t <> "" ->
        initTheme pg st = applyTheme pg t st)
  /\ (forall toggle, themeToggle pg = Some toggle ->
        initial = None \/ initial = Some "" ->
        initTheme pg st = applyTheme pg "light" st).
Proof.
  intros st' initial. subst st' initial.
  destruct (applyTheme_post theme st) as (Ha & Hs & Hi).
  refine (conj Ha (conj Hs (conj Hi (conj _ _)))).
  - intros toggle t Ht Hinit Hne. unfold initTheme.
    rewrite Ht, Hinit. apply nonEmpty_true in Hne. now rewrite Hne.
  - intros toggle Ht [Hinit|Hinit]; unfold initTheme;
      now rewrite Ht, Hinit.
Qed.

(** C9.  A click on the theme toggle applies "light" when the
    [data-theme] attribute of the root element is exactly "dark", and
    "dark" in every other case (the attribute is absent, empty, or any
    other string). *)
Theorem onThemeToggleClick_flips (st : State) :
  let current := getAttribute "data-theme" (elements st root) in
  let st' := onThemeToggleClick pg st in
  (current = Some "dark" ->
     st' = applyTheme pg "light" st
     /\ getAttribute "data-theme" (elements st' root) = Some "light")
  /\ (current <> Some "dark" ->
        st' = applyTheme pg "dark" st
        /\ getAttribute "data-theme" (elements st' root) = Some "dark").
Proof.
  intros current st'. subst current st'. unfold onThemeToggleClick.
  split.
  - intros ->. cbn [JS.strictEq String.eqb]. split; [reflexivity|].
    apply (applyTheme_post "light" st).
  - intros Hne.
    destruct (JS.strictEq (getAttribute "data-theme" (elements st root)) (Some "dark"))
      eqn:E.
    + apply strictEq_true in E. contradiction.
    + split; [reflexivity|]. apply (applyTheme_post "dark" st).
Qed.
End Theme.

(** The markup has an empty [data-theme] attribute: the script applies
    "light", not the attribute. *)
Lemma initial_theme_counterexample :
  ~ initial_theme_is_attribute (Sample.page (Some 79))
      (Sample.state "Ada" "ada@example.org" (Some "") None).
Proof. intros H. vm_compute in H. discriminate H. Qed.

Lemma applyTheme_and_initial_theme_witness :
  let pg := Sample.page (Some 79) in
  let st := Sample.state "Ada" "ada@example.org" (Some "dark") None in
  textContent (elements (applyTheme pg "dark" st) 4) = "🌙"
  /\ initTheme pg st = applyTheme pg "dark" st
  /\ initTheme pg (Sample.state "Ada" "ada@example.org" None None)
     = applyTheme pg "light" (Sample.state "Ada" "ada@example.org" None None).
Proof.
  intros pg st.
  destruct (applyTheme_and_initial_theme pg "dark" st) as (_ & _ & Hicon & Hinit & _).
  destruct (applyTheme_and_initial_theme pg "dark"
              (Sample.state "Ada" "ada@example.org" None None))
    as (_ & _ & _ & _ & Hnone).
  split; [|split].
  - apply (Hicon 4). reflexivity.
  - apply (Hinit 3 "dark"); [reflexivity | reflexivity | discriminate].
  - apply (Hnone 3); [reflexivity | left; reflexivity].
Defined.

Lemma onThemeToggleClick_flips_witness :
  let pg := Sample.page (Some 79) in
  getAttribute "data-theme"
    (elements (onThemeToggleClick pg (Sample.state "" "" (Some "dark") None)) 0)
  = Some "light"
  /\ getAttribute "data-theme"
       (elements (onThemeToggleClick pg (Sample.state "" "" (Some "sepia") None)) 0)
     = Some "dark"
  /\ getAttribute "data-theme"
       (elements (onThemeToggleClick pg (Sample.state "" "" None None)) 0)
     = Some "dark".
Proof.
  intros pg. split; [|split].
  - apply (proj1 (onThemeToggleClick_flips pg (Sample.state "" "" (Some "dark") None))).
    reflexivity.
  - apply (proj2 (onThemeToggleClick_flips pg (Sample.state "" "" (Some "sepia") None))).
    discriminate.
  - apply (proj2 (onThemeToggleClick_flips pg (Sample.state "" "" None None))).
    discriminate.
Defined.

(** ** Smooth scrolling *)

Section Scroll.
Context (pg : Page).

(** C8.  When the hash resolves to an element, [scrollToHash] makes one
    [scrollTo] call whose destination is the document-top position of the
    target minus the header height plus one, and the click listener of
    the document does so for every click on an in-page link whose [href]
    is longer than "#"; when the hash resolves to no element
    [scrollToHash] changes nothing, and when the selector is malformed
    the call raises before any scrolling. *)
Theorem scrollToHash_destination (hash : string) (st : State) :
  let destination target := (documentTop st target - headerHeight pg st + 1)%Q in
  let scrolled target :=
    with_scrollCalls
      (scrollCalls st ++ [(destination target, scrollBehavior pg)])%list st in
  (forall target,
      documentQuerySelector pg hash = JS.Normal (Some target) ->
      scrollToHash pg hash st = JS.Normal (scrolled target)
      /\ scrollCalls (scrolled target)
         = (scrollCalls st ++ [(destination target, scrollBehavior pg)])%list
      /\ forall clicked link,
           closestHashLink pg clicked = Some link ->
           getAttribute "href" (elements st link) = Some hash ->
           1 < String.length hash ->
           onDocumentClick pg (Some clicked) st = JS.Normal (true, scrolled target))
  /\ (documentQuerySelector pg hash = JS.Normal None ->
        scrollToHash pg hash st = JS.Normal st)
  /\ (documentQuerySelector pg hash = JS.Throw ->
        scrollToHash pg hash st = JS.Throw).
Proof.
  intros destination scrolled. subst destination scrolled.
  unfold scrollToHash, documentTop, scrollBehavior.
  split; [|split].
  - intros target Hq. rewrite Hq. split; [reflexivity|]. split; [reflexivity|].
    intros clicked link Hl Hh Hlen. unfold onDocumentClick. cbn [mbind option_bind].
    rewrite Hl, Hh.
    assert (Hne : JS.nonEmpty hash = true).
    { apply nonEmpty_true. intros ->. simpl in Hlen. lia. }
    apply Nat.ltb_lt in Hlen. rewrite Hne, Hlen. cbn [andb].
    unfold scrollToHash. now rewrite Hq.
  - now intros ->.
  - now intros ->.
Qed.
End Scroll.

Lemma scrollToHash_destination_witness :
  let pg := Sample.page (Some 79) in
  let st := Sample.state "Ada" "ada@example.org" None None in
  (exists st', onDocumentClick pg (Some 90) st = JS.Normal (true, st')
               /\ scrollCalls st' = [((640 + 300 - inject_Z 72 + 1)%Q, smooth)])
  /\ scrollToHash pg "#team" st = JS.Normal st
  /\ scrollToHash pg "#2024" st = JS.Throw.
Proof.
  intros pg st.
  destruct (scrollToHash_destination pg "#pricing" st) as (Hfound & _ & _).
  destruct (Hfound 91 eq_refl) as (_ & _ & Hclick).
  split; [|split].
  - eexists. split.
    + apply (Hclick 90 90); [reflexivity | reflexivity | simpl; lia].
    + reflexivity.
  - apply (proj1 (proj2 (scrollToHash_destination pg "#team" st))). reflexivity.
  - apply (proj2 (proj2 (scrollToHash_destination pg "#2024" st))). reflexivity.
Defined.

(** ** Comparison of rationals *)

Lemma Qltb_true (a b : Q) : Qltb a b = true <-> (a < b)%Q.
Proof.
  unfold Qltb. rewrite negb_true_iff. split.
  - intros H. apply Qnot_le_lt. intros Hle. apply Qle_bool_iff in Hle. congruence.
  - intros H. destruct (Qle_bool b a) eqn:E; [|reflexivity].
    apply Qle_bool_iff in E. exfalso. exact (Qlt_not_le _ _ H E).
Qed.

Lemma Qltb_false (a b : Q) : Qltb a b = false <-> (b <= a)%Q.
Proof.
  unfold Qltb. rewrite negb_false_iff. apply Qle_bool_iff.
Qed.

(** ** Doubles *)

Lemma SFcompare_refl sf :
  sf <> SpecFloat.S754_nan -> SpecFloat.SFcompare sf sf = Some Eq.
Proof.
  destruct sf as [s|s| |s m e]; intros H; cbn.
  - reflexivity.
  - now destruct s.
  - contradiction.
  - destruct s; now rewrite Z.compare_refl, Pos.compare_cont_refl.
Qed.

Lemma is_nan_Prim2SF x :
  PrimFloat.is_nan x = true -> FloatOps.Prim2SF x = SpecFloat.S754_nan.
Proof.
  unfold PrimFloat.is_nan. rewrite FloatAxioms.eqb_spec. unfold SpecFloat.SFeqb.
  intros H. destruct (FloatOps.Prim2SF x) as [s|s| |s m e] eqn:E; [| |reflexivity|];
    rewrite SFcompare_refl in H by discriminate; discriminate H.
Qed.

(** NaN is below nothing. *)
Lemma ltb_nan x y : PrimFloat.is_nan x = true -> PrimFloat.ltb x y = false.
Proof.
  intros H. rewrite FloatAxioms.ltb_spec, (is_nan_Prim2SF x H). reflexivity.
Qed.

(** [Math.min(x, 1)] is below 1 exactly when [x] is, and is [x] then. *)
Lemma min_one_ltb x : PrimFloat.ltb (Double.min x 1) 1 = PrimFloat.ltb x 1.
Proof.
  unfold Double.min. change (PrimFloat.is_nan 1) with false. rewrite orb_false_r.
  destruct (PrimFloat.is_nan x) eqn:Hn.
  - now rewrite (ltb_nan x 1 Hn).
  - destruct (PrimFloat.ltb x 1) eqn:E; [exact E|].
    destruct (PrimFloat.ltb 1 x); [reflexivity|].
    destruct (PrimFloat.get_sign x); [exact E | reflexivity].
Qed.

Lemma min_one_below x : PrimFloat.ltb x 1 = true -> Double.min x 1 = x.
Proof.
  intros H. unfold Double.min. change (PrimFloat.is_nan 1) with false.
  rewrite orb_false_r. destruct (PrimFloat.is_nan x) eqn:Hn.
  - rewrite (ltb_nan x 1 Hn) in H. discriminate H.
  - now rewrite H.
Qed.

(** [x - 0] is [x], for every double. *)
Lemma sub_zero x : (x - 0)%float = x.
Proof.
  apply FloatAxioms.Prim2SF_inj. rewrite FloatAxioms.sub_spec.
  change (FloatOps.Prim2SF 0) with (SpecFloat.S754_zero false).
  destruct (FloatOps.Prim2SF x) as [s|s| |s m e]; try reflexivity.
  now destruct s.
Qed.

(** [0 + y] is [y], unless [y] is the negative zero (then it is the
    positive one). *)
Lemma zero_add y :
  FloatOps.Prim2SF y <> SpecFloat.S754_zero true -> (0 + y)%float = y.
Proof.
  intros H. apply FloatAxioms.Prim2SF_inj. rewrite FloatAxioms.add_spec.
  change (FloatOps.Prim2SF 0) with (SpecFloat.S754_zero false).
  destruct (FloatOps.Prim2SF y) as [s|s| |s m e]; try reflexivity.
  destruct s; [contradiction | reflexivity].
Qed.

(** ** Counter animation *)

(** The test of the frame callback bears on the elapsed share of the
    duration: [Math.min] does not change it. *)
Lemma progress_in_flight (startTime t : float) :
  PrimFloat.ltb (progressAt startTime t) 1 = inFlight startTime t.
Proof. unfold progressAt, inFlight. apply min_one_ltb. Qed.

Lemma progressAt_in_flight (startTime t : float) :
  inFlight startTime t = true ->
  progressAt startTime t = ((t - startTime) / 1600)%float.
Proof. unfold progressAt, inFlight. apply min_one_below. Qed.

Section Counter.
Context (pg : Page) (el : node) (target startTime : float).

Local Abbreviation step := (counterStep pg el target 0 startTime).

(** A frame in flight shows the floored interpolation and asks for
    another frame. *)
Lemma counterStep_in_flight t st :
  prefersReducedMotion pg = false ->
  inFlight startTime t = true ->
  step t st
  = (setTextContent el
       (toLocaleString pg
          (Double.floor (0 + target * easing ((t - startTime) / 1600))%float)) st,
     true).
Proof.
  intros Hprm Ht. unfold counterStep.
  rewrite progress_in_flight, Ht, Hprm. cbn [andb negb].
  now rewrite sub_zero, (progressAt_in_flight _ _ Ht).
Qed.

(** A frame that is not in flight shows the target and asks for no other
    frame, whatever [start] was. *)
Lemma counterStep_done start t st :
  inFlight startTime t = false ->
  exists st',
    counterStep pg el target start startTime t st
    = (setTextContent el (toLocaleString pg target) st', false).
Proof.
  intros Ht. unfold counterStep. rewrite progress_in_flight, Ht. cbn [andb]. eauto.
Qed.

Lemma runFrames_final start frames st :
  Exists (fun t => inFlight startTime t = false) frames ->
  textContent
    (elements (runFrames (counterStep pg el target start startTime) frames st) el)
  = toLocaleString pg target.
Proof.
  revert st. induction frames as [|t rest IH]; intros st Hex; [inversion Hex|].
  cbn [runFrames].
  destruct (counterStep pg el target start startTime t st) as [st' again] eqn:E.
  destruct again.
  - apply IH. apply Exists_cons in Hex as [Hlate|Hrest]; [|exact Hrest].
    destruct (counterStep_done start t st Hlate) as [s Hs]. congruence.
  - unfold counterStep in E.
    destruct (PrimFloat.ltb (progressAt startTime t) 1 && negb (prefersReducedMotion pg));
      [discriminate|].
    injection E as <-. now rewrite textContent_setTextContent, Nat.eqb_refl.
Qed.

Lemma runFrames_in_flight earlier t st :
  prefersReducedMotion pg = false ->
  Forall (fun u => inFlight startTime u = true) (earlier ++ [t]) ->
  textContent (elements (runFrames step (earlier ++ [t]) st) el)
  = toLocaleString pg
      (Double.floor (0 + target * easing ((t - startTime) / 1600))%float).
Proof.
  intros Hprm. revert st.
  induction earlier as [|u earlier IH]; intros st Hall.
  - apply Forall_cons in Hall as [Ht _]. cbn [app runFrames].
    rewrite (counterStep_in_flight t st Hprm Ht). cbn [runFrames].
    now rewrite textContent_setTextContent, Nat.eqb_refl.
  - cbn [app] in *. apply Forall_cons in Hall as [Hu Hall]. cbn [runFrames].
    rewrite (counterStep_in_flight u st Hprm Hu). now apply IH.
Qed.

(** The frames that follow the first one that is not in flight are never
    delivered. *)
Lemma runFrames_stops start before t after st :
  Forall (fun u => inFlight startTime u = true) before ->
  inFlight startTime t = false ->
  runFrames (counterStep pg el target start startTime) (before ++ t :: after) st
  = runFrames (counterStep pg el target start startTime) (before ++ [t]) st.
Proof.
  intros Hall Ht. revert st.
  induction Hall as [|u before Hu _ IH]; intros st; cbn [app runFrames].
  - destruct (counterStep_done start t st Ht) as [s ->]. reflexivity.
  - destruct (counterStep pg el target start startTime u st) as [st' again].
    destruct again; [apply IH | reflexivity].
Qed.
End Counter.

Section CounterClaim.
Context (pg : Page).

(** C4.  Numbers are the doubles of the script.  Whatever the frames show
    in between, the counter ends on its target formatted by
    [toLocaleString]: at once under reduced motion, and otherwise as soon
    as a frame arrives for which the elapsed share of the duration,
    [(t - startTime) / 1600], is not below 1.  Until then the frame at
    time [t] shows the floor of [0 + T * e(p)], where the progress [p] is
    that share ([Math.min] leaves it as it is) and the easing [e(p)] is
    [2 p p] when [p] is below one half and [-1 + (4 - 2 p) p] otherwise;
    and [0 + y] is [y] unless [y] is the negative zero. *)
Theorem animateCounter_final (el : node) (startTime : float) (frames : list float)
    (st : State) :
  let target := counterTarget pg (elements st el) in
  let shown := textContent (elements (animateCounter pg el startTime frames st) el) in
  (prefersReducedMotion pg = true
   \/ Exists (fun t => inFlight startTime t = false) frames ->
   shown = toLocaleString pg target)
  /\ (forall earlier t,
        prefersReducedMotion pg = false ->
        frames = (earlier ++ [t])%list ->
        Forall (fun u => inFlight startTime u = true) frames ->
        shown
        = toLocaleString pg
            (Double.floor (0 + target * easing (progressAt startTime t))%float)
        /\ progressAt startTime t = ((t - startTime) / 1600)%float)
  /\ (forall p, PrimFloat.ltb p 0.5 = true -> easing p = (2 * p * p)%float)
  /\ (forall p, PrimFloat.ltb p 0.5 = false ->
        easing p = (-1 + (4 - 2 * p) * p)%float)
  /\ (forall y, FloatOps.Prim2SF y <> SpecFloat.S754_zero true -> (0 + y)%float = y).
Proof.
  intros target shown. subst target shown. unfold animateCounter.
  split; [|split; [|split; [|split]]].
  - intros [Hprm|Hex].
    + rewrite Hprm. now rewrite textContent_setTextContent, Nat.eqb_refl.
    + destruct (prefersReducedMotion pg).
      * now rewrite textContent_setTextContent, Nat.eqb_refl.
      * now apply runFrames_final.
  - intros earlier t Hprm -> Hall. rewrite Hprm.
    assert (Ht : inFlight startTime t = true).
    { apply Forall_app in Hall as [_ Ht]. now apply Forall_cons in Ht as [Ht _]. }
    rewrite (progressAt_in_flight _ _ Ht). split; [|reflexivity].
    now apply runFrames_in_flight.
  - intros p Hp. unfold easing. now rewrite Hp.
  - intros p Hp. unfold easing. now rewrite Hp.
  - exact zero_add.
Qed.
End CounterClaim.

(** On the sample page the counter of target 1200 started at 1000 ms ends
    on 1200 once a frame arrives at 2600 ms, and shows 293 at the frame of
    1560 ms: the product [1200 * 0.24499999999999997] is just below 294. *)
Lemma animateCounter_final_witness :
  let pg := Sample.page (Some 79) in
  let st := Sample.state "Ada" "ada@example.org" None None in
  textContent
    (elements (animateCounter pg 80 1000 [1016; 1800; 2600; 2616]%float st) 80)
  = "1200"
  /\ textContent (elements (animateCounter pg 80 1000 [1016; 1560]%float st) 80)
     = "293".
Proof.
  intros pg st. split.
  - apply (proj1 (animateCounter_final pg 80 1000 [1016; 1800; 2600; 2616]%float st)).
    right. apply Exists_cons_tl, Exists_cons_tl, Exists_cons_hd. vm_compute. reflexivity.
  - destruct (proj1 (proj2 (animateCounter_final pg 80 1000 [1016; 1560]%float st))
                [1016%float] 1560%float eq_refl eq_refl) as [Hshown _].
    + repeat (apply Forall_cons_2; [vm_compute; reflexivity|]). apply Forall_nil_2.
    + refine (eq_trans Hshown _). vm_compute. reflexivity.
Defined.

(** ** Contact form *)

Lemma validity_controlOf e e' : controlOf e = controlOf e' -> validity e = validity e'.
Proof. unfold controlOf, validity. intros [= -> _ -> -> ->]. reflexivity. Qed.

Lemma sameControls_refl st : sameControls st st.
Proof. intros k. reflexivity. Qed.

Lemma sameControls_trans s1 s2 s3 :
  sameControls s1 s2 -> sameControls s2 s3 -> sameControls s1 s3.
Proof. intros H1 H2 k. now rewrite H1. Qed.

Lemma sameControls_value s st k :
  sameControls s st -> value (elements s k) = value (elements st k).
Proof. intros H. specialize (H k). unfold controlOf in H. now injection H. Qed.

Lemma sameControls_defaultValue s st k :
  sameControls s st -> defaultValue (elements s k) = defaultValue (elements st k).
Proof. intros H. specialize (H k). unfold controlOf in H. now injection H. Qed.

Lemma setTextContent_sameControls n t st : sameControls (setTextContent n t st) st.
Proof. intros k. unfold controlOf. cbn. now destruct (Nat.eqb k n). Qed.

Section Form.
Context (pg : Page).

Lemma setFieldError_slot field message st :
  setFieldError pg field message st
  = match errorSlot pg field with
    | Some errorEl => setTextContent errorEl message st
    | None => st
    end.
Proof.
  unfold setFieldError, errorSlot.
  destruct (closest pg field ".form-field") as [c|]; [|reflexivity].
  now destruct (querySelector pg c ".field-error").
Qed.

(** [setFieldError] writes the text of the slot and nothing else. *)
Lemma setFieldError_frame field message st :
  let st' := setFieldError pg field message st in
  sameControls st' st
  /\ fetchCalls st' = fetchCalls st
  /\ clock st' = clock st
  /\ forall k, textContent (elements st' k)
       = if bool_decide (errorSlot pg field = Some k) then message
         else textContent (elements st k).
Proof.
  intros st'. subst st'. rewrite setFieldError_slot.
  destruct (errorSlot pg field) as [e|].
  - refine (conj (setTextContent_sameControls _ _ _) (conj eq_refl (conj eq_refl _))).
    intros k. rewrite textContent_setTextContent.
    destruct (Nat.eqb_spec k e) as [->|Hne].
    + now rewrite bool_decide_eq_true_2.
    + rewrite bool_decide_eq_false_2; [reflexivity | congruence].
  - refine (conj (sameControls_refl _) (conj eq_refl (conj eq_refl _))).
    intros k. now rewrite bool_decide_eq_false_2.
Qed.

Lemma validateField_spec field st :
  exists message,
    validateField pg field st
    = (setFieldError pg field message st, valid (validity (elements st field)))
    /\ (valueMissing (validity (elements st field)) = true ->
        message = "This field is required.").
Proof.
  unfold validateField.
  destruct (valid (validity (elements st field))) eqn:Hv.
  - exists "". split; [reflexivity|]. intros Hm. unfold valid in Hv.
    rewrite Hm in Hv. discriminate.
  - destruct (valueMissing (validity (elements st field))).
    + eexists. split; [reflexivity | reflexivity].
    + destruct (typeMismatch (validity (elements st field)));
        eexists; (split; [reflexivity | discriminate]).
Qed.

Lemma validateStep_spec field st isValid :
  exists message,
    validateStep pg field (st, isValid)
    = (setFieldError pg field message st,
       valid (validity (elements st field)) && isValid)
    /\ (valueMissing (validity (elements st field)) = true ->
        message = "This field is required.").
Proof.
  destruct (validateField_spec field st) as (m & Hm & Hreq).
  exists m. split; [|exact Hreq]. unfold validateStep. rewrite Hm.
  now destruct (valid _).
Qed.

Lemma validateLoop_frame l st isValid :
  let r := JS.forEach (validateStep pg) l (st, isValid) in
  sameControls (fst r) st
  /\ fetchCalls (fst r) = fetchCalls st
  /\ clock (fst r) = clock st
  /\ snd r = forallb (fun f => valid (validity (elements st f))) l && isValid.
Proof.
  revert st isValid. induction l as [|f l IH]; intros st isValid.
  - cbn. auto using sameControls_refl.
  - cbn [JS.forEach forallb].
    destruct (validateStep_spec f st isValid) as (m & -> & _).
    destruct (setFieldError_frame f m st) as (Hc & Hf & Hk & _).
    destruct (IH (setFieldError pg f m st)
                (valid (validity (elements st f)) && isValid))
      as (Hc' & Hf' & Hk' & Hv').
    cbn zeta. split; [|split; [|split]].
    + eauto using sameControls_trans.
    + congruence.
    + congruence.
    + rewrite Hv'. rewrite andb_assoc. f_equal. rewrite andb_comm. f_equal.
      clear -Hc. induction l as [|g l IHl]; [reflexivity|]. cbn [forallb].
      now rewrite IHl, (validity_controlOf _ _ (Hc g)).
Qed.

Lemma validateLoop_required l st isValid field errorEl :
  field ∈ l ->
  errorSlot pg field = Some errorEl ->
  valueMissing (validity (elements st field)) = true ->
  (forall g, g ∈ l -> errorSlot pg g = Some errorEl -> g = field) ->
  textContent (elements (fst (JS.forEach (validateStep pg) l (st, isValid))) errorEl)
  = "This field is required.".
Proof.
  intros Hin Hslot Hmiss Hown.
  apply (forEach_establishes_in (validateStep pg)
           (fun acc => sameControls (fst acc) st)
           (fun acc => textContent (elements (fst acc) errorEl)
                       = "This field is required.") field);
    [exact Hin | apply sameControls_refl | | | ].
  - intros y [s v] _ Hs. destruct (validateStep_spec y s v) as (m & -> & _).
    eapply sameControls_trans; [|exact Hs]. apply (setFieldError_frame y m s).
  - intros [s v] Hs. destruct (validateStep_spec field s v) as (m & -> & Hm).
    cbn [fst] in *.
    rewrite (proj2 (proj2 (proj2 (setFieldError_frame field m s)))).
    rewrite bool_decide_eq_true_2 by exact Hslot.
    apply Hm. rewrite (validity_controlOf _ _ (Hs field)). exact Hmiss.
  - intros y [s v] Hy Hs Ht. destruct (validateStep_spec y s v) as (m & -> & Hm).
    cbn [fst] in *.
    rewrite (proj2 (proj2 (proj2 (setFieldError_frame y m s)))).
    destruct (decide (errorSlot pg y = Some errorEl)) as [Hy'|Hy'].
    + rewrite bool_decide_eq_true_2 by exact Hy'.
      apply Hm. rewrite (Hown y Hy Hy').
      rewrite (validity_controlOf _ _ (Hs field)). exact Hmiss.
    + rewrite bool_decide_eq_false_2 by exact Hy'. exact Ht.
Qed.

Lemma validateAll_unfold st : validateAll pg st = JS.forEach (validateStep pg) (fields pg) (st, true).
Proof. reflexivity. Qed.

(** C5.  When a field of the form is required and empty, a submission
    leaves "This field is required." in the error slot of the field (the
    slot being that of this field only) and returns before any request:
    no [fetch] call is made, whatever the network and the random draw
    would have been. *)
Theorem onSubmit_required_empty (net : FetchBehaviour) (random : Q) (st : State)
    (field errorEl : node) :
  field ∈ fields pg ->
  required (elements st field) = true ->
  value (elements st field) = "" ->
  errorSlot pg field = Some errorEl ->
  (forall g, g ∈ fields pg -> errorSlot pg g = Some errorEl -> g = field) ->
  let st' := onSubmit pg net random st in
  textContent (elements st' errorEl) = "This field is required."
  /\ fetchCalls st' = fetchCalls st
  /\ clock st' = clock st.
Proof.
  intros Hin Hreq Hval Hslot Hown st'. subst st'.
  assert (Hmiss : valueMissing (validity (elements st field)) = true)
    by (unfold validity; cbn; now rewrite Hreq, Hval).
  unfold onSubmit. rewrite validateAll_unfold.
  pose proof (validateLoop_frame (fields pg) st true) as (_ & Hf & Hk & Hv).
  pose proof (validateLoop_required (fields pg) st true field errorEl
                Hin Hslot Hmiss Hown) as Ht.
  destruct (JS.forEach (validateStep pg) (fields pg) (st, true)) as [st1 isValid].
  cbn [fst snd] in *.
  assert (isValid = false) as ->.
  { rewrite Hv, andb_true_r. apply not_true_is_false. intros Hall.
    rewrite forallb_forall in Hall. specialize (Hall field).
    rewrite <- list_elem_of_In in Hall. specialize (Hall Hin).
    unfold valid in Hall. rewrite Hmiss in Hall. discriminate. }
  cbn [negb]. auto.
Qed.
(** *** The simulated fallback *)

Lemma failsOrTimesOut_awaitFetch net :
  failsOrTimesOut net ->
  exists took, awaitFetch net = (took, Rejected) /\ (took <= 1500)%N.
Proof.
  destruct net as [after ok|after|]; cbn [failsOrTimesOut awaitFetch].
  - intros H. apply N.ltb_ge in H. rewrite H. exists 1500%N. split; [reflexivity | lia].
  - intros _. destruct (N.ltb_spec after 1500).
    + exists after. split; [reflexivity | lia].
    + exists 1500%N. split; [reflexivity | lia].
  - intros _. exists 1500%N. split; [reflexivity | lia].
Qed.

(** After a failed request the listener has waited 600 ms more and
    [success] is the outcome of the draw. *)
Lemma tryFetch_rejected net random st :
  failsOrTimesOut net ->
  exists took,
    awaitFetch net = (took, Rejected) /\ (took <= 1500)%N
    /\ tryFetch net random st = (sleep 600 (sleep took st), Qltb 0.3 random).
Proof.
  intros H. destruct (failsOrTimesOut_awaitFetch net H) as (took & Ha & Hle).
  exists took. unfold tryFetch. now rewrite Ha.
Qed.

Lemma resetForm_frame st :
  (forall k, textContent (elements (resetForm pg st) k) = textContent (elements st k))
  /\ (forall k, defaultValue (elements (resetForm pg st) k) = defaultValue (elements st k))
  /\ fetchCalls (resetForm pg st) = fetchCalls st
  /\ clock (resetForm pg st) = clock st.
Proof.
  unfold resetForm.
  apply (forEach_preserves _
           (fun s =>
              (forall k, textContent (elements s k) = textContent (elements st k))
              /\ (forall k, defaultValue (elements s k) = defaultValue (elements st k))
              /\ fetchCalls s = fetchCalls st /\ clock s = clock st)); [auto|].
  intros f s _ (Ht & Hd & Hf & Hc).
  refine (conj _ (conj _ (conj Hf Hc))); intros k; cbn;
    destruct (Nat.eqb k f); cbn; auto.
Qed.

Lemma resetForm_value st field :
  field ∈ fields pg ->
  value (elements (resetForm pg st) field) = defaultValue (elements st field).
Proof.
  intros Hin. unfold resetForm.
  apply (forEach_establishes
           (fun f s => update f (fun e => with_value (defaultValue e) e) s)
           (fun s => forall k, defaultValue (elements s k) = defaultValue (elements st k))
           (fun s => value (elements s field) = defaultValue (elements st field))
           field); auto.
  - intros y s Hs k. cbn. destruct (Nat.eqb k y); cbn; auto.
  - intros s Hs. cbn. rewrite Nat.eqb_refl. cbn. apply Hs.
  - intros y s Hs Hv. cbn. destruct (Nat.eqb field y); cbn; auto.
Qed.

Lemma clearErrors_frame st :
  sameControls (clearFieldErrors pg st) st
  /\ fetchCalls (clearFieldErrors pg st) = fetchCalls st
  /\ clock (clearFieldErrors pg st) = clock st.
Proof.
  unfold clearFieldErrors.
  apply (forEach_preserves _
           (fun s => sameControls s st /\ fetchCalls s = fetchCalls st
                     /\ clock s = clock st)); [auto using sameControls_refl|].
  intros f s _ (Hc & Hf & Hk).
  destruct (setFieldError_frame f "" s) as (Hc' & Hf' & Hk' & _).
  split; [eauto using sameControls_trans | split; congruence].
Qed.

Lemma clearErrors_slot st field errorEl :
  field ∈ fields pg -> errorSlot pg field = Some errorEl ->
  textContent (elements (clearFieldErrors pg st) errorEl) = "".
Proof.
  intros Hin Hslot. unfold clearFieldErrors.
  apply (forEach_establishes
           (fun field st => setFieldError pg field "" st) (fun _ => True)
           (fun s => textContent (elements s errorEl) = "") field); auto.
  - intros s _.
    rewrite (proj2 (proj2 (proj2 (setFieldError_frame field "" s)))).
    now rewrite bool_decide_eq_true_2.
  - intros y s _ Ht.
    rewrite (proj2 (proj2 (proj2 (setFieldError_frame y "" s)))).
    now destruct (bool_decide _).
Qed.

Lemma clearErrors_other st k :
  (forall f, f ∈ fields pg -> errorSlot pg f <> Some k) ->
  textContent (elements (clearFieldErrors pg st) k) = textContent (elements st k).
Proof.
  intros Hk. unfold clearFieldErrors.
  apply (forEach_preserves _
           (fun s => textContent (elements s k) = textContent (elements st k)));
    [reflexivity|].
  intros f s Hf Ht.
  rewrite (proj2 (proj2 (proj2 (setFieldError_frame f "" s)))).
  rewrite bool_decide_eq_false_2; auto.
Qed.

(** C3 (amended).  Let every field be valid, so that the request is
    made, and let the request fail or be aborted by the 1500 ms timer.
    Then the listener waits 600 ms after the failure and [success] is
    true exactly when the random draw exceeds 0.3.  Provided the form has
    a status region: on the failure outcome every field keeps its value
    and the status region shows the failure message; on the success
    outcome every field takes its default value again and the error slot
    of every field is empty (and the status region shows the success
    message if it is not one of these slots). *)
Theorem onSubmit_fallback (net : FetchBehaviour) (random : Q) (st : State)
    (status : node) :
  statusEl pg = Some status ->
  (forall f, f ∈ fields pg -> valid (validity (elements st f)) = true) ->
  failsOrTimesOut net ->
  let st' := onSubmit pg net random st in
  (exists took,
      awaitFetch net = (took, Rejected) /\ (took <= 1500)%N
      /\ (forall s, tryFetch net random s = (sleep 600 (sleep took s), Qltb 0.3 random))
      /\ clock st' = (clock st + took + 600)%N)
  /\ (Qltb 0.3 random = true <-> (3 # 10 < random)%Q)
  /\ (exists request,
        fetchCalls st' = (fetchCalls st ++ [request])%list
        /\ req_url request = "/api/contact")
  /\ ((random <= 3 # 10)%Q ->
        (forall k, value (elements st' k) = value (elements st k))
        /\ textContent (elements st' status)
           = "Something went wrong. Please try again later. (Demo response)")
  /\ ((3 # 10 < random)%Q ->
        (forall f, f ∈ fields pg ->
           value (elements st' f) = defaultValue (elements st f))
        /\ (forall f errorEl, f ∈ fields pg -> errorSlot pg f = Some errorEl ->
              textContent (elements st' errorEl) = "")
        /\ ((forall f, f ∈ fields pg -> errorSlot pg f <> Some status) ->
            textContent (elements st' status)
            = "Message sent! We will reach out shortly. (Demo response)")).
Proof.
  intros Hstatus Hvalid Hnet st'. subst st'.
  destruct (tryFetch_rejected net random st Hnet) as (took & Ha & Hle & _).
  assert (Htry : forall s, tryFetch net random s
                           = (sleep 600 (sleep took s), Qltb 0.3 random))
    by (intros s; unfold tryFetch; now rewrite Ha).
  unfold onSubmit. rewrite validateAll_unfold.
  pose proof (validateLoop_frame (fields pg) st true) as (Hc & Hf & Hk & Hv).
  destruct (JS.forEach (validateStep pg) (fields pg) (st, true)) as [st1 isValid].
  cbn [fst snd] in *.
  assert (isValid = true) as ->.
  { rewrite Hv, andb_true_r. apply forallb_forall. intros f Hin.
    apply Hvalid. now apply list_elem_of_In. }
  cbn [negb]. rewrite Hstatus, Htry.
  assert (Hthreshold : Qltb 0.3 random = true <-> (3 # 10 < random)%Q).
  { rewrite Qltb_true. split; intros H; lra. }
  set (request := mkRequest "/api/contact" _).
  set (st4 := sleep 600 (sleep took _)).
  assert (Hc4 : sameControls st4 st).
  { intros k. rewrite <- (Hc k). unfold st4, controlOf. cbn.
    now destruct (Nat.eqb k status). }
  assert (Hf4 : fetchCalls st4 = (fetchCalls st ++ [request])%list)
    by (change (fetchCalls st4) with (fetchCalls st1 ++ [request])%list;
        now rewrite Hf).
  assert (Hk4 : clock st4 = (clock st + took + 600)%N)
    by (change (clock st4) with (clock st1 + took + 600)%N; now rewrite Hk).
  destruct (Qltb 0.3 random) eqn:Hdraw.
  - set (st5 := setTextContent status _ st4).
    pose proof (resetForm_frame st5) as (Hrt & Hrd & Hrf & Hrk).
    pose proof (clearErrors_frame (resetForm pg st5)) as (Hec & Hef & Hek).
    refine (conj _ (conj Hthreshold (conj _ (conj _ _)))).
    + exists took. repeat split; auto. now rewrite Hek, Hrk.
    + exists request. split; [|reflexivity]. now rewrite Hef, Hrf.
    + intros Hle'. exfalso. pose proof (proj1 Hthreshold eq_refl). lra.
    + intros _. split; [|split].
      * intros f Hin.
        rewrite (sameControls_value _ _ f Hec), (resetForm_value st5 f Hin).
        apply sameControls_defaultValue.
        eapply sameControls_trans; [apply setTextContent_sameControls | exact Hc4].
      * intros f errorEl Hin Hslot. now apply (clearErrors_slot _ f).
      * intros Hno. rewrite clearErrors_other by exact Hno. rewrite Hrt.
        unfold st5. now rewrite textContent_setTextContent, Nat.eqb_refl.
  - refine (conj _ (conj Hthreshold (conj _ (conj _ _)))).
    + exists took. repeat split; auto.
    + exists request. split; [exact Hf4 | reflexivity].
    + intros _. split.
      * intros k. apply sameControls_value.
        eapply sameControls_trans; [apply setTextContent_sameControls | exact Hc4].
      * now rewrite textContent_setTextContent, Nat.eqb_refl.
    + intros Hlt. apply Hthreshold in Hlt. discriminate.
Qed.
End Form.

Lemma onSubmit_required_empty_witness :
  let pg := Sample.page (Some 79) in
  let st := Sample.state "" "ada@example.org" None None in
  textContent (elements (onSubmit pg (Responds 120 true) 0.9 st) 76)
  = "This field is required."
  /\ fetchCalls (onSubmit pg (Responds 120 true) 0.9 st) = [].
Proof.
  intros pg st.
  destruct (onSubmit_required_empty pg (Responds 120 true) 0.9 st 70 76)
    as (Htext & Hfetch & _); try reflexivity.
  - in_list.
  - intros g Hg Hs. apply list_elem_of_In in Hg. simpl in Hg.
    destruct Hg as [<-|[<-|[<-|[]]]]; [reflexivity | discriminate Hs | discriminate Hs].
  - split; [exact Htext | exact Hfetch].
Defined.

(** Without a status region the simulated success resets nothing. *)
Lemma onSubmit_fallback_counterexample :
  ~ success_resets_fields (Sample.page None) (Fails 40) 0.9
      (Sample.state "Ada" "ada@example.org" None None).
Proof.
  intros H. specialize (H I ltac:(reflexivity) 70 ltac:(in_list)).
  vm_compute in H. discriminate H.
Qed.

Lemma onSubmit_fallback_witness :
  let pg := Sample.page (Some 79) in
  let st := Sample.state "Ada" "ada@example.org" None None in
  (value (elements (onSubmit pg Hangs 0.25 st) 70) = "Ada"
   /\ textContent (elements (onSubmit pg Hangs 0.25 st) 79)
      = "Something went wrong. Please try again later. (Demo response)")
  /\ (value (elements (onSubmit pg (Fails 40) 0.9 st) 70) = ""
      /\ textContent (elements (onSubmit pg (Fails 40) 0.9 st) 76) = "")
  /\ clock (onSubmit pg Hangs 0.25 st) = 2100%N.
Proof.
  intros pg st.
  assert (Hvalid : forall f, f ∈ fields pg -> valid (validity (elements st f)) = true).
  { intros f Hf. apply list_elem_of_In in Hf. simpl in Hf.
    destruct Hf as [<-|[<-|[<-|[]]]]; reflexivity. }
  destruct (onSubmit_fallback pg Hangs 0.25 st 79 eq_refl Hvalid I)
    as ((took & Htook & _ & _ & Hclock) & _ & _ & Hfail & _).
  destruct (onSubmit_fallback pg (Fails 40) 0.9 st 79 eq_refl Hvalid I)
    as (_ & _ & _ & _ & Hok).
  split; [|split].
  - destruct Hfail as [Hv Ht]; [vm_compute; discriminate|].
    split; [apply (Hv 70) | exact Ht].
  - destruct Hok as (Hv & Hs & _); [reflexivity|].
    split; [apply (Hv 70); in_list | apply (Hs 70 76); [in_list | reflexivity]].
  - rewrite Hclock. injection Htook as <-. reflexivity.
Defined.

(** * Further properties of the script *)

(** ** Class lists *)

Lemma contains_classList_toggle n c force st k c' :
  contains c' (elements (classList_toggle n c force st) k)
  = if Nat.eqb k n && String.eqb c' c then force else contains c' (elements st k).
Proof.
  unfold contains. cbn. destruct (Nat.eqb k n); cbn; [|reflexivity].
  destruct (String.eqb_spec c' c) as [->|Hne]; destruct force.
  - apply bool_decide_eq_true. set_solver.
  - apply bool_decide_eq_false. set_solver.
  - apply bool_decide_ext. set_solver.
  - apply bool_decide_ext. set_solver.
Qed.

Lemma contains_classList_flip n c st k c' :
  contains c' (elements (classList_flip n c st) k)
  = if Nat.eqb k n && String.eqb c' c then negb (contains c (elements st n))
    else contains c' (elements st k).
Proof. unfold classList_flip. apply contains_classList_toggle. Qed.

Lemma contains_classList_remove n c st k c' :
  contains c' (elements (classList_remove n c st) k)
  = if Nat.eqb k n && String.eqb c' c then false else contains c' (elements st k).
Proof. apply (contains_classList_toggle n c false). Qed.

Lemma contains_classList_add n c st k c' :
  contains c' (elements (classList_add n c st) k)
  = if Nat.eqb k n && String.eqb c' c then true else contains c' (elements st k).
Proof. apply (contains_classList_toggle n c true). Qed.

Lemma contains_setAttribute n name v st k c :
  contains c (elements (setAttribute n name v st) k) = contains c (elements st k).
Proof. unfold contains. cbn. now destruct (Nat.eqb k n). Qed.

Lemma getAttribute_classList_toggle n c force st k a :
  getAttribute a (elements (classList_toggle n c force st) k)
  = getAttribute a (elements st k).
Proof. unfold getAttribute. cbn. now destruct (Nat.eqb k n). Qed.

Lemma getAttribute_classList_remove n c st k a :
  getAttribute a (elements (classList_remove n c st) k)
  = getAttribute a (elements st k).
Proof. apply (getAttribute_classList_toggle n c false). Qed.

(** ** Mobile menu *)

Section MobileMenu.
Context (nav : Chrome).

(** Closing marks the menu closed, whatever the marks said before. *)
Lemma closeMobileMenu_marks st : menuMarks nav (closeMobileMenu nav st) false.
Proof.
  intros toggle menu Ht Hm. unfold closeMobileMenu. rewrite Hm, Ht.
  split; [|split].
  - rewrite getAttribute_classList_remove, getAttribute_setAttribute.
    now rewrite Nat.eqb_refl.
  - rewrite contains_classList_remove. now rewrite Nat.eqb_refl.
  - rewrite contains_classList_remove. cbn [String.eqb Ascii.eqb Bool.eqb].
    rewrite andb_false_r, contains_setAttribute, contains_classList_remove.
    now rewrite Nat.eqb_refl.
Qed.

(** A click on the toggle flips the three marks together. *)
Lemma onNavToggleClick_marks st open :
  menuMarks nav st open -> menuMarks nav (onNavToggleClick nav st) (negb open).
Proof.
  intros H toggle menu Ht Hm. destruct (H toggle menu Ht Hm) as (Ha & Hc & Ho).
  unfold onNavToggleClick. rewrite Ht, Hm, Ha.
  split; [|split].
  - unfold classList_flip.
    rewrite !getAttribute_classList_toggle, getAttribute_setAttribute.
    rewrite Nat.eqb_refl. cbn [andb String.eqb Ascii.eqb Bool.eqb]. now destruct open.
  - rewrite contains_classList_flip. cbn [String.eqb Ascii.eqb Bool.eqb].
    rewrite andb_false_r.
    rewrite contains_classList_flip, Nat.eqb_refl.
    cbn [andb String.eqb Ascii.eqb Bool.eqb].
    now rewrite contains_setAttribute, Hc.
  - rewrite contains_classList_flip, Nat.eqb_refl.
    cbn [andb String.eqb Ascii.eqb Bool.eqb].
    rewrite contains_classList_flip. cbn [String.eqb Ascii.eqb Bool.eqb].
    rewrite andb_false_r.
    now rewrite contains_setAttribute, Ho.
Qed.

Lemma onMobileMenuClick_marks st open onAnchor :
  menuMarks nav st open ->
  menuMarks nav (onMobileMenuClick nav onAnchor st) (if onAnchor then false else open).
Proof.
  intros H toggle menu Ht Hm. unfold onMobileMenuClick. rewrite Ht, Hm.
  destruct onAnchor; [now apply closeMobileMenu_marks | now apply H].
Qed.

Lemma menuStep_marks ev st open :
  menuMarks nav st open ->
  menuMarks nav (menuStep nav ev st)
    (match ev with
     | ToggleClick => negb open
     | MenuClick onAnchor => if onAnchor then false else open
     end).
Proof.
  destruct ev; [apply onNavToggleClick_marks | apply onMobileMenuClick_marks].
Qed.

Lemma forEach_snoc {A S : Type} (f : A -> S -> S) l x (s : S) :
  JS.forEach f (l ++ [x]) s = f x (JS.forEach f l s).
Proof. revert s. induction l as [|y l IH]; intros s; [reflexivity|]. simpl. apply IH. Qed.

(** X1.  Starting with the menu closed, after any sequence of clicks on the
    toggle and inside the menu the three marks of the menu
    ([aria-expanded] and [is-active] on the toggle, [is-open] on the menu)
    agree, and the menu is open exactly when the number of toggle clicks
    since the last click on a link of the menu is odd. *)
Theorem mobileMenu_session (evs : list MenuEvent) (st : State) :
  menuMarks nav st false ->
  menuMarks nav (JS.forEach (menuStep nav) evs st)
    (Nat.odd (togglesSinceClose (rev evs))).
Proof.
  intros Hst. induction evs as [|ev evs IH] using rev_ind; [exact Hst|].
  rewrite forEach_snoc, rev_app_distr. cbn [rev app].
  pose proof (menuStep_marks ev _ _ IH) as H.
  destruct ev as [|[|]]; cbn [togglesSinceClose]; [|exact H|exact H].
  now rewrite Nat.odd_succ, <- Nat.negb_odd.
Qed.

(** X2.  [closeMobileMenu] marks the menu closed whatever the state was
    (also when the marks disagreed), and it is idempotent: closing a second
    time leaves every element and the rest of the state as they are. *)
Theorem closeMobileMenu_idempotent (st : State) :
  let closed := closeMobileMenu nav st in
  menuMarks nav closed false
  /\ (forall k, elements (closeMobileMenu nav closed) k = elements closed k)
  /\ activeElement (closeMobileMenu nav closed) = activeElement st
  /\ localStorage (closeMobileMenu nav closed) = localStorage st.
Proof.
  intros closed. subst closed. split; [apply closeMobileMenu_marks|].
  split; [|split].
  - intros k. unfold closeMobileMenu.
    destruct (mobileMenu nav) as [menu|]; [|reflexivity].
    destruct (navToggle nav) as [toggle|]; cbn; eqb_cases;
      try reflexivity; try congruence;
      unfold with_classList, with_attributes; cbn; f_equal;
      first [apply insert_insert_eq | set_solver].
  - unfold closeMobileMenu.
    destruct (mobileMenu nav) as [menu|]; [|reflexivity].
    now destruct (navToggle nav).
  - unfold closeMobileMenu.
    destruct (mobileMenu nav) as [menu|]; [|reflexivity].
    now destruct (navToggle nav).
Qed.
End MobileMenu.

Lemma mobileMenu_session_witness :
  let st := JS.forEach (menuStep Demo.nav)
              [ToggleClick; MenuClick false; ToggleClick; ToggleClick] (Demo.state None) in
  contains "is-open" (elements st 6) = true
  /\ getAttribute "aria-expanded" (elements st 5) = Some "true".
Proof.
  intros st.
  assert (H0 : menuMarks Demo.nav (Demo.state None) false).
  { intros toggle menu [= <-] [= <-]. vm_compute. auto. }
  destruct (mobileMenu_session Demo.nav
              [ToggleClick; MenuClick false; ToggleClick; ToggleClick]
              (Demo.state None) H0 5 6 eq_refl eq_refl) as (Ha & _ & Ho).
  split; [exact Ho|].
  apply strictEq_true. exact Ha.
Defined.

(** ** Focus trap of the mobile menu *)

Lemma activeIs_true st el : activeIs st el = true <-> activeElement st = Some el.
Proof.
  unfold activeIs. destruct (activeElement st) as [a|]; [|split; discriminate].
  rewrite Nat.eqb_eq. split; congruence.
Qed.

(** X3.  While the mobile menu is open, Tab on the last focusable element
    of the menu moves the focus to the first and Shift+Tab on the first
    moves it to the last, both with the default action prevented; Tab
    anywhere else and Shift+Tab anywhere else are left to the browser.
    While the menu is closed, and for every other key, the listener does
    nothing. *)
Theorem focusTrap_wraps (nav : Chrome) (st : State) (menu toggle first : node)
    (rest : list node) :
  mobileMenu nav = Some menu ->
  navToggle nav = Some toggle ->
  menuFocusable nav = first :: rest ->
  let last := List.last rest first in
  (forall key shift,
      key <> "Tab" \/ contains "is-open" (elements st menu) = false ->
      onTrapKeydown nav key shift st = (false, st))
  /\ (contains "is-open" (elements st menu) = true ->
      (activeElement st = Some last ->
       onTrapKeydown nav "Tab" false st = (true, focus first st))
      /\ (activeElement st = Some first ->
          onTrapKeydown nav "Tab" true st = (true, focus last st))
      /\ (activeElement st <> Some last ->
          onTrapKeydown nav "Tab" false st = (false, st))
      /\ (activeElement st <> Some first ->
          onTrapKeydown nav "Tab" true st = (false, st))).
Proof.
  intros Hm Ht Hf last. unfold onTrapKeydown. rewrite Hm, Ht, Hf. fold last.
  split.
  - intros key shift [Hkey|Hclosed].
    + destruct (String.eqb_spec key "Tab"); [contradiction | reflexivity].
    + rewrite Hclosed. now destruct (String.eqb key "Tab").
  - intros Hopen. rewrite Hopen. cbn [String.eqb Ascii.eqb Bool.eqb negb andb].
    repeat split.
    + intros Ha. apply activeIs_true in Ha. now rewrite Ha.
    + intros Ha. apply activeIs_true in Ha. now rewrite Ha.
    + intros Ha. destruct (activeIs st last) eqn:E; [|reflexivity].
      apply activeIs_true in E. contradiction.
    + intros Ha. destruct (activeIs st first) eqn:E; [|reflexivity].
      apply activeIs_true in E. contradiction.
Qed.

Lemma focusTrap_wraps_witness :
  let opened := onNavToggleClick Demo.nav (Demo.state (Some 102)) in
  activeElement (snd (onTrapKeydown Demo.nav "Tab" false opened)) = Some 100
  /\ onTrapKeydown Demo.nav "Tab" false (Demo.state (Some 102))
     = (false, Demo.state (Some 102)).
Proof.
  intros opened.
  destruct (focusTrap_wraps Demo.nav opened 6 5 100 [101; 102] eq_refl eq_refl eq_refl)
    as (_ & Hopen).
  destruct (focusTrap_wraps Demo.nav (Demo.state (Some 102)) 6 5 100 [101; 102]
              eq_refl eq_refl eq_refl) as (Hclosed & _).
  split.
  - destruct Hopen as (Hlast & _); [vm_compute; reflexivity|].
    rewrite Hlast; [vm_compute; reflexivity | reflexivity].
  - apply Hclosed. right. vm_compute. reflexivity.
Defined.

(** ** Scroll-triggered reveal *)

Lemma revealEntry_spec (pg : Page) (el : node) (isIntersecting : bool) (st : State)
    (observed : gset node) :
  let r := revealEntry pg (el, isIntersecting) (st, observed) in
  (forall k c,
      contains c (elements (fst r) k)
      = if isIntersecting && Nat.eqb k el && String.eqb c "is-visible" then true
        else contains c (elements st k))
  /\ snd r = (if isIntersecting then observed ∖ {[el]} else observed)
  /\ (forall k, getAttribute "data-animate-delay" (elements (fst r) k)
               = getAttribute "data-animate-delay" (elements st k)).
Proof.
  intros r. subst r. unfold revealEntry.
  destruct isIntersecting; [|auto].
  cbn [fst snd andb].
  set (st1 := match getAttribute "data-animate-delay" (elements st el) with
              | Some delay =>
                  if JS.nonEmpty delay then setTransitionDelay pg el delay st else st
              | None => st
              end).
  assert (H1 : forall k, classList (elements st1 k) = classList (elements st k)
                         /\ attributes (elements st1 k) = attributes (elements st k)).
  { intros k. unfold st1.
    destruct (getAttribute "data-animate-delay" (elements st el)) as [d|]; [|auto].
    destruct (JS.nonEmpty d); [|auto]. unfold setTransitionDelay.
    destruct (parsedIntText pg d); [|auto]. cbn. now destruct (Nat.eqb k el). }
  split; [|split; [reflexivity|]].
  - intros k c. rewrite contains_classList_add. unfold contains.
    now rewrite (proj1 (H1 k)).
  - intros k. unfold getAttribute. rewrite <- (proj2 (H1 k)).
    cbn. now destruct (Nat.eqb k el).
Qed.

(** X4.  After a callback of the reveal observer every element reported as
    intersecting carries [is-visible] and is no longer observed; an element
    that was visible stays visible; the observer observes no element it
    did not observe before; and the elements not reported as intersecting
    keep all their classes and stay observed or not as they were. *)
Theorem revealCallback_one_shot (pg : Page) (entries : list (node * bool))
    (st : State) (observed : gset node) :
  let r := revealCallback pg entries (st, observed) in
  (forall el, (el, true) ∈ entries ->
     contains "is-visible" (elements (fst r) el) = true /\ el ∉ snd r)
  /\ (forall k, contains "is-visible" (elements st k) = true ->
        contains "is-visible" (elements (fst r) k) = true)
  /\ snd r ⊆ observed
  /\ (forall k, (k, true) ∉ entries ->
        (forall c, contains c (elements (fst r) k) = contains c (elements st k))
        /\ (k ∈ snd r <-> k ∈ observed)).
Proof.
  intros r. subst r. unfold revealCallback.
  revert st observed. induction entries as [|[el b] entries IH]; intros st observed.
  - cbn. repeat split; auto; set_solver.
  - cbn [JS.forEach].
    pose proof (revealEntry_spec pg el b st observed) as (Hc & Ho & _).
    destruct (revealEntry pg (el, b) (st, observed)) as [st1 obs1]. cbn [fst snd] in *.
    destruct (IH st1 obs1) as (IH1 & IH2 & IH3 & IH4). clear IH.
    split; [|split; [|split]].
    + intros x Hx. apply elem_of_cons in Hx as [[= <- <-]|Hx]; [|now apply IH1].
      split.
      * apply IH2. rewrite Hc, Nat.eqb_refl. reflexivity.
      * intros Hin. apply IH3 in Hin. rewrite Ho in Hin. set_solver.
    + intros k Hk. apply IH2. rewrite Hc, Hk. now destruct (_ && _).
    + rewrite Ho in IH3. destruct b; set_solver.
    + intros k Hk. apply not_elem_of_cons in Hk as [Hne Hk].
      destruct (IH4 k Hk) as [Hcl Hobs]. split.
      * intros c. rewrite Hcl, Hc.
        destruct b; [|reflexivity]. destruct (Nat.eqb_spec k el) as [->|]; [|reflexivity].
        congruence.
      * rewrite Hobs, Ho. destruct b; [|reflexivity].
        assert (k <> el) by congruence. set_solver.
Qed.

(** X5.  At load, under reduced motion every animated element is visible at
    once and the observer observes nothing; otherwise the load changes no
    element and exactly the animated elements are observed. *)
Theorem initReveal_reduced_motion (pg : Page) (nav : Chrome) (st : State) :
  let r := initReveal pg nav st in
  (prefersReducedMotion pg = true ->
     (forall el, el ∈ animatedElements nav ->
        contains "is-visible" (elements (fst r) el) = true)
     /\ snd r = ∅)
  /\ (prefersReducedMotion pg = false ->
        fst r = st /\ forall el, el ∈ snd r <-> el ∈ animatedElements nav).
Proof.
  intros r. subst r. unfold initReveal.
  destruct (animatedElements nav) as [|a l] eqn:E.
  - split; intros _; split; auto; set_solver.
  - split; intros ->; cbn [fst snd].
    + split; [|reflexivity]. intros el Hel.
      apply (forEach_establishes
               (fun el st => classList_add el "is-visible" st) (fun _ => True)
               (fun s => contains "is-visible" (elements s el) = true) el); auto.
      * intros s _. rewrite contains_classList_add. now rewrite Nat.eqb_refl.
      * intros y s _ Hs. rewrite contains_classList_add, Hs. now destruct (_ && _).
    + split; [reflexivity|]. intros el. now rewrite elem_of_list_to_set.
Qed.

Lemma revealCallback_one_shot_witness :
  let r := revealCallback (Sample.page None) [(110, true); (112, false)]
             (initReveal (Sample.page None) Demo.nav (Demo.state None)) in
  contains "is-visible" (elements (fst r) 110) = true /\ (110 ∉ snd r) /\ (112 ∈ snd r).
Proof.
  intros r.
  destruct (revealCallback_one_shot (Sample.page None) [(110, true); (112, false)]
              (Demo.state None)
              (list_to_set [110; 111; 112])) as (Hvis & _ & _ & Hkeep).
  destruct (Hvis 110) as [H1 H2]; [apply list_elem_of_here|].
  split; [exact H1|]. split; [exact H2|].
  apply (Hkeep 112).
  - intros H. apply list_elem_of_In in H. simpl in H.
    destruct H as [H|[H|[]]]; discriminate H.
  - set_solver.
Defined.

Lemma initReveal_reduced_motion_witness :
  fst (initReveal (Sample.page None) Demo.nav (Demo.state None)) = Demo.state None
  /\ 111 ∈ snd (initReveal (Sample.page None) Demo.nav (Demo.state None)).
Proof.
  destruct (proj2 (initReveal_reduced_motion (Sample.page None) Demo.nav (Demo.state None))
              eq_refl) as [Hst Hobs].
  split; [exact Hst|]. apply Hobs. in_list.
Defined.

(** ** The frames of the counter *)

Lemma runFrames_preserves (P : State -> Prop) step frames st :
  P st -> (forall t s, P s -> P (fst (step t s))) -> P (runFrames step frames st).
Proof.
  intros Hst Hstep. revert st Hst.
  induction frames as [|t rest IH]; intros st Hst; [exact Hst|].
  cbn [runFrames]. specialize (Hstep t st Hst).
  destruct (step t st) as [st' again]. cbn [fst] in Hstep.
  destruct again; auto.
Qed.

(** X8.  [animateCounter] writes the text of its element and nothing else:
    every other element, every other property of the element and the rest
    of the state are left as they were, whatever the frames. *)
Theorem animateCounter_frame (pg : Page) (el : node) (startTime : float)
    (frames : list float) (st : State) :
  let st' := animateCounter pg el startTime frames st in
  (forall k,
      elements st' k
      = if Nat.eqb k el then with_textContent (textContent (elements st' el)) (elements st k)
        else elements st k)
  /\ activeElement st' = activeElement st
  /\ localStorage st' = localStorage st
  /\ scrollCalls st' = scrollCalls st
  /\ fetchCalls st' = fetchCalls st.
Proof.
  intros st'. subst st'. unfold animateCounter.
  set (P := fun s : State =>
    (forall k, elements s k
               = if Nat.eqb k el
                 then with_textContent (textContent (elements s el)) (elements st k)
                 else elements st k)
    /\ activeElement s = activeElement st /\ localStorage s = localStorage st
    /\ scrollCalls s = scrollCalls st /\ fetchCalls s = fetchCalls st).
  assert (Hset : forall s t, P s -> P (setTextContent el t s)).
  { intros s t (He & Ha & Hl & Hs & Hf). split; [|cbn; auto].
    intros k. cbn. rewrite Nat.eqb_refl. destruct (Nat.eqb_spec k el) as [->|Hne].
    - rewrite (He el), Nat.eqb_refl. reflexivity.
    - rewrite (He k). now apply Nat.eqb_neq in Hne as ->. }
  assert (H0 : P st).
  { split; [|auto]. intros k. destruct (Nat.eqb_spec k el) as [->|]; reflexivity. }
  change (P (if prefersReducedMotion pg
             then setTextContent el
                    (toLocaleString pg (counterTarget pg (elements st el))) st
             else runFrames
                    (counterStep pg el (counterTarget pg (elements st el))
                       (if prefersReducedMotion pg
                        then counterTarget pg (elements st el) else 0%float) startTime)
                    frames st)).
  destruct (prefersReducedMotion pg); [now apply Hset|].
  apply runFrames_preserves; [exact H0|].
  intros t s Hs. unfold counterStep.
  destruct (PrimFloat.ltb (progressAt startTime t) 1 && negb (prefersReducedMotion pg));
    cbn [fst]; [apply Hset; exact Hs | apply Hset, Hset; exact Hs].
Qed.

(** X26.  The animation stops at the first frame that is not in flight:
    the frames after it are never delivered and change nothing.  Under
    reduced motion no frame is requested at all. *)
Theorem animateCounter_stops (pg : Page) (el : node) (startTime t : float)
    (before after : list float) (st : State) :
  Forall (fun u => inFlight startTime u = true) before ->
  inFlight startTime t = false ->
  animateCounter pg el startTime (before ++ t :: after) st
  = animateCounter pg el startTime (before ++ [t]) st
  /\ (prefersReducedMotion pg = true ->
      animateCounter pg el startTime (before ++ t :: after) st
      = animateCounter pg el startTime [] st).
Proof.
  intros Hall Ht. unfold animateCounter.
  destruct (prefersReducedMotion pg); [auto|].
  split; [|discriminate]. now apply runFrames_stops.
Qed.

Lemma animateCounter_stops_witness :
  let pg := Sample.page None in
  animateCounter pg 80 1000 [1016; 1560; 2600; 2616; 2632]%float (Demo.state None)
  = animateCounter pg 80 1000 [1016; 1560; 2600]%float (Demo.state None).
Proof.
  intros pg.
  apply (proj1 (animateCounter_stops pg 80 1000 2600 [1016; 1560]%float
                  [2616; 2632]%float (Demo.state None)
                  ltac:(repeat (apply Forall_cons_2; [vm_compute; reflexivity|]);
                        apply Forall_nil_2)
                  ltac:(vm_compute; reflexivity))).
Defined.

(** ** Keyboard navigation of the accordion *)

Lemma indexOf_nth (l : list node) (i : nat) (t : node) :
  NoDup l -> l !! i = Some t -> indexOf t l = Z.of_nat i.
Proof.
  intros Hnd. revert i. induction Hnd as [|x l Hx Hnd IH]; intros [|i] H;
    try discriminate; cbn in H; cbn [indexOf].
  - injection H as ->. now rewrite Nat.eqb_refl.
  - destruct (Nat.eqb_spec x t) as [->|Hne].
    + exfalso. apply Hx. eapply list_elem_of_lookup_2. exact H.
    + rewrite (IH i H). destruct (Z.ltb_spec (Z.of_nat i) 0); lia.
Qed.

Lemma focusAt_nth (l : list node) (j : nat) (x : node) (st : State) :
  l !! j = Some x -> focusAt l (Z.of_nat j) st = JS.Normal (focus x st).
Proof.
  intros H. unfold focusAt. destruct (Z.ltb_spec (Z.of_nat j) 0); [lia|].
  now rewrite Nat2Z.id, H.
Qed.

Lemma last_default (y : node) (r : list node) (d d' : node) :
  List.last (y :: r) d = List.last (y :: r) d'.
Proof.
  revert y. induction r as [|z r IH]; intros y; [reflexivity|].
  change (List.last (z :: r) d = List.last (z :: r) d'). apply IH.
Qed.

Lemma lookup_last (first : node) (rest : list node) :
  (first :: rest) !! length rest = Some (List.last rest first).
Proof.
  revert first. induction rest as [|x rest IH]; intros first; [reflexivity|].
  cbn [length]. change ((first :: x :: rest) !! S (length rest))
    with ((x :: rest) !! length rest).
  rewrite IH. f_equal. destruct rest as [|y r]; [reflexivity|].
  change (List.last (x :: y :: r) first) with (List.last (y :: r) first).
  apply last_default.
Qed.

Section AccordionKeys.
Context (pg : Page).

Local Abbreviation triggers := (accordionTriggers pg).

Lemma arrowDown_focus st i t next :
  NoDup triggers -> triggers !! i = Some t ->
  triggers !! ((i + 1) mod length triggers) = Some next ->
  onAccordionKeydown pg t "ArrowDown" st = JS.Normal (true, focus next st).
Proof.
  intros Hnd Hi Hnext. unfold onAccordionKeydown. cbn [String.eqb Ascii.eqb Bool.eqb].
  rewrite (indexOf_nth _ _ _ Hnd Hi).
  pose proof (lookup_lt_Some _ _ _ Hi) as Hlt.
  replace (Z.of_nat i + 1)%Z with (Z.of_nat (i + 1)) by lia.
  rewrite Z.rem_mod_nonneg by lia. rewrite <- Nat2Z.inj_mod.
  now rewrite (focusAt_nth _ _ _ st Hnext).
Qed.

Lemma arrowUp_focus st i t prev :
  NoDup triggers -> triggers !! i = Some t ->
  triggers !! ((i + length triggers - 1) mod length triggers) = Some prev ->
  onAccordionKeydown pg t "ArrowUp" st = JS.Normal (true, focus prev st).
Proof.
  intros Hnd Hi Hprev. unfold onAccordionKeydown. cbn [String.eqb Ascii.eqb Bool.eqb].
  rewrite (indexOf_nth _ _ _ Hnd Hi).
  pose proof (lookup_lt_Some _ _ _ Hi) as Hlt.
  replace (Z.of_nat i - 1 + Z.of_nat (length triggers))%Z
    with (Z.of_nat (i + length triggers - 1)) by lia.
  rewrite Z.rem_mod_nonneg by lia. rewrite <- Nat2Z.inj_mod.
  now rewrite (focusAt_nth _ _ _ st Hprev).
Qed.

Lemma succ_pred_mod i n : i < n -> ((i + 1) mod n + n - 1) mod n = i.
Proof.
  intros Hlt. destruct (Nat.eq_dec (i + 1) n) as [E|E].
  - rewrite E, Nat.Div0.mod_same. cbn [Nat.add]. rewrite Nat.mod_small; lia.
  - rewrite (Nat.mod_small (i + 1)) by lia.
    replace (i + 1 + n - 1) with (i + 1 * n) by lia.
    rewrite Nat.Div0.mod_add. apply Nat.mod_small. lia.
Qed.

Lemma pred_succ_mod i n : i < n -> ((i + n - 1) mod n + 1) mod n = i.
Proof.
  intros Hlt. destruct (Nat.eq_dec i 0) as [->|E].
  - cbn [Nat.add]. rewrite (Nat.mod_small (n - 1)) by lia.
    replace (n - 1 + 1) with n by lia. apply Nat.Div0.mod_same.
  - replace (i + n - 1) with (i - 1 + 1 * n) by lia.
    rewrite Nat.Div0.mod_add. rewrite (Nat.mod_small (i - 1)) by lia.
    replace (i - 1 + 1) with i by lia. apply Nat.mod_small. lia.
Qed.

(** X9.  On the i-th of n distinct triggers, ArrowDown focuses trigger
    (i + 1) mod n and ArrowUp trigger (i + n - 1) mod n, so the focus wraps
    around at both ends; the listener never raises and prevents the default
    action; and the two keys undo each other: ArrowUp on the trigger that
    ArrowDown reached comes back, and the other way round. *)
Theorem accordion_arrow_keys (st : State) (i : nat) (t : node) :
  NoDup triggers -> triggers !! i = Some t ->
  let n := length triggers in
  exists next prev,
    triggers !! ((i + 1) mod n) = Some next
    /\ triggers !! ((i + n - 1) mod n) = Some prev
    /\ onAccordionKeydown pg t "ArrowDown" st = JS.Normal (true, focus next st)
    /\ onAccordionKeydown pg t "ArrowUp" st = JS.Normal (true, focus prev st)
    /\ (forall st', onAccordionKeydown pg next "ArrowUp" st'
                    = JS.Normal (true, focus t st'))
    /\ (forall st', onAccordionKeydown pg prev "ArrowDown" st'
                    = JS.Normal (true, focus t st')).
Proof.
  intros Hnd Hi n. pose proof (lookup_lt_Some _ _ _ Hi) as Hlt. fold n in Hlt.
  assert (Hj : (i + 1) mod n < n) by (apply Nat.mod_upper_bound; lia).
  assert (Hk : (i + n - 1) mod n < n) by (apply Nat.mod_upper_bound; lia).
  destruct (lookup_lt_is_Some_2 triggers _ Hj) as [next Hnext].
  destruct (lookup_lt_is_Some_2 triggers _ Hk) as [prev Hprev].
  exists next, prev.
  refine (conj Hnext (conj Hprev (conj _ (conj _ (conj _ _))))).
  - now apply (arrowDown_focus st i).
  - now apply (arrowUp_focus st i).
  - intros st'. apply (arrowUp_focus st' _ _ _ Hnd Hnext).
    fold n. now rewrite (succ_pred_mod i n Hlt).
  - intros st'. apply (arrowDown_focus st' _ _ _ Hnd Hprev).
    fold n. now rewrite (pred_succ_mod i n Hlt).
Qed.

(** X10.  With at least one trigger, Home focuses the first trigger and End
    the last, from whatever trigger the key comes; every key other than
    the two arrows, Home and End leaves the state alone and the default
    action to the browser. *)
Theorem accordion_home_end (t first : node) (rest : list node) (st : State) :
  triggers = first :: rest ->
  onAccordionKeydown pg t "Home" st = JS.Normal (true, focus first st)
  /\ onAccordionKeydown pg t "End" st = JS.Normal (true, focus (List.last rest first) st)
  /\ (forall key,
        key <> "ArrowDown" -> key <> "ArrowUp" -> key <> "Home" -> key <> "End" ->
        onAccordionKeydown pg t key st = JS.Normal (false, st)).
Proof.
  intros E. unfold onAccordionKeydown. rewrite E.
  cbn [String.eqb Ascii.eqb Bool.eqb]. split; [reflexivity|]. split.
  - replace (Z.of_nat (length (first :: rest)) - 1)%Z with (Z.of_nat (length rest))
      by (cbn [length]; lia).
    rewrite (focusAt_nth _ (length rest) (List.last rest first)); [reflexivity|].
    apply lookup_last.
  - intros key H1 H2 H3 H4.
    destruct (String.eqb_spec key "ArrowDown"); [contradiction|].
    destruct (String.eqb_spec key "ArrowUp"); [contradiction|].
    destruct (String.eqb_spec key "Home"); [contradiction|].
    destruct (String.eqb_spec key "End"); [contradiction | reflexivity].
Qed.
End AccordionKeys.

Lemma accordion_arrow_keys_witness :
  onAccordionKeydown (Sample.page None) 54 "ArrowDown" (Demo.state None)
  = JS.Normal (true, focus 50 (Demo.state None))
  /\ onAccordionKeydown (Sample.page None) 50 "ArrowUp" (Demo.state None)
     = JS.Normal (true, focus 54 (Demo.state None)).
Proof.
  assert (Hnd : NoDup (accordionTriggers (Sample.page None))).
  { cbn. repeat constructor; not_in_list. }
  destruct (accordion_arrow_keys (Sample.page None) (Demo.state None) 2 54 Hnd eq_refl)
    as (next & prev & Hn & _ & Hdown & _ & Hback & _).
  injection Hn as <-. split; [exact Hdown | apply Hback].
Defined.

Lemma accordion_home_end_witness :
  onAccordionKeydown (Sample.page None) 52 "End" (Demo.state None)
  = JS.Normal (true, focus 54 (Demo.state None)).
Proof.
  apply (accordion_home_end (Sample.page None) 52 50 [52; 54] (Demo.state None) eq_refl).
Defined.

(** ** Opening and closing the lightbox *)

Section LightboxHandlers.
Context (pg : Page).

Lemma openLightbox_hidden img st lb image caption :
  lightbox pg = Some lb -> lightboxImage pg = Some image ->
  lightboxCaption pg = Some caption ->
  getAttribute "aria-hidden" (elements (openLightbox pg img st) lb) = Some "false".
Proof.
  intros Hlb Him Hcap. unfold openLightbox. rewrite Hlb, Him, Hcap.
  rewrite getAttribute_setStyle.
  assert (H : forall s, getAttribute "aria-hidden"
                          (elements (setAttribute lb "aria-hidden" "false" s) lb)
                        = Some "false")
    by (intros s; now rewrite getAttribute_setAttribute, Nat.eqb_refl).
  destruct (lightboxClose pg) as [close|]; [|apply H].
  unfold focus. match goal with |- context [if ?c then _ else _] => destruct c end; apply H.
Qed.

(** X11.  The Escape key closes the lightbox exactly when it is open: for
    any other key, and while [aria-hidden] of the lightbox is not "false",
    the listener changes nothing; while it is open Escape does what the
    close control does, after which the lightbox is no longer open and a
    second Escape changes nothing.  The lightbox is open after
    [openLightbox], and a click inside the overlay that is not on the
    overlay itself changes nothing. *)
Theorem escape_closes_when_open (st : State) :
  (forall key, key <> "Escape" \/ lightboxIsOpen pg st = false ->
     onDocumentKeydown pg key st = st)
  /\ (lightboxIsOpen pg st = true ->
      onDocumentKeydown pg "Escape" st = hideLightbox pg st
      /\ lightboxIsOpen pg (hideLightbox pg st) = false
      /\ onDocumentKeydown pg "Escape" (hideLightbox pg st) = hideLightbox pg st)
  /\ (forall img lb image caption,
        lightbox pg = Some lb -> lightboxImage pg = Some image ->
        lightboxCaption pg = Some caption ->
        lightboxIsOpen pg (openLightbox pg img st) = true)
  /\ (forall target lb, lightbox pg = Some lb -> target <> lb ->
        onLightboxClick pg target st = st).
Proof.
  split; [|split; [|split]].
  - intros key [Hkey|Hclosed]; unfold onDocumentKeydown.
    + destruct (String.eqb_spec key "Escape"); [contradiction | reflexivity].
    + rewrite Hclosed. now rewrite andb_false_r.
  - intros Hopen.
    assert (Hclosed : lightboxIsOpen pg (hideLightbox pg st) = false).
    { unfold lightboxIsOpen in *. destruct (lightbox pg) as [lb|] eqn:Hlb; [|discriminate].
      destruct (hideLightbox_post pg st lb Hlb) as (_ & Hh & _). now rewrite Hh. }
    unfold onDocumentKeydown. rewrite Hopen, Hclosed. auto.
  - intros img lb image caption Hlb Him Hcap. unfold lightboxIsOpen. rewrite Hlb.
    now rewrite (openLightbox_hidden img st lb image caption Hlb Him Hcap).
  - intros target lb Hlb Hne. unfold onLightboxClick. rewrite Hlb.
    now apply Nat.eqb_neq in Hne as ->.
Qed.

(** X12.  [openLightbox] shows the activated thumbnail.  From a thumbnail
    that is an image the lightbox image takes, as its [src], the URL that
    the [src] attribute of the thumbnail resolves to (the empty string
    when the thumbnail has none) and, as its [alt], the [alt] attribute
    (or the empty string); from an element without these properties it
    takes the text "undefined".  The caption takes the [data-lightbox]
    text, the empty text when there is none.  Enter and Space on a gallery
    image open the lightbox with the default action prevented; other keys
    do nothing. *)
Theorem openLightbox_shows (img : node) (st : State) (lb image caption : node) :
  lightbox pg = Some lb -> lightboxImage pg = Some image ->
  lightboxCaption pg = Some caption ->
  let st' := openLightbox pg img st in
  getAttribute "src" (elements st' image)
  = Some (if reflectsSrc pg img then
            match getAttribute "src" (elements st img) with
            | Some v => resolveURL pg v
            | None => ""
            end
          else "undefined")
  /\ getAttribute "alt" (elements st' image)
     = Some (if reflectsAlt pg img
             then default "" (getAttribute "alt" (elements st img))
             else "undefined")
  /\ textContent (elements st' caption)
     = default "" (dataset (elements st img) !! "lightbox")
  /\ onGalleryKeydown pg img "Enter" st = (true, st')
  /\ onGalleryKeydown pg img " " st = (true, st')
  /\ (forall key, key <> "Enter" -> key <> " " ->
        onGalleryKeydown pg img key st = (false, st)).
Proof.
  intros Hlb Him Hcap st'. subst st'.
  assert (Hgal : forall key, key <> "Enter" -> key <> " " ->
                   onGalleryKeydown pg img key st = (false, st)).
  { intros key H1 H2. unfold onGalleryKeydown.
    destruct (String.eqb_spec key "Enter"); [contradiction|].
    destruct (String.eqb_spec key " "); [contradiction | reflexivity]. }
  refine (conj _ (conj _ (conj _ (conj eq_refl (conj eq_refl Hgal))))).
  all: unfold openLightbox; rewrite Hlb, Him, Hcap.
  all: set (s0 := with_lastFocusedElement (activeElement st) st).
  all: set (s1 := setAttribute image "src" (JS.toPropertyKey (src_of pg s0 img)) s0).
  all: set (s2 := setAttribute image "alt" (JS.toPropertyKey (alt_of pg s1 img)) s1).
  all: set (s3 := setTextContent caption _ s2).
  all: set (s4 := setAttribute lb "aria-hidden" "false" s3).
  all: assert (Hfocus : forall a k,
         getAttribute a (elements (match lightboxClose pg with
                                   | Some close => focus close s4
                                   | None => s4 end) k)
         = getAttribute a (elements s4 k)
         /\ textContent (elements (match lightboxClose pg with
                                   | Some close => focus close s4
                                   | None => s4 end) k)
            = textContent (elements s4 k))
       by (intros a k; destruct (lightboxClose pg) as [close|]; [|auto];
           unfold focus; destruct (focusable _); auto).
  - rewrite getAttribute_setStyle, (proj1 (Hfocus _ _)). unfold s4, s3, s2, s1.
    rewrite getAttribute_setAttribute, getAttribute_setTextContent,
      !getAttribute_setAttribute, Nat.eqb_refl.
    cbn [String.eqb Ascii.eqb Bool.eqb andb]. rewrite andb_false_r.
    unfold src_of. change (elements s0 img) with (elements st img).
    now destruct (reflectsSrc pg img).
  - rewrite getAttribute_setStyle, (proj1 (Hfocus _ _)). unfold s4, s3, s2.
    rewrite getAttribute_setAttribute, getAttribute_setTextContent,
      getAttribute_setAttribute, Nat.eqb_refl.
    cbn [String.eqb Ascii.eqb Bool.eqb andb]. rewrite andb_false_r. f_equal.
    unfold alt_of. destruct (reflectsAlt pg img); [|reflexivity].
    cbn [JS.toPropertyKey]. unfold s1. rewrite getAttribute_setAttribute.
    cbn [String.eqb Ascii.eqb Bool.eqb]. now rewrite andb_false_r.
  - rewrite textContent_setStyle, (proj2 (Hfocus "id" _)). unfold s4, s3.
    rewrite textContent_setAttribute, textContent_setTextContent, Nat.eqb_refl.
    assert (Hd : dataset (elements s2 img) = dataset (elements st img)).
    { unfold s2, s1. cbn. now destruct (Nat.eqb img image). }
    rewrite Hd. destruct (dataset (elements st img) !! "lightbox") as [c|]; [|reflexivity].
    cbn [default]. destruct (String.eqb_spec c "") as [->|Hne]; [reflexivity|].
    apply nonEmpty_true in Hne. now rewrite Hne.
Qed.

(** X13.  Opening the lightbox while it is already open forgets the element
    to return to: the remembered element is then the close control, and
    closing leaves the focus on the close control whatever had the focus
    before the first opening. *)
Theorem reopening_forgets_focus (first second : node) (st : State)
    (lb image caption close : node) :
  lightbox pg = Some lb -> lightboxImage pg = Some image ->
  lightboxCaption pg = Some caption -> lightboxClose pg = Some close ->
  focusable (elements st close) = true ->
  isHTMLElement (elements st close) = true ->
  let reopened := openLightbox pg second (openLightbox pg first st) in
  lastFocusedElement reopened = Some close
  /\ activeElement (hideLightbox pg reopened) = Some close.
Proof.
  intros Hlb Him Hcap Hclose Hf Hh reopened. subst reopened.
  destruct (openLightbox_focus pg first st lb image caption Hlb Him Hcap) as [_ Ha1].
  rewrite Hclose, Hf in Ha1.
  destruct (openLightbox_kind pg first st close) as [Hk1 Hf1].
  destruct (openLightbox_focus pg second (openLightbox pg first st) lb image caption
              Hlb Him Hcap) as [Hl2 Ha2].
  rewrite Hclose, Hf1, Hf in Ha2. rewrite Ha1 in Hl2.
  destruct (openLightbox_kind pg second (openLightbox pg first st) close) as [Hk2 Hf2].
  split; [exact Hl2|].
  destruct (hideLightbox_post pg (openLightbox pg second (openLightbox pg first st)) lb Hlb)
    as (Hact & _).
  rewrite Hact, Hl2, Hk2, Hf2, Hk1, Hf1, Hh, Hf. reflexivity.
Qed.
End LightboxHandlers.

Lemma openLightbox_shows_witness :
  let st' := openLightbox (Sample.page None) 64 (Demo.state None) in
  getAttribute "src" (elements st' 61)
  = Some "https://luminaflow.example/assets/flow.svg"
  /\ textContent (elements st' 62) = "The flow editor"
  /\ getAttribute "src" (elements (openLightbox (Sample.page None) 65 (Demo.state None)) 61)
     = Some "undefined".
Proof.
  intros st'.
  destruct (openLightbox_shows (Sample.page None) 64 (Demo.state None) 60 61 62
              eq_refl eq_refl eq_refl) as (Hsrc & _ & Hcap & _).
  destruct (openLightbox_shows (Sample.page None) 65 (Demo.state None) 60 61 62
              eq_refl eq_refl eq_refl) as (Hsvg & _).
  refine (conj (eq_trans Hsrc _) (conj Hcap (eq_trans Hsvg _))); vm_compute; reflexivity.
Defined.

Lemma escape_closes_when_open_witness :
  let opened := openLightbox (Sample.page None) 64 (Demo.state (Some 64)) in
  lightboxIsOpen (Sample.page None) opened = true
  /\ activeElement (onDocumentKeydown (Sample.page None) "Escape" opened) = Some 64
  /\ onDocumentKeydown (Sample.page None) "Escape" (Demo.state (Some 64))
     = Demo.state (Some 64).
Proof.
  intros opened.
  destruct (escape_closes_when_open (Sample.page None) (Demo.state (Some 64)))
    as (Hnoop & _ & Hopen & _).
  destruct (escape_closes_when_open (Sample.page None) opened) as (_ & Hesc & _).
  specialize (Hopen 64 60 61 62 eq_refl eq_refl eq_refl).
  destruct (Hesc Hopen) as (Heq & _).
  split; [exact Hopen|]. split.
  - rewrite Heq. vm_compute. reflexivity.
  - apply Hnoop. right. vm_compute. reflexivity.
Defined.

Lemma reopening_forgets_focus_witness :
  activeElement
    (hideLightbox (Sample.page None)
       (openLightbox (Sample.page None) 64
          (openLightbox (Sample.page None) 64 (Demo.state (Some 64)))))
  = Some 63.
Proof.
  apply (reopening_forgets_focus (Sample.page None) 64 64 (Demo.state (Some 64))
           60 61 62 63 eq_refl eq_refl eq_refl eq_refl eq_refl eq_refl).
Defined.

(** ** Clicks on in-page links *)

(** X14.  A click never changes an element or the focus, and it scrolls at
    most once: the listener either leaves the state alone without
    preventing the default action (no link under the click, or a link whose
    [href] is "#" alone) or prevents it and adds at most one [scrollTo]
    call; it raises only when the [href] is a malformed selector. *)
Theorem onDocumentClick_effects (pg : Page) (target : option node) (st : State) :
  match onDocumentClick pg target st with
  | JS.Normal (prevented, st') =>
      (prevented = false -> st' = st)
      /\ elements st' = elements st
      /\ activeElement st' = activeElement st
      /\ (st' = st
          \/ exists top, scrollCalls st' = (scrollCalls st ++ [(top, scrollBehavior pg)])%list)
  | JS.Throw =>
      exists clicked link hash,
        target = Some clicked /\ closestHashLink pg clicked = Some link
        /\ getAttribute "href" (elements st link) = Some hash
        /\ documentQuerySelector pg hash = JS.Throw
  end
  /\ (target ≫= closestHashLink pg = None ->
      onDocumentClick pg target st = JS.Normal (false, st))
  /\ (forall clicked link,
        target = Some clicked -> closestHashLink pg clicked = Some link ->
        getAttribute "href" (elements st link) = Some "#" ->
        onDocumentClick pg target st = JS.Normal (false, st)).
Proof.
  split; [|split].
  - unfold onDocumentClick.
    destruct target as [clicked|]; cbn [mbind option_bind]; [|auto 6].
    destruct (closestHashLink pg clicked) as [link|] eqn:Hl; [|auto 6].
    destruct (getAttribute "href" (elements st link)) as [hash|] eqn:Hh; [|auto 6].
    destruct (JS.nonEmpty hash && Nat.ltb 1 (String.length hash)); [|auto 6].
    unfold scrollToHash, scrollBehavior.
    destruct (documentQuerySelector pg hash) as [[el|]|] eqn:Hq.
    + split; [discriminate|]. split; [reflexivity|]. split; [reflexivity|].
      right. eexists. reflexivity.
    + split; [discriminate|]. auto.
    + exists clicked, link, hash. auto.
  - intros H. unfold onDocumentClick. now rewrite H.
  - intros clicked link -> Hl Hh. unfold onDocumentClick. cbn [mbind option_bind].
    now rewrite Hl, Hh.
Qed.

Lemma onDocumentClick_effects_witness :
  onDocumentClick (Sample.page None) (Some 91) (Demo.state None)
  = JS.Normal (false, Demo.state None).
Proof.
  apply (proj1 (proj2 (onDocumentClick_effects (Sample.page None) (Some 91)
                         (Demo.state None)))).
  reflexivity.
Defined.

(** ** More on the contact form *)

Section FormOutcomes.
Context (pg : Page).

(** What the success branch of the submit listener leaves behind. *)
Lemma successBranch_effects (status : node) (message : string) (s : State) :
  let s' := clearFieldErrors pg (resetForm pg (setTextContent status message s)) in
  (forall f, f ∈ fields pg -> value (elements s' f) = defaultValue (elements s f))
  /\ (forall f errorEl, f ∈ fields pg -> errorSlot pg f = Some errorEl ->
        textContent (elements s' errorEl) = "")
  /\ ((forall f, f ∈ fields pg -> errorSlot pg f <> Some status) ->
      textContent (elements s' status) = message)
  /\ fetchCalls s' = fetchCalls s
  /\ clock s' = clock s.
Proof.
  intros s'. subst s'. set (s5 := setTextContent status message s).
  pose proof (resetForm_frame pg s5) as (Hrt & Hrd & Hrf & Hrk).
  pose proof (clearErrors_frame pg (resetForm pg s5)) as (Hec & Hef & Hek).
  split; [|split; [|split; [|split]]].
  - intros f Hin.
    rewrite (sameControls_value _ _ f Hec), (resetForm_value pg s5 f Hin).
    apply sameControls_defaultValue, setTextContent_sameControls.
  - intros f errorEl Hin Hslot. now apply (clearErrors_slot pg _ f).
  - intros Hno. rewrite (clearErrors_other pg) by exact Hno. rewrite Hrt.
    unfold s5. now rewrite textContent_setTextContent, Nat.eqb_refl.
  - now rewrite Hef, Hrf.
  - now rewrite Hek, Hrk.
Qed.

(** The submit listener, once the validation loop has run. *)
Lemma onSubmit_validated (net : FetchBehaviour) (random : Q) (st : State) :
  exists st1,
    sameControls st1 st /\ fetchCalls st1 = fetchCalls st /\ clock st1 = clock st
    /\ validateAll pg st
       = (st1, forallb (fun f => valid (validity (elements st f))) (fields pg)).
Proof.
  pose proof (validateLoop_frame pg (fields pg) st true) as (Hc & Hf & Hk & Hv).
  rewrite validateAll_unfold.
  destruct (JS.forEach (validateStep pg) (fields pg) (st, true)) as [st1 isValid].
  cbn [fst snd] in *. exists st1. rewrite andb_true_r in Hv. now subst.
Qed.

Lemma allValid_forallb (st : State) :
  (forall f, f ∈ fields pg -> valid (validity (elements st f)) = true) <->
  forallb (fun f => valid (validity (elements st f))) (fields pg) = true.
Proof.
  rewrite forallb_forall. split; intros H f Hf; apply H; now apply list_elem_of_In.
Qed.

(** X15.  A submission of valid fields that the server answers in time with
    a 2xx status, on a form with a status region: every field takes its
    default value again, the error slot of every field is empty, the
    status region shows the success message (if it is not one of these
    slots), the time spent is the time of the answer with no further wait,
    and the random draw plays no part. *)
Theorem onSubmit_server_success (after : N) (random : Q) (st : State) (status : node) :
  statusEl pg = Some status ->
  (forall f, f ∈ fields pg -> valid (validity (elements st f)) = true) ->
  (after < 1500)%N ->
  let st' := onSubmit pg (Responds after true) random st in
  (forall f, f ∈ fields pg -> value (elements st' f) = defaultValue (elements st f))
  /\ (forall f errorEl, f ∈ fields pg -> errorSlot pg f = Some errorEl ->
        textContent (elements st' errorEl) = "")
  /\ ((forall f, f ∈ fields pg -> errorSlot pg f <> Some status) ->
      textContent (elements st' status)
      = "Message sent! We will reach out shortly. (Demo response)")
  /\ clock st' = (clock st + after)%N
  /\ (forall random', onSubmit pg (Responds after true) random' st = st').
Proof.
  intros Hstatus Hvalid Hafter st'. subst st'.
  destruct (onSubmit_validated (Responds after true) random st)
    as (st1 & Hc & Hf & Hk & Hv).
  apply allValid_forallb in Hvalid. rewrite Hvalid in Hv.
  apply N.ltb_lt in Hafter.
  assert (Hrun : forall r, onSubmit pg (Responds after true) r st
    = clearFieldErrors pg (resetForm pg
        (setTextContent status "Message sent! We will reach out shortly. (Demo response)"
           (sleep after
              (with_fetchCalls
                 (fetchCalls (setTextContent status "Sending…" st1)
                  ++ [mkRequest "/api/contact"
                        {| fd_name := trim (value (elements st1 (nameControl pg)));
                           fd_email := trim (value (elements st1 (emailControl pg)));
                           fd_message := trim (value (elements st1 (messageControl pg)))
                        |}])%list
                 (setTextContent status "Sending…" st1)))))).
  { intros r. unfold onSubmit. rewrite Hv. cbn [negb]. rewrite Hstatus.
    unfold tryFetch, awaitFetch. now rewrite Hafter. }
  rewrite Hrun.
  match goal with
  | |- context [setTextContent status ?m (sleep after ?s3)] =>
      pose proof (successBranch_effects status m (sleep after s3))
        as (Hval & Hslot & Hst & _ & Hclock);
      set (s4 := sleep after s3) in *
  end.
  assert (Hc4 : sameControls s4 st).
  { intros k. rewrite <- (Hc k). unfold s4, controlOf. cbn.
    now destruct (Nat.eqb k status). }
  refine (conj _ (conj Hslot (conj Hst (conj _ _)))).
  - intros f Hin. rewrite (Hval f Hin). now apply sameControls_defaultValue.
  - rewrite Hclock. change (clock s4) with (clock st1 + after)%N. now rewrite Hk.
  - intros r. apply Hrun.
Qed.

(** X16.  A submission of valid fields that the server answers in time with
    a status that is not 2xx, on a form with a status region: the failure
    message is shown and every field keeps its value; there is no further
    wait and no random draw. *)
Theorem onSubmit_server_error (after : N) (random : Q) (st : State) (status : node) :
  statusEl pg = Some status ->
  (forall f, f ∈ fields pg -> valid (validity (elements st f)) = true) ->
  (after < 1500)%N ->
  let st' := onSubmit pg (Responds after false) random st in
  textContent (elements st' status)
  = "Something went wrong. Please try again later. (Demo response)"
  /\ (forall k, value (elements st' k) = value (elements st k))
  /\ clock st' = (clock st + after)%N
  /\ (forall random', onSubmit pg (Responds after false) random' st = st').
Proof.
  intros Hstatus Hvalid Hafter st'. subst st'.
  destruct (onSubmit_validated (Responds after false) random st)
    as (st1 & Hc & Hf & Hk & Hv).
  apply allValid_forallb in Hvalid. rewrite Hvalid in Hv.
  apply N.ltb_lt in Hafter.
  assert (Hrun : forall r, onSubmit pg (Responds after false) r st
    = setTextContent status
        "Something went wrong. Please try again later. (Demo response)"
        (sleep after
           (with_fetchCalls
              (fetchCalls (setTextContent status "Sending…" st1)
               ++ [mkRequest "/api/contact"
                     {| fd_name := trim (value (elements st1 (nameControl pg)));
                        fd_email := trim (value (elements st1 (emailControl pg)));
                        fd_message := trim (value (elements st1 (messageControl pg)))
                     |}])%list
              (setTextContent status "Sending…" st1)))).
  { intros r. unfold onSubmit. rewrite Hv. cbn [negb]. rewrite Hstatus.
    unfold tryFetch, awaitFetch. now rewrite Hafter. }
  rewrite Hrun. split; [|split; [|split]].
  - now rewrite textContent_setTextContent, Nat.eqb_refl.
  - intros k. rewrite <- (sameControls_value _ _ k Hc). cbn.
    destruct (Nat.eqb k status); cbn; now destruct (Nat.eqb k status).
  - match goal with
    | |- clock ?s = _ => change (clock s) with (clock st1 + after)%N
    end. now rewrite Hk.
  - intros r. apply Hrun.
Qed.
End FormOutcomes.

Section FormRequests.
Context (pg : Page).

Lemma tryFetch_frame (net : FetchBehaviour) (random : Q) (s : State) :
  let r := tryFetch net random s in
  elements (fst r) = elements s
  /\ fetchCalls (fst r) = fetchCalls s
  /\ (clock s <= clock (fst r) <= clock s + 2100)%N.
Proof.
  intros r. subst r. unfold tryFetch, awaitFetch.
  destruct net as [after ok|after|].
  - destruct (N.ltb_spec after 1500); cbn; repeat split; lia.
  - destruct (N.ltb_spec after 1500); cbn; repeat split; lia.
  - cbn. repeat split; lia.
Qed.

Lemma formDataOf_sameControls s st : sameControls s st -> formDataOf pg s = formDataOf pg st.
Proof.
  intros H. unfold formDataOf. now rewrite !(sameControls_value _ _ _ H).
Qed.

(** The state a submission of valid fields ends in. *)
Lemma onSubmit_valid_shape (net : FetchBehaviour) (random : Q) (st : State) :
  (forall f, f ∈ fields pg -> valid (validity (elements st f)) = true) ->
  exists (st1 s4 : State) (success : bool),
    sameControls st1 st /\ sameControls s4 st
    /\ fetchCalls s4 = (fetchCalls st ++ [mkRequest "/api/contact" (formDataOf pg st)])%list
    /\ (clock st <= clock s4 <= clock st + 2100)%N
    /\ onSubmit pg net random st
       = match statusEl pg with
         | Some status =>
             if success then
               clearFieldErrors pg (resetForm pg
                 (setTextContent status
                    "Message sent! We will reach out shortly. (Demo response)" s4))
             else
               setTextContent status
                 "Something went wrong. Please try again later. (Demo response)" s4
         | None => s4
         end.
Proof.
  intros Hvalid.
  destruct (onSubmit_validated pg net random st) as (st1 & Hc & Hf & Hk & Hv).
  apply allValid_forallb in Hvalid. rewrite Hvalid in Hv.
  set (s2 := match statusEl pg with
             | Some status => setTextContent status "Sending…" st1
             | None => st1
             end).
  set (s3 := with_fetchCalls
               (fetchCalls s2 ++ [mkRequest "/api/contact" (formDataOf pg st1)])%list s2).
  pose proof (tryFetch_frame net random s3) as (He & Hfc & Hck).
  destruct (tryFetch net random s3) as [s4 success] eqn:Htry. cbn [fst] in *.
  assert (Hc2 : sameControls s2 st).
  { unfold s2. destruct (statusEl pg);
      [eapply sameControls_trans; [apply setTextContent_sameControls | exact Hc] | exact Hc]. }
  exists st1, s4, success. split; [exact Hc|]. split; [|split; [|split]].
  - intros k. rewrite He. apply Hc2.
  - rewrite Hfc. change (fetchCalls s3)
      with (fetchCalls s2 ++ [mkRequest "/api/contact" (formDataOf pg st1)])%list.
    rewrite (formDataOf_sameControls _ _ Hc). f_equal.
    unfold s2. destruct (statusEl pg); [|exact Hf].
    change (fetchCalls (setTextContent ?n ?t st1)) with (fetchCalls st1). exact Hf.
  - assert (Hk3 : clock s3 = clock st).
    { change (clock s3) with (clock s2). unfold s2. destruct (statusEl pg); exact Hk. }
    lia.
  - unfold onSubmit. rewrite Hv. cbn [negb]. fold s2.
    change (with_fetchCalls _ s2) with s3. now rewrite Htry.
Qed.

(** X17.  The submit listener makes one request exactly when every field is
    valid, whatever the network and the draw do afterwards: the request
    goes to /api/contact with the trimmed values of the three named
    controls.  When a field is invalid it makes none, spends no time and
    changes no value. *)
Theorem onSubmit_request (net : FetchBehaviour) (random : Q) (st : State) :
  let st' := onSubmit pg net random st in
  ((forall f, f ∈ fields pg -> valid (validity (elements st f)) = true) ->
   fetchCalls st'
   = (fetchCalls st ++ [mkRequest "/api/contact" (formDataOf pg st)])%list)
  /\ (forall f, f ∈ fields pg -> valid (validity (elements st f)) = false ->
        fetchCalls st' = fetchCalls st /\ clock st' = clock st
        /\ forall k, value (elements st' k) = value (elements st k)).
Proof.
  intros st'. subst st'. split.
  - intros Hvalid.
    destruct (onSubmit_valid_shape net random st Hvalid)
      as (st1 & s4 & success & _ & _ & Hf & _ & ->).
    destruct (statusEl pg) as [status|]; [|exact Hf].
    destruct success; [|exact Hf].
    now rewrite (proj1 (proj2 (proj2 (proj2 (successBranch_effects pg status _ s4))))).
  - intros f Hin Hinv.
    destruct (onSubmit_validated pg net random st) as (st1 & Hc & Hf & Hk & Hv).
    assert (Hall : forallb (fun f => valid (validity (elements st f))) (fields pg) = false).
    { apply not_true_is_false. intros H.
      pose proof (proj2 (allValid_forallb pg st) H f Hin) as H'.
      rewrite H' in Hinv. discriminate. }
    unfold onSubmit. rewrite Hv, Hall. cbn [negb].
    split; [exact Hf|]. split; [exact Hk|].
    intros k. now apply sameControls_value.
Qed.

(** X18.  The submit listener never waits more than 2100 ms in all (1500 ms
    for the request and 600 ms after its failure) and never makes more than
    one request; when the fields are valid and the server answers in time,
    the time it spends is the time of the answer. *)
Theorem onSubmit_time_bound (net : FetchBehaviour) (random : Q) (st : State) :
  let st' := onSubmit pg net random st in
  (clock st <= clock st' <= clock st + 2100)%N
  /\ (length (fetchCalls st') <= length (fetchCalls st) + 1)%nat
  /\ ((forall f, f ∈ fields pg -> valid (validity (elements st f)) = true) ->
      forall after ok, net = Responds after ok -> (after < 1500)%N ->
      clock st' = (clock st + after)%N).
Proof.
  intros st'. subst st'.
  destruct (forallb (fun f => valid (validity (elements st f))) (fields pg)) eqn:Hall.
  - pose proof Hall as Hall'.
    pose proof (proj2 (allValid_forallb pg st) Hall') as Hvalid.
    destruct (onSubmit_valid_shape net random st Hvalid)
      as (st1 & s4 & success & _ & _ & Hf & Hk & Hrun).
    assert (Hfinal : fetchCalls (onSubmit pg net random st) = fetchCalls s4
                     /\ clock (onSubmit pg net random st) = clock s4).
    { rewrite Hrun. destruct (statusEl pg) as [status|]; [|auto].
      destruct success; [|auto].
      pose proof (successBranch_effects pg status
                    "Message sent! We will reach out shortly. (Demo response)" s4)
        as (_ & _ & _ & H1 & H2). auto. }
    destruct Hfinal as [-> Hclock]. rewrite Hclock.
    split; [exact Hk|]. split; [rewrite Hf, length_app; cbn; lia|].
    intros _ after ok -> Hafter.
    destruct (onSubmit_validated pg (Responds after ok) random st)
      as (st1' & _ & _ & Hk1 & Hv).
    rewrite Hall' in Hv.
    rewrite <- Hclock. unfold onSubmit. rewrite Hv. cbn [negb].
    unfold tryFetch, awaitFetch. apply N.ltb_lt in Hafter. rewrite Hafter.
    destruct (statusEl pg) as [status|].
    + destruct ok.
      * match goal with
        | |- clock (clearFieldErrors pg (resetForm pg (setTextContent _ ?m ?s))) = _ =>
            rewrite (proj2 (proj2 (proj2 (proj2 (successBranch_effects pg status m s)))));
            change (clock s) with (clock st1' + after)%N
        end. now rewrite Hk1.
      * match goal with
        | |- clock ?s = _ => change (clock s) with (clock st1' + after)%N
        end. now rewrite Hk1.
    + match goal with
      | |- clock ?s = _ => change (clock s) with (clock st1' + after)%N
      end. now rewrite Hk1.
  - destruct (onSubmit_validated pg net random st) as (st1 & Hc & Hf & Hk & Hv).
    unfold onSubmit. rewrite Hv, Hall. cbn [negb]. rewrite Hf, Hk.
    split; [lia|]. split; [lia|].
    intros Hvalid. apply (proj1 (allValid_forallb pg st)) in Hvalid. congruence.
Qed.

(** X19.  Validating one field (as every input event does) writes the
    message of the field's validity into the field's own error slot: the
    empty message for a valid field, the required message for a missing
    value whatever else is wrong, then the type message, then the generic
    one.  It returns whether the field is valid and changes neither a
    value, nor another element, nor anything else of the state. *)
Theorem validateField_reports (field errorEl : node) (st : State) :
  errorSlot pg field = Some errorEl ->
  let v := validity (elements st field) in
  let r := validateField pg field st in
  snd r = valid v
  /\ textContent (elements (fst r) errorEl) = validationMessage v
  /\ (valueMissing v = true -> validationMessage v = "This field is required.")
  /\ sameControls (fst r) st
  /\ (forall k, k <> errorEl -> elements (fst r) k = elements st k)
  /\ fetchCalls (fst r) = fetchCalls st
  /\ activeElement (fst r) = activeElement st.
Proof.
  intros Hslot v r. subst v r.
  assert (Hr : validateField pg field st
               = (setTextContent errorEl
                    (validationMessage (validity (elements st field))) st,
                  valid (validity (elements st field)))).
  { unfold validateField, validationMessage. rewrite !setFieldError_slot, Hslot.
    destruct (valid _); [reflexivity|]. destruct (valueMissing _); [reflexivity|].
    now destruct (typeMismatch _). }
  rewrite Hr. cbn [fst snd].
  refine (conj eq_refl (conj _ (conj _ (conj _ (conj _ (conj eq_refl eq_refl)))))).
  - now rewrite textContent_setTextContent, Nat.eqb_refl.
  - intros Hm. unfold validationMessage, valid. now rewrite Hm.
  - apply setTextContent_sameControls.
  - intros k Hne. cbn. now apply Nat.eqb_neq in Hne as ->.
Qed.
End FormRequests.

Lemma onSubmit_server_success_witness :
  let st' := onSubmit (Sample.page (Some 79)) (Responds 120 true) 0.1
               (Sample.state "Ada" "ada@example.org" None None) in
  value (elements st' 70) = ""
  /\ textContent (elements st' 79)
     = "Message sent! We will reach out shortly. (Demo response)"
  /\ clock st' = 120%N.
Proof.
  intros st'.
  destruct (onSubmit_server_success (Sample.page (Some 79)) 120 0.1
              (Sample.state "Ada" "ada@example.org" None None) 79)
    as (Hval & _ & Hstatus & Hclock & _).
  - reflexivity.
  - intros f Hf. apply list_elem_of_In in Hf. simpl in Hf.
    destruct Hf as [<-|[<-|[<-|[]]]]; reflexivity.
  - reflexivity.
  - split; [apply (Hval 70); in_list|]. split; [|exact Hclock].
    apply Hstatus. intros f Hf. apply list_elem_of_In in Hf. simpl in Hf.
    destruct Hf as [<-|[<-|[<-|[]]]]; discriminate.
Defined.

Lemma onSubmit_server_error_witness :
  let st' := onSubmit (Sample.page (Some 79)) (Responds 120 false) 0.9
               (Sample.state "Ada" "ada@example.org" None None) in
  value (elements st' 70) = "Ada"
  /\ textContent (elements st' 79)
     = "Something went wrong. Please try again later. (Demo response)".
Proof.
  intros st'.
  destruct (onSubmit_server_error (Sample.page (Some 79)) 120 0.9
              (Sample.state "Ada" "ada@example.org" None None) 79)
    as (Hstatus & Hval & _).
  - reflexivity.
  - intros f Hf. apply list_elem_of_In in Hf. simpl in Hf.
    destruct Hf as [<-|[<-|[<-|[]]]]; reflexivity.
  - reflexivity.
  - split; [apply (Hval 70) | exact Hstatus].
Defined.

Lemma onSubmit_request_witness :
  fetchCalls (onSubmit (Sample.page (Some 79)) Hangs 0.5
                (Sample.state "  Ada " "ada@example.org" None None))
  = [mkRequest "/api/contact" (mkFormData "Ada" "ada@example.org" "Hello")]
  /\ fetchCalls (onSubmit (Sample.page (Some 79)) Hangs 0.5
                   (Sample.state "Ada" "nobody" None None)) = [].
Proof.
  split.
  - apply (proj1 (onSubmit_request (Sample.page (Some 79)) Hangs 0.5
                    (Sample.state "  Ada " "ada@example.org" None None))).
    intros f Hf. apply list_elem_of_In in Hf. simpl in Hf.
    destruct Hf as [<-|[<-|[<-|[]]]]; reflexivity.
  - apply (proj2 (onSubmit_request (Sample.page (Some 79)) Hangs 0.5
                    (Sample.state "Ada" "nobody" None None)) 71);
      [in_list | reflexivity].
Defined.

Lemma onSubmit_time_bound_witness :
  clock (onSubmit (Sample.page (Some 79)) (Responds 120 true) 0.5
           (Sample.state "Ada" "ada@example.org" None None)) = 120%N.
Proof.
  apply (proj2 (proj2 (onSubmit_time_bound (Sample.page (Some 79)) (Responds 120 true)
                         0.5 (Sample.state "Ada" "ada@example.org" None None))))
    with (ok := true); [|reflexivity|reflexivity].
  intros f Hf. apply list_elem_of_In in Hf. simpl in Hf.
  destruct Hf as [<-|[<-|[<-|[]]]]; reflexivity.
Defined.

Lemma validateField_reports_witness :
  textContent
    (elements (fst (validateField (Sample.page (Some 79)) 71
                      (Sample.state "Ada" "nobody" None None))) 77)
  = "Please enter a valid value.".
Proof.
  apply (proj1 (proj2 (validateField_reports (Sample.page (Some 79)) 71 77
                         (Sample.state "Ada" "nobody" None None) eq_refl))).
Defined.

(** ** Sessions of the theme toggle *)

Section ThemeSessions.
Context (pg : Page).

Lemma onThemeToggleClick_applies st :
  onThemeToggleClick pg st
  = applyTheme pg
      (themeName (negb (JS.strictEq
                          (getAttribute "data-theme" (elements st (documentElement pg)))
                          (Some "dark")))) st.
Proof. unfold onThemeToggleClick. now destruct (JS.strictEq _ _). Qed.

(** X20.  After one or more clicks on the theme toggle the root attribute,
    the stored preference and the icon agree on one theme, which is
    "light" or "dark": the theme flips with every click, starting from
    dark when the attribute was "dark" and from light for any other
    attribute value.  Two clicks give back the theme of one click before. *)
Theorem themeToggle_session (n : nat) (st : State) :
  let dark0 :=
    JS.strictEq (getAttribute "data-theme" (elements st (documentElement pg)))
      (Some "dark") in
  let st' := clickThemeToggle pg (S n) st in
  let theme := themeName (darkAfter dark0 (S n)) in
  getAttribute "data-theme" (elements st' (documentElement pg)) = Some theme
  /\ localStorage st' !! "luminaflow-theme" = Some theme
  /\ (forall icon, themeIcon pg = Some icon ->
        textContent (elements st' icon) = if darkAfter dark0 (S n) then "🌙" else "☀️")
  /\ darkAfter dark0 (S (S n)) = darkAfter dark0 n.
Proof.
  cbv zeta. revert st. induction n as [|n IH]; intros st.
  - cbn [clickThemeToggle]. rewrite onThemeToggleClick_applies.
    destruct (applyTheme_post pg
                (themeName (negb (JS.strictEq
                   (getAttribute "data-theme" (elements st (documentElement pg)))
                   (Some "dark")))) st) as (Ha & Hs & Hi).
    unfold darkAfter. cbn [Nat.odd Nat.even negb].
    destruct (JS.strictEq _ _); cbn [xorb negb themeName] in *; auto.
  - change (clickThemeToggle pg (S (S n)) st)
      with (clickThemeToggle pg (S n) (onThemeToggleClick pg st)).
    destruct (IH (onThemeToggleClick pg st)) as (Ha & Hs & Hi & _). clear IH.
    assert (Hflip :
      JS.strictEq
        (getAttribute "data-theme"
           (elements (onThemeToggleClick pg st) (documentElement pg))) (Some "dark")
      = negb (JS.strictEq
                (getAttribute "data-theme" (elements st (documentElement pg)))
                (Some "dark"))).
    { rewrite onThemeToggleClick_applies.
      rewrite (proj1 (applyTheme_post pg _ st)).
      generalize (JS.strictEq
                    (getAttribute "data-theme" (elements st (documentElement pg)))
                    (Some "dark")).
      intros [|]; reflexivity. }
    rewrite Hflip in Ha, Hs, Hi.
    assert (Hd : forall d, darkAfter (negb d) (S n) = darkAfter d (S (S n))).
    { intros d. unfold darkAfter. rewrite (Nat.odd_succ (S n)), <- Nat.negb_odd.
      now destruct d, (Nat.odd (S n)). }
    rewrite Hd in Ha, Hs, Hi. refine (conj Ha (conj Hs (conj Hi _))).
    unfold darkAfter, Nat.odd. reflexivity.
Qed.
End ThemeSessions.

Lemma themeToggle_session_witness :
  getAttribute "data-theme"
    (elements (clickThemeToggle (Sample.page None) 3 (Demo.state None)) 0)
  = Some "light".
Proof.
  refine (eq_trans (proj1 (themeToggle_session (Sample.page None) 2 (Demo.state None))) _).
  vm_compute. reflexivity.
Defined.

(** ** More on the pricing toggle *)

Section PricingMore.
Context (pg : Page) (billing : option string).

Lemma pricingCard_attribute card st k a :
  a <> "href" ->
  getAttribute a (elements (pricingCard pg billing card st) k)
  = getAttribute a (elements st k).
Proof.
  intros Ha. unfold pricingCard.
  destruct (querySelector pg card ".amount") as [amountEl|]; [|reflexivity].
  destruct (querySelector pg card ".plan-cta") as [cta|]; [|reflexivity].
  assert (H1 : forall s p, getAttribute a (elements (setTextContent amountEl p s) k)
                           = getAttribute a (elements s k))
    by (intros; apply getAttribute_setTextContent).
  assert (H2 : forall s h, getAttribute a (elements (setAttribute cta "href" h s) k)
                           = getAttribute a (elements s k)).
  { intros s h. rewrite getAttribute_setAttribute.
    destruct (String.eqb_spec a "href"); [contradiction|]. now rewrite andb_false_r. }
  cbv zeta.
  repeat match goal with
    | |- context [if JS.truthyValue ?v then _ else _] => destruct (JS.truthyValue v)
    end; rewrite ?H2, ?H1; reflexivity.
Qed.

(** X21.  After [updatePricing] a billing button carries [is-active]
    exactly when its [data-billing] is the cycle applied, and its
    [aria-pressed] says the same. *)
Theorem updatePricing_buttons (st : State) (btn : node) :
  btn ∈ billingButtons pg ->
  let active := JS.strictEq (dataset (elements st btn) !! "billing") billing in
  let st' := updatePricing pg billing st in
  contains "is-active" (elements st' btn) = active
  /\ getAttribute "aria-pressed" (elements st' btn) = Some (JS.String_of_bool active).
Proof.
  intros Hin active st'. subst st'. unfold updatePricing.
  set (P := fun s : State =>
    contains "is-active" (elements s btn) = active
    /\ getAttribute "aria-pressed" (elements s btn) = Some (JS.String_of_bool active)).
  change (P (JS.forEach (pricingSuffix billing) (cycleSuffix pg)
               (JS.forEach (pricingCard pg billing) (pricingCards pg)
                  (JS.forEach (pricingButton billing) (billingButtons pg) st)))).
  apply forEach_preserves.
  - apply forEach_preserves.
    + apply (forEach_establishes (pricingButton billing)
               (fun s => forall n, dataset (elements s n) = dataset (elements st n))
               P btn); auto.
      * intros y s Hs n. now rewrite pricingButton_dataset.
      * intros s Hs. unfold P, pricingButton. rewrite Hs. fold active. split.
        -- rewrite contains_setAttribute, contains_classList_toggle, Nat.eqb_refl.
           reflexivity.
        -- rewrite getAttribute_setAttribute, Nat.eqb_refl. reflexivity.
      * intros y s Hs [Hc Ha]. unfold P, pricingButton. split.
        -- rewrite contains_setAttribute, contains_classList_toggle.
           destruct (Nat.eqb_spec btn y) as [<-|]; [|exact Hc].
           cbn [andb String.eqb Ascii.eqb Bool.eqb]. now rewrite Hs.
        -- rewrite getAttribute_setAttribute.
           destruct (Nat.eqb_spec btn y) as [<-|].
           ++ cbn [andb String.eqb Ascii.eqb Bool.eqb]. now rewrite Hs.
           ++ cbn [andb]. now rewrite getAttribute_classList_toggle.
    + intros x s _ [Hc Ha]. split.
      * unfold contains in *. now rewrite pricingCard_classList.
      * rewrite pricingCard_attribute; [exact Ha | discriminate].
  - intros x s _ [Hc Ha]. split.
    + unfold contains in *. now rewrite pricingSuffix_classList.
    + unfold getAttribute in *. now rewrite pricingSuffix_attributes.
Qed.

(** X22.  Switching back and forth: what a complete card shows depends only
    on the cycle applied last.  After any other cycle, applying [billing]
    shows the price and the link the card has for [billing], as applying
    it at once does; and the suffix reads the label of [billing]. *)
Theorem updatePricing_last_cycle_wins (other : option string) (st : State)
    (card amountEl cta : node) (price href : string) :
  card ∈ pricingCards pg ->
  querySelector pg card ".amount" = Some amountEl ->
  querySelector pg card ".plan-cta" = Some cta ->
  dataset (elements st amountEl) !! JS.toPropertyKey billing = Some price ->
  price <> "" ->
  dataset (elements st cta) !! linkAttr billing = Some href ->
  href <> "" ->
  amountEl ∉ cycleSuffix pg ->
  let direct := updatePricing pg billing st in
  let switched := updatePricing pg billing (updatePricing pg other st) in
  textContent (elements switched amountEl) = price
  /\ textContent (elements direct amountEl) = price
  /\ getAttribute "href" (elements switched cta) = Some href
  /\ getAttribute "href" (elements direct cta) = Some href
  /\ (forall suffix, suffix ∈ cycleSuffix pg ->
        textContent (elements switched suffix) = cycleLabel billing).
Proof.
  intros Hin Ha Hc Hp Hpne Hl Hlne Hsuf direct switched. subst direct switched.
  apply nonEmpty_true in Hpne. apply nonEmpty_true in Hlne.
  refine (conj _ (conj _ (conj _ (conj _ _)))).
  - eapply updatePricing_amount; eauto. now rewrite updatePricing_dataset.
  - eapply updatePricing_amount; eauto.
  - eapply updatePricing_href; eauto. now rewrite updatePricing_dataset.
  - eapply updatePricing_href; eauto.
  - intros suffix Hs. now apply updatePricing_suffix.
Qed.

(** X23.  [updatePricing] touches the billing buttons, the amount and
    call-to-action elements of the cards and the suffix elements only:
    every other element is left as it was, no element loses or gains a
    data attribute, and the focus, the storage and the requests are
    unchanged. *)
Theorem updatePricing_frame (st : State) :
  let st' := updatePricing pg billing st in
  (forall k,
      k ∉ billingButtons pg -> k ∉ cycleSuffix pg ->
      (forall card, card ∈ pricingCards pg ->
         querySelector pg card ".amount" <> Some k
         /\ querySelector pg card ".plan-cta" <> Some k) ->
      elements st' k = elements st k)
  /\ (forall k, dataset (elements st' k) = dataset (elements st k))
  /\ activeElement st' = activeElement st
  /\ localStorage st' = localStorage st
  /\ fetchCalls st' = fetchCalls st
  /\ scrollCalls st' = scrollCalls st.
Proof.
  intros st'. subst st'. split; [|split].
  - intros k Hb Hs Hc. unfold updatePricing.
    apply (forEach_preserves _ (fun s => elements s k = elements st k)).
    + apply (forEach_preserves _ (fun s => elements s k = elements st k)).
      * apply (forEach_preserves _ (fun s => elements s k = elements st k));
          [reflexivity|].
        intros x s Hx Hk. rewrite <- Hk. cbn.
        destruct (Nat.eqb_spec k x) as [->|]; [contradiction | reflexivity].
      * intros x s Hx Hk. rewrite <- Hk. destruct (Hc x Hx) as [Hna Hnc].
        unfold pricingCard.
        destruct (querySelector pg x ".amount") as [a|]; [|reflexivity].
        destruct (querySelector pg x ".plan-cta") as [c|]; [|reflexivity].
        assert (k <> a) by congruence. assert (k <> c) by congruence.
        cbv zeta.
        repeat match goal with
          | |- context [if JS.truthyValue ?v then _ else _] =>
              destruct (JS.truthyValue v)
          end; cbn; eqb_cases; try contradiction; reflexivity.
    + intros x s Hx Hk. rewrite <- Hk. cbn.
      destruct (Nat.eqb_spec k x) as [->|]; [contradiction | reflexivity].
  - intros k. apply updatePricing_dataset.
  - unfold updatePricing.
    apply (forEach_preserves _
             (fun s => activeElement s = activeElement st
                       /\ localStorage s = localStorage st
                       /\ fetchCalls s = fetchCalls st
                       /\ scrollCalls s = scrollCalls st)).
    + apply (forEach_preserves _
               (fun s => activeElement s = activeElement st
                         /\ localStorage s = localStorage st
                         /\ fetchCalls s = fetchCalls st
                         /\ scrollCalls s = scrollCalls st)).
      * apply (forEach_preserves _
                 (fun s => activeElement s = activeElement st
                           /\ localStorage s = localStorage st
                           /\ fetchCalls s = fetchCalls st
                           /\ scrollCalls s = scrollCalls st)); [auto|].
        intros x s _ H. exact H.
      * intros x s _ H. unfold pricingCard.
        destruct (querySelector pg x ".amount") as [a|]; [|exact H].
        destruct (querySelector pg x ".plan-cta") as [c|]; [|exact H].
        cbv zeta.
        repeat match goal with
          | |- context [if JS.truthyValue ?v then _ else _] =>
              destruct (JS.truthyValue v)
          end; exact H.
    + intros x s _ H. exact H.
Qed.

(** X25.  A cycle named like a property that every object inherits (such
    as "constructor"): a complete card whose amount element has no data
    attribute of that name does not keep its amount; it shows the text of
    the inherited built-in.  A data attribute of that name, if there is
    one, comes first.  The link of the card is not affected by such
    names: it is read under the name of the cycle followed by "Link",
    which no object inherits. *)
Theorem updatePricing_inherited_cycle (st : State) (card amountEl cta : node) :
  card ∈ pricingCards pg ->
  querySelector pg card ".amount" = Some amountEl ->
  querySelector pg card ".plan-cta" = Some cta ->
  amountEl ∉ cycleSuffix pg ->
  JS.inherited (JS.toPropertyKey billing) = true ->
  let st' := updatePricing pg billing st in
  textContent (elements st' amountEl)
  = match dataset (elements st amountEl) !! JS.toPropertyKey billing with
    | Some price => if JS.nonEmpty price then price else textContent (elements st amountEl)
    | None => builtinText pg (JS.toPropertyKey billing)
    end
  /\ (getAttribute "href" (elements st' cta)
      = match dataset (elements st cta) !! linkAttr billing with
        | Some href => if JS.nonEmpty href then Some href
                       else getAttribute "href" (elements st cta)
        | None => getAttribute "href" (elements st cta)
        end).
Proof.
  intros Hin Ha Hc Hsuf Hkey st'. subst st'. split.
  - destruct (dataset (elements st amountEl) !! JS.toPropertyKey billing)
      as [price|] eqn:Hp.
    + destruct (JS.nonEmpty price) eqn:Hne.
      * now apply (updatePricing_amount pg billing st card amountEl cta).
      * apply updatePricing_text_unchanged; [exact Hsuf|].
        intros. now rewrite (datasetGet_own pg _ _ price Hp).
    + rewrite (updatePricing_shown pg billing st card amountEl cta); auto;
        now rewrite (datasetGet_inherited pg _ _ Hkey Hp).
  - destruct (dataset (elements st cta) !! linkAttr billing) as [href|] eqn:Hl.
    + destruct (JS.nonEmpty href) eqn:Hne.
      * now apply (updatePricing_href pg billing st card amountEl cta).
      * apply updatePricing_href_unchanged. intros. now rewrite Hl.
    + apply updatePricing_href_unchanged. intros. now rewrite Hl.
Qed.
End PricingMore.

Lemma updatePricing_buttons_witness :
  let st' := updatePricing (Sample.page None) (Some "yearly") (Demo.state None) in
  contains "is-active" (elements st' 10) = false
  /\ getAttribute "aria-pressed" (elements st' 11) = Some "true".
Proof.
  intros st'.
  destruct (updatePricing_buttons (Sample.page None) (Some "yearly") (Demo.state None) 10)
    as [H10 _]; [in_list|].
  destruct (updatePricing_buttons (Sample.page None) (Some "yearly") (Demo.state None) 11)
    as [_ H11]; [in_list|].
  split; [refine (eq_trans H10 _) | refine (eq_trans H11 _)]; vm_compute; reflexivity.
Defined.

Lemma updatePricing_last_cycle_wins_witness :
  let pg := Sample.page None in
  textContent
    (elements (updatePricing pg (Some "monthly")
                 (updatePricing pg (Some "yearly") (Demo.state None))) 21) = "29".
Proof.
  intros pg.
  apply (updatePricing_last_cycle_wins pg (Some "monthly") (Some "yearly")
           (Demo.state None) 20 21 22 "29" "/signup?plan=pro&cycle=m");
    try (vm_compute; reflexivity); try discriminate.
  - in_list.
  - not_in_list.
Defined.

(** On the sample page the third card has a monthly price only: under the
    cycle "constructor" its amount becomes the text of the built-in. *)
Lemma updatePricing_inherited_cycle_witness :
  let pg := Sample.page None in
  textContent (elements (updatePricing pg (Some "constructor") (Demo.state None)) 41)
  = "function DOMStringMap() { [native code] }"
  /\ getAttribute "href"
       (elements (updatePricing pg (Some "constructor") (Demo.state None)) 42)
     = Some "/signup?plan=lite".
Proof.
  intros pg.
  destruct (updatePricing_inherited_cycle pg (Some "constructor") (Demo.state None)
              40 41 42) as [Htext Hhref];
    [in_list | reflexivity | reflexivity | not_in_list | reflexivity |].
  split; [refine (eq_trans Htext _) | refine (eq_trans Hhref _)];
    vm_compute; reflexivity.
Defined.

(** ** The open item of the accordion *)

Section AccordionTracking.
Context (pg : Page).

Lemma setAccordionState_attribute x b st k a :
  a <> "aria-expanded" -> a <> "aria-hidden" ->
  getAttribute a (elements (setAccordionState pg x b st) k)
  = getAttribute a (elements st k).
Proof.
  intros H1 H2.
  assert (Hset : forall n name v s, name = "aria-expanded" \/ name = "aria-hidden" ->
            getAttribute a (elements (setAttribute n name v s) k)
            = getAttribute a (elements s k)).
  { intros n name v s Hn. rewrite getAttribute_setAttribute.
    destruct (String.eqb_spec a name) as [->|]; [destruct Hn; contradiction|].
    now rewrite andb_false_r. }
  unfold setAccordionState.
  destruct (panelOf pg st x) as [p|]; [|apply Hset; auto].
  destruct b.
  - change (elements (with_openAccordionId ?o ?s)) with (elements s).
    rewrite getAttribute_setStyle, !Hset; auto.
  - match goal with |- context [if ?c then _ else _] => destruct c end;
      change (elements (with_openAccordionId ?o ?s)) with (elements s);
      rewrite getAttribute_setStyle, !Hset; auto.
Qed.

Lemma setAccordionState_id x b st k :
  id_of (elements (setAccordionState pg x b st) k) = id_of (elements st k).
Proof.
  unfold id_of. rewrite setAccordionState_attribute; [reflexivity| |]; discriminate.
Qed.

(** The three writes of [setAccordionState] leave every id alone. *)
Lemma accordionWrites_id p x v1 v2 h st k :
  id_of (elements (setStyle p "maxHeight" h
           (setAttribute p "aria-hidden" v1
              (setAttribute x "aria-expanded" v2 st))) k)
  = id_of (elements st k).
Proof.
  unfold id_of. rewrite getAttribute_setStyle, !getAttribute_setAttribute.
  cbn [String.eqb Ascii.eqb Bool.eqb]. now rewrite !andb_false_r.
Qed.

(** How [setAccordionState] moves [openAccordionId] when the trigger has a
    panel. *)
Lemma setAccordionState_open x b st p :
  panelOf pg st x = Some p ->
  openAccordionId (setAccordionState pg x b st)
  = if b then Some (id_of (elements st x))
    else if JS.strictEq (openAccordionId st) (Some (id_of (elements st x))) then None
         else openAccordionId st.
Proof.
  intros Hp. unfold setAccordionState. rewrite Hp.
  destruct b.
  - change (openAccordionId (with_openAccordionId ?o ?s)) with o.
    now rewrite accordionWrites_id.
  - rewrite accordionWrites_id.
    change (openAccordionId (setStyle ?n ?pr ?h ?s)) with (openAccordionId s).
    change (openAccordionId (setAttribute ?n ?a ?v ?s)) with (openAccordionId s).
    change (openAccordionId (setAttribute ?n ?a ?v ?s)) with (openAccordionId s).
    now destruct (JS.strictEq (openAccordionId st) (Some (id_of (elements st x)))).
Qed.

Lemma setAccordionState_open_none x st :
  openAccordionId st = None ->
  openAccordionId (setAccordionState pg x false st) = None.
Proof.
  intros H. unfold setAccordionState.
  destruct (panelOf pg st x) as [p|]; [|exact H].
  match goal with |- context [if ?c then _ else _] => destruct c end;
    [reflexivity | exact H].
Qed.

(** Collapsing a trigger leaves [openAccordionId] alone or clears it. *)
Lemma setAccordionState_false_open x st :
  openAccordionId (setAccordionState pg x false st) = openAccordionId st
  \/ openAccordionId (setAccordionState pg x false st) = None.
Proof.
  unfold setAccordionState.
  destruct (panelOf pg st x) as [p|]; [|now left].
  match goal with |- context [if ?c then _ else _] => destruct c end;
    [now right | now left].
Qed.

Lemma collapseLoop_open t l st :
  openAccordionId (JS.forEach (collapseOther pg t) l st) = openAccordionId st
  \/ openAccordionId (JS.forEach (collapseOther pg t) l st) = None.
Proof.
  apply (forEach_preserves _
           (fun s => openAccordionId s = openAccordionId st
                     \/ openAccordionId s = None)); [now left|].
  intros o s _ Hs. unfold collapseOther. destruct (Nat.eqb o t); [exact Hs|].
  destruct (setAccordionState_false_open o s) as [E|E]; rewrite E; auto.
Qed.

Lemma collapseLoop_id t l st k :
  id_of (elements (JS.forEach (collapseOther pg t) l st) k) = id_of (elements st k).
Proof.
  apply (forEach_preserves _ (fun s => id_of (elements s k) = id_of (elements st k)));
    [reflexivity|].
  intros o s _ Hs. unfold collapseOther. destruct (Nat.eqb o t); [exact Hs|].
  now rewrite setAccordionState_id.
Qed.

Lemma onAccordionClick_id t st k :
  id_of (elements (onAccordionClick pg t st) k) = id_of (elements st k).
Proof.
  unfold onAccordionClick. now rewrite setAccordionState_id, collapseLoop_id.
Qed.

Lemma initAccordion_id st k :
  id_of (elements (initAccordion pg st) k) = id_of (elements st k).
Proof.
  unfold initAccordion.
  apply (forEach_preserves _ (fun s => id_of (elements s k) = id_of (elements st k)));
    [reflexivity|].
  intros o s _ Hs. now rewrite setAccordionState_id.
Qed.

Lemma onAccordionClick_tracks t st :
  t ∈ accordionTriggers pg -> is_Some (panelOf pg st t) ->
  tracksOpenItem pg st -> tracksOpenItem pg (onAccordionClick pg t st).
Proof.
  intros Ht [p Hp] [Htrack _].
  destruct (onAccordionClick_post pg t st) as (Hothers & Htoggled & _).
  apply isExpanded_of_attribute in Htoggled.
  assert (Hoth : forall o, o ∈ accordionTriggers pg -> o <> t ->
                   isExpanded (onAccordionClick pg t st) o = false).
  { intros o Ho Hne. apply (isExpanded_of_attribute _ _ false).
    apply (Hothers o Ho Hne). }
  assert (Hopen : openAccordionId (onAccordionClick pg t st)
                  = if negb (isExpanded st t) then Some (id_of (elements st t))
                    else if JS.strictEq
                              (openAccordionId
                                 (JS.forEach (collapseOther pg t) (accordionTriggers pg) st))
                              (Some (id_of (elements st t)))
                         then None
                         else openAccordionId
                                (JS.forEach (collapseOther pg t) (accordionTriggers pg) st)).
  { unfold onAccordionClick.
    rewrite (setAccordionState_open t _ _ p) by (now rewrite collapseLoop_panelOf).
    now rewrite collapseLoop_id. }
  destruct (isExpanded st t) eqn:Hexp; cbn [negb] in *.
  - assert (Hnone : openAccordionId (onAccordionClick pg t st) = None).
    { rewrite Hopen.
      destruct (collapseLoop_open t (accordionTriggers pg) st) as [E|E]; rewrite E.
      - rewrite (Htrack t Ht Hexp).
        assert (E' : JS.strictEq (Some (id_of (elements st t)))
                       (Some (id_of (elements st t))) = true)
          by now apply strictEq_true.
        now rewrite E'.
      - now destruct (JS.strictEq None (Some (id_of (elements st t)))). }
    split; [|intros _; exact Hnone].
    intros x Hx Hxe. destruct (Nat.eq_dec x t) as [->|Hne]; [congruence|].
    rewrite (Hoth x Hx Hne) in Hxe. discriminate.
  - split.
    + intros x Hx Hxe. destruct (Nat.eq_dec x t) as [->|Hne].
      * now rewrite Hopen, onAccordionClick_id.
      * rewrite (Hoth x Hx Hne) in Hxe. discriminate.
    + intros Hall. rewrite (Hall t Ht) in Htoggled. discriminate.
Qed.

Lemma initAccordion_tracks st :
  openAccordionId st = None -> tracksOpenItem pg (initAccordion pg st).
Proof.
  intros Hnone.
  assert (H : openAccordionId (initAccordion pg st) = None).
  { unfold initAccordion.
    apply (forEach_preserves _ (fun s => openAccordionId s = None)); [exact Hnone|].
    intros x s _ Hs. now apply setAccordionState_open_none. }
  split; [|intros _; exact H].
  intros t Ht He. rewrite (proj1 (initAccordion_collapsed pg st t Ht)) in He. discriminate.
Qed.

(** X24.  When [openAccordionId] starts as [null] and every trigger that is
    clicked has a panel, then after the load-time loop and any sequence of
    clicks on triggers [openAccordionId] is the id of every expanded
    trigger, and [null] when no trigger is expanded; two triggers may share
    an id. *)
Theorem openAccordionId_tracks (st0 : State) (clicks : list node) :
  openAccordionId st0 = None ->
  Forall (fun t => t ∈ accordionTriggers pg /\ is_Some (panelOf pg st0 t)) clicks ->
  tracksOpenItem pg (runAccordion pg clicks (initAccordion pg st0)).
Proof.
  intros Hnone Hclicks.
  assert (Hpan : forall k, panelOf pg (initAccordion pg st0) k = panelOf pg st0 k)
    by (intros k; apply initAccordion_panelOf).
  pose proof (initAccordion_tracks st0 Hnone) as Htr.
  revert Hpan Htr. generalize (initAccordion pg st0). clear Hnone.
  induction Hclicks as [|t rest [Ht Hp] _ IH]; intros st Hpan Htr; [exact Htr|].
  unfold runAccordion in *. cbn [JS.forEach]. apply IH.
  - intros k. now rewrite onAccordionClick_panelOf.
  - apply onAccordionClick_tracks; [exact Ht| now rewrite Hpan |exact Htr].
Qed.
End AccordionTracking.

Lemma openAccordionId_tracks_witness :
  let pg := Sample.page None in
  openAccordionId (runAccordion pg [50; 52] (initAccordion pg (Demo.state None)))
  = Some "faq-2"
  /\ openAccordionId (runAccordion pg [50; 52; 52] (initAccordion pg (Demo.state None)))
     = None.
Proof.
  intros pg.
  assert (H50 : 50 ∈ accordionTriggers pg /\ is_Some (panelOf pg (Demo.state None) 50))
    by (split; [in_list | vm_compute; eauto]).
  assert (H52 : 52 ∈ accordionTriggers pg /\ is_Some (panelOf pg (Demo.state None) 52))
    by (split; [in_list | vm_compute; eauto]).
  split.
  - destruct (openAccordionId_tracks pg (Demo.state None) [50; 52] eq_refl)
      as [Htrack _]; [repeat (apply Forall_cons_2; [assumption|]); apply Forall_nil_2|].
    refine (eq_trans (Htrack 52 (proj1 H52) _) _); vm_compute; reflexivity.
  - destruct (openAccordionId_tracks pg (Demo.state None) [50; 52; 52] eq_refl)
      as [_ Hnone]; [repeat (apply Forall_cons_2; [assumption|]); apply Forall_nil_2|].
    apply Hnone. intros t Ht. apply list_elem_of_In in Ht. simpl in Ht.
    destruct Ht as [<-|[<-|[<-|[]]]]; vm_compute; reflexivity.
Defined.
